(** * Bubble Pop: Finger Frenzy -- a shallow embedding of the game logic

    The development follows the TypeScript sources:
    - [types.ts]                      enumerations and entity records;
    - [constants.ts]                  scoring table and level table;
    - [services/storageService.ts]    high scores and the level checkpoint;
    - [components/GameCanvas.tsx]     the pointer pipeline (one-euro filter,
                                      cover mapping, deadzone) and the
                                      simulation (pop resolution, tick);
    - [components/MainMenu.tsx],
      [components/GameOver.tsx]       the two callers of the storage service.

    Conventions.
    - The numbers of the canvas code (coordinates, times, speeds) are real
      numbers: arithmetic is exact, IEEE rounding and NaN are not modelled.
      Counters that only ever hold integers (score, lives, level index) are
      integers.  The one-euro filter is embedded a second time over binary64
      floating-point numbers ([OneEuroFilter64]), the arithmetic the program
      runs, to tell what exact arithmetic promises from what rounding keeps.
    - The numbers read back from [localStorage] are untrusted, so the storage
      service works on rationals extended with NaN and the two infinities;
      the arguments the application passes in are finite rationals.
    - Calls that leave the component (audio cues, React setters, the
      [onGameOver] callback, the checkpoint service) are appended to a trace.
    - [Math.random] is an oracle: the n-th draw of the session is
      [random n], and the world counts the draws made so far. *)

From Stdlib Require Import Floats ZArith QArith Qround Reals Lra Lia.
From stdpp Require Import gmap strings list fin_maps pretty.

(* ===================================================================== *)
(** ** types.ts *)
(* ===================================================================== *)

Inductive GameMode := LEVELS_MODE | INFINITE.

Inductive BubbleType := NORMAL | RARE | BOMB | HEART.

Inductive GameStatus := MENU | PLAYING | GAME_OVER | PAUSED.

#[global] Instance GameMode_eq_dec : EqDecision GameMode.
Proof. solve_decision. Defined.

#[global] Instance BubbleType_eq_dec : EqDecision BubbleType.
Proof. solve_decision. Defined.

#[global] Instance GameStatus_eq_dec : EqDecision GameStatus.
Proof. solve_decision. Defined.

(** The string value of each [GameMode] member, used as a property key. *)
Definition modeKey (m : GameMode) : string :=
  match m with
  | LEVELS_MODE => "LEVELS"
  | INFINITE => "INFINITE"
  end.

(* ===================================================================== *)
(** ** Numbers as the storage service sees them *)
(* ===================================================================== *)

Module JS.

(** A number obtained from parsed JSON and the coercions applied to it:
    a finite value, an infinity (a literal such as 1e999 overflows), or NaN
    (the coercion of [undefined]). *)
Inductive number :=
| NaN
| PosInf
| NegInf
| Fin (q : Q).

Definition Qlt_bool (a b : Q) : bool := negb (Qle_bool b a).

(** [Math.floor] *)
Definition floor (n : number) : number :=
  match n with
  | Fin q => Fin (inject_Z (Qfloor q))
  | other => other
  end.

(** [Number.isFinite] *)
Definition isFinite (n : number) : bool :=
  match n with
  | Fin _ => true
  | _ => false
  end.

(** [a < b]: false as soon as one side is NaN. *)
Definition lt (a b : number) : bool :=
  match a, b with
  | NaN, _ | _, NaN => false
  | _, NegInf => false
  | NegInf, _ => true
  | PosInf, _ => false
  | Fin _, PosInf => true
  | Fin x, Fin y => Qlt_bool x y
  end.

(** [a <= b] *)
Definition le (a b : number) : bool :=
  match a, b with
  | NaN, _ | _, NaN => false
  | NegInf, _ => true
  | _, PosInf => true
  | PosInf, _ => false
  | Fin _, NegInf => false
  | Fin x, Fin y => Qle_bool x y
  end.

(** [a > b] *)
Definition gt (a b : number) : bool := lt b a.

(** Truthiness of a number: NaN and zero are falsy. *)
Definition truthy (n : number) : bool :=
  match n with
  | NaN => false
  | Fin q => negb (Qeq_bool q 0)
  | _ => true
  end.

(** [a || d] *)
Definition or (a d : number) : number := if truthy a then a else d.

(** [Math.max(a, b)] *)
Definition max (a b : number) : number :=
  match a, b with
  | NaN, _ | _, NaN => NaN
  | PosInf, _ | _, PosInf => PosInf
  | NegInf, o | o, NegInf => o
  | Fin x, Fin y => if Qle_bool x y then Fin y else Fin x
  end.

End JS.

(* ===================================================================== *)
(** ** services/storageService.ts *)
(* ===================================================================== *)

Module storageService.

Import JS.

Definition SCORE_STORAGE_KEY : string := "bubble_pop_scores_v1".
Definition LEVEL_CHECKPOINT_KEY : string := "bpf_level_checkpoint_v2".

(** A plain object whose properties hold numbers. *)
Abbreviation object := (gmap string number).

(** What [JSON.parse] hands to the service when the text holds a structure:
    a plain object, or an array.  Elements and property values other than
    numbers are not represented. *)
Inductive value :=
| Object (o : object)
| Array (a : list number).

(** The text stored under a key, represented by what the service can observe
    of it: whether it is the empty string (falsy), whether [JSON.parse] and
    the property accesses succeed, and the parsed structure otherwise.
    [Corrupt] stands for any text on which [JSON.parse] throws, for the text
    [null], on whose parse every property access throws, and for the text of
    a number, a string or a boolean, on whose parse every property reads as
    [undefined] and the property write of [saveHighScore] throws (module
    code is strict): the service treats all of them alike. *)
Inductive item :=
| EmptyText
| Corrupt
| Document (v : value).

(** [localStorage]: [getItem] is lookup ([None] for null), [setItem] is
    insert and [removeItem] is delete. *)
Abbreviation localStorage := (gmap string item).

(** [!raw] on the result of [getItem] *)
Definition absent (raw : option item) : bool :=
  match raw with
  | None | Some EmptyText => true
  | Some _ => false
  end.

(** [JSON.parse]; [None] is a thrown exception (here, or at the first use
    of the result). *)
Definition JSON_parse (raw : item) : option value :=
  match raw with
  | Document v => Some v
  | EmptyText | Corrupt => None
  end.

(** [JSON.stringify] writes NaN and the infinities as [null], which every
    use below reads back as it reads 0. *)
Definition jsonNumber (n : number) : number :=
  match n with
  | Fin q => Fin q
  | _ => Fin 0
  end.

(** [JSON.stringify], as the stored text: the properties of an object, the
    elements of an array. *)
Definition JSON_stringify (v : value) : item :=
  match v with
  | Object o => Document (Object (jsonNumber <$> o))
  | Array a => Document (Array (jsonNumber <$> a))
  end.

(** Reading a property by name; a missing one is [undefined], which every
    use below coerces to a number or tests for truthiness, both as NaN
    does.  The names read here are no indices, so an array has none of
    them. *)
Definition prop (v : value) (k : string) : number :=
  match v with
  | Object o => default NaN (o !! k)
  | Array _ => NaN
  end.

(** [v[k] = x] for a name [k] that is no index.  On an array this sets a
    named property, which is no element: [JSON.stringify] leaves it out, and
    nothing reads it in between. *)
Definition assign (k : string) (x : number) (v : value) : value :=
  match v with
  | Object o => Object (<[k := x]> o)
  | Array a => Array a
  end.

(** [getHighScore] *)
Definition getHighScore (mode : GameMode) (ls : localStorage) : number :=
  let data := ls !! SCORE_STORAGE_KEY in
  if absent data then Fin 0
  else
    match data ≫= JSON_parse with
    | Some scores => or (prop scores (modeKey mode)) (Fin 0)
    | None => Fin 0
    end.

(** [saveHighScore]: the storage afterwards and the returned flag. *)
Definition saveHighScore (mode : GameMode) (score : Q) (ls : localStorage)
  : localStorage * bool :=
  let currentHigh := getHighScore mode ls in
  if gt (Fin score) currentHigh then
    let data := ls !! SCORE_STORAGE_KEY in
    let parsed := if absent data then Some (Object ∅) else data ≫= JSON_parse in
    match parsed with
    | Some scores =>
        let scores' := assign (modeKey mode) (Fin score) scores in
        (<[SCORE_STORAGE_KEY := JSON_stringify scores']> ls, true)
    | None => (ls, false)
    end
  else (ls, false).

(** [makeCheckpointPayload]; [now] is the reading of [Date.now()]. *)
Definition makeCheckpointPayload (highestUnlockedLevel : Q) (now : Q) : value :=
  Object
    {[ "version" := Fin 2;
       "highestUnlockedLevel" := Fin (inject_Z (Z.max 1 (Qfloor highestUnlockedLevel)));
       "savedAt" := Fin now ]}.

Definition defaultCheckpoint : value :=
  Object
    {[ "version" := Fin 2; "highestUnlockedLevel" := Fin 1; "savedAt" := Fin 0 ]}.

(** [loadCheckpoint]: the storage afterwards and the returned payload. *)
Definition loadCheckpoint (ls : localStorage) : localStorage * value :=
  let raw := ls !! LEVEL_CHECKPOINT_KEY in
  if absent raw then (ls, defaultCheckpoint)
  else
    match raw ≫= JSON_parse with
    | Some data =>
        let lvl := floor (prop data "highestUnlockedLevel") in
        if negb (isFinite lvl) || lt lvl (Fin 1)
        then (delete LEVEL_CHECKPOINT_KEY ls, defaultCheckpoint)
        else (ls, data)
    | None => (delete LEVEL_CHECKPOINT_KEY ls, defaultCheckpoint)
    end.

(** [saveUnlockedLevelIfHigher] *)
Definition saveUnlockedLevelIfHigher (now : Q) (levelJustCleared : Q)
    (ls : localStorage) : localStorage :=
  let nextUnlocked := Z.max 1 (Qfloor levelJustCleared + 1) in
  let '(ls1, cp) := loadCheckpoint ls in
  let prev := or (prop cp "highestUnlockedLevel") (Fin 1) in
  if le (Fin (inject_Z nextUnlocked)) prev then ls1
  else
    <[LEVEL_CHECKPOINT_KEY :=
        JSON_stringify (makeCheckpointPayload (inject_Z nextUnlocked) now)]> ls1.

(** [getResumeLevel] *)
Definition getResumeLevel (ls : localStorage) : localStorage * number :=
  let '(ls1, cp) := loadCheckpoint ls in
  (ls1, max (Fin 1) (or (prop cp "highestUnlockedLevel") (Fin 1))).

(** [clearCheckpoint] *)
Definition clearCheckpoint (ls : localStorage) : localStorage :=
  delete LEVEL_CHECKPOINT_KEY ls.

(** The highest unlocked level a load reports for a storage. *)
Definition persistedLevel (ls : localStorage) : number :=
  prop (snd (loadCheckpoint ls)) "highestUnlockedLevel".

(** A run of [saveUnlockedLevelIfHigher] calls, each with the clock reading
    at the call and its argument. *)
Definition saveAll (calls : list (Q * Q)) (ls : localStorage) : localStorage :=
  foldl (fun s c => saveUnlockedLevelIfHigher (fst c) (snd c) s) ls calls.

(** The score record is usable: there is none, or it holds an object or an
    array. *)
Definition scoresUsable (ls : localStorage) : bool :=
  match ls !! SCORE_STORAGE_KEY with
  | Some Corrupt => false
  | _ => true
  end.

(** The score record keeps what is assigned to it: there is none, or it
    holds a plain object. *)
Definition scoresKept (ls : localStorage) : bool :=
  match ls !! SCORE_STORAGE_KEY with
  | Some Corrupt | Some (Document (Array _)) => false
  | _ => true
  end.

(** Sample storages. *)
Definition emptyStorage : localStorage := ∅.

Definition corruptCheckpointStorage : localStorage :=
  {[ LEVEL_CHECKPOINT_KEY := Corrupt ]}.

Definition level5Storage : localStorage :=
  {[ LEVEL_CHECKPOINT_KEY := Document (makeCheckpointPayload 5 1000) ]}.

Definition subOneStorage : localStorage :=
  {[ LEVEL_CHECKPOINT_KEY :=
       Document (Object {[ "version" := Fin 2; "highestUnlockedLevel" := Fin 0;
                           "savedAt" := Fin 7 ]}) ]}.

(** A record without the level property, and one whose level overflowed. *)
Definition noLevelStorage : localStorage :=
  {[ LEVEL_CHECKPOINT_KEY := Document (Object {[ "version" := Fin 2 ]}) ]}.

Definition infiniteLevelStorage : localStorage :=
  {[ LEVEL_CHECKPOINT_KEY :=
       Document (Object {[ "highestUnlockedLevel" := PosInf ]}) ]}.

(** A score record that holds an array, and a checkpoint that does. *)
Definition arrayScoresStorage : localStorage :=
  {[ SCORE_STORAGE_KEY := Document (Array []) ]}.

Definition arrayCheckpointStorage : localStorage :=
  {[ LEVEL_CHECKPOINT_KEY := Document (Array [Fin 3]) ]}.

End storageService.

(* ===================================================================== *)
(** ** types.ts: points and entities *)
(* ===================================================================== *)

Module Point.
Record t := mk { x : R; y : R }.
End Point.

Module BubbleEntity.
Record t := mk {
  id : string;
  x : R;
  y : R;
  radius : R;
  speed : R;
  wobbleOffset : R;
  type : BubbleType;
  opacity : R;
  isPopped : bool
}.

(** [b.y = v] and [b.isPopped = v] *)
Definition set_y (v : R) (b : t) : t :=
  mk (id b) (x b) v (radius b) (speed b) (wobbleOffset b) (type b) (opacity b)
     (isPopped b).

Definition set_isPopped (v : bool) (b : t) : t :=
  mk (id b) (x b) (y b) (radius b) (speed b) (wobbleOffset b) (type b)
     (opacity b) v.
End BubbleEntity.

Module Particle.
Record t := mk {
  id : string;
  x : R;
  y : R;
  vx : R;
  vy : R;
  life : R;
  color : string;
  size : R
}.
End Particle.

(** [Math.hypot] on two arguments *)
Definition hypot (a b : R) : R := sqrt (a * a + b * b)%R.

(* ===================================================================== *)
(** ** constants.ts *)
(* ===================================================================== *)

Module constants.

#[local] Open Scope R_scope.

(** Single source of truth for mirroring *)
Definition CAMERA_MIRRORED : bool := true.

Module GAME_CONFIG.
Definition FPS : R := 60.
Definition BASE_SPEED : R := 2.0.
Definition SPAWN_RATE_MS : R := 900.
Definition GRAVITY : R := 0.15.
Definition CANVAS_WIDTH : R := 1280.
Definition CANVAS_HEIGHT : R := 720.
End GAME_CONFIG.

Definition SCORING (t : BubbleType) : Z :=
  match t with
  | NORMAL => 10%Z
  | RARE => 50%Z
  | BOMB => 0%Z
  | HEART => 0%Z
  end.

Record LevelDefinition := {
  target : Z;
  speedMod : R;
  spawnMod : R;
  bombChance : R
}.

(** The level table written out as a literal.  The file also carries
    generated tables of 20 and of 100 levels; the simulation below takes the
    table as a parameter, and this one serves for the worked examples. *)
Definition LEVELS : list LevelDefinition :=
  [ {| target := 150; speedMod := 1.0; spawnMod := 1.0; bombChance := 0.1 |};
    {| target := 400; speedMod := 1.2; spawnMod := 0.9; bombChance := 0.15 |};
    {| target := 800; speedMod := 1.4; spawnMod := 0.8; bombChance := 0.2 |};
    {| target := 1500; speedMod := 1.7; spawnMod := 0.7; bombChance := 0.25 |};
    {| target := 3000; speedMod := 2.0; spawnMod := 0.6; bombChance := 0.3 |};
    {| target := 999999; speedMod := 2.5; spawnMod := 0.5; bombChance := 0.35 |} ].

End constants.

(* ===================================================================== *)
(** ** components/GameCanvas.tsx: the pointer pipeline *)
(* ===================================================================== *)

Module OneEuroFilter.

#[local] Open Scope R_scope.

(** The fields of the class; [x] and [y] are null until the first update. *)
Record filter := mk {
  minCutoff : R;
  beta : R;
  dCutoff : R;
  x : option R;
  y : option R;
  dx : R;
  dy : R;
  t : R
}.

(** [constructor]; [now] is the reading of [performance.now()]. *)
Definition new (minCutoff beta dCutoff : R) (now : R) : filter :=
  mk minCutoff beta dCutoff None None 0 0 now.

(** The defaults of the constructor's destructured argument. *)
Definition newDefault (now : R) : filter := new 1.5 0.05 1.0 now.

Definition alpha (cutoff dt : R) : R :=
  let tau := 1.0 / (2 * PI * cutoff) in
  1.0 / (1.0 + tau / dt).

Definition lowPass (alpha prev value : R) : R :=
  prev + alpha * (value - prev).

(** [update]; [now] is the reading of [performance.now()] at the call. *)
Definition update (now : R) (nx ny : R) (f : filter) : filter * Point.t :=
  let dt := Rmax 0.001 ((now - t f) / 1000) in
  match x f, y f with
  | Some fx, Some fy =>
      let rawDx := (nx - fx) / dt in
      let rawDy := (ny - fy) / dt in
      let aD := alpha (dCutoff f) dt in
      let dx' := lowPass aD (dx f) rawDx in
      let dy' := lowPass aD (dy f) rawDy in
      let speed := hypot dx' dy' in
      let cutoff := minCutoff f + beta f * speed in
      let a := alpha cutoff dt in
      let x' := lowPass a fx nx in
      let y' := lowPass a fy ny in
      (mk (minCutoff f) (beta f) (dCutoff f) (Some x') (Some y') dx' dy' now,
       Point.mk x' y')
  | _, _ =>
      (mk (minCutoff f) (beta f) (dCutoff f) (Some nx) (Some ny) (dx f) (dy f) now,
       Point.mk nx ny)
  end.

(** Holding one input over the clock readings of [clock], oldest first. *)
Definition hold (clock : list R) (nx ny : R) (f : filter) : filter :=
  foldl (fun f now => fst (update now nx ny f)) f clock.

(** Distance of the stored position from a point; zero while unset. *)
Definition offset (f : filter) (cx cy : R) : R :=
  match x f, y f with
  | Some fx, Some fy => hypot (fx - cx) (fy - cy)
  | _, _ => 0
  end.

End OneEuroFilter.

(** The same class over the numbers of the program.  A JavaScript number is
    an IEEE 754 binary64 value and [+], [-], [*], [/] and [Math.sqrt] round
    to nearest, ties to even: these are the operations of [PrimFloat], and a
    decimal literal denotes the nearest binary64 value in both languages. *)
Module OneEuroFilter64.

#[local] Open Scope float_scope.
#[local] Set Warnings "-inexact-float".

(** [Math.PI] *)
Definition PI : float := 0x1.921fb54442d18p+1.

(** [Math.max] on two arguments: NaN if either is, and +0 above -0. *)
Definition max (a b : float) : float :=
  if is_nan a || is_nan b then nan
  else if a <? b then b
  else if b <? a then a
  else if is_zero a then a + b
  else a.

(** [Math.hypot] on two arguments, as the rounded square root of the rounded
    sum of the rounded squares.  An engine may scale the arguments first,
    which matters where a square overflows or underflows and can move the
    last place of the result elsewhere. *)
Definition hypot (a b : float) : float := PrimFloat.sqrt (a * a + b * b).

Record filter := mk {
  minCutoff : float;
  beta : float;
  dCutoff : float;
  x : option float;
  y : option float;
  dx : float;
  dy : float;
  t : float
}.

(** [constructor]; [now] is the reading of [performance.now()]. *)
Definition new (minCutoff beta dCutoff : float) (now : float) : filter :=
  mk minCutoff beta dCutoff None None 0 0 now.

Definition alpha (cutoff dt : float) : float :=
  let tau := 1.0 / (2 * PI * cutoff) in
  1.0 / (1.0 + tau / dt).

Definition lowPass (alpha prev value : float) : float :=
  prev + alpha * (value - prev).

(** [update]; [now] is the reading of [performance.now()] at the call. *)
Definition update (now : float) (nx ny : float) (f : filter)
  : filter * (float * float) :=
  let dt := max 0.001 ((now - t f) / 1000) in
  match x f, y f with
  | Some fx, Some fy =>
      let rawDx := (nx - fx) / dt in
      let rawDy := (ny - fy) / dt in
      let aD := alpha (dCutoff f) dt in
      let dx' := lowPass aD (dx f) rawDx in
      let dy' := lowPass aD (dy f) rawDy in
      let speed := hypot dx' dy' in
      let cutoff := minCutoff f + beta f * speed in
      let a := alpha cutoff dt in
      let x' := lowPass a fx nx in
      let y' := lowPass a fy ny in
      (mk (minCutoff f) (beta f) (dCutoff f) (Some x') (Some y') dx' dy' now,
       (x', y'))
  | _, _ =>
      (mk (minCutoff f) (beta f) (dCutoff f) (Some nx) (Some ny) (dx f) (dy f) now,
       (nx, ny))
  end.

(** Holding one input over the clock readings of [clock], oldest first. *)
Definition hold (clock : list float) (nx ny : float) (f : filter) : filter :=
  foldl (fun f now => fst (update now nx ny f)) f clock.

(** The outputs of the same calls, oldest first. *)
Fixpoint trail (clock : list float) (nx ny : float) (f : filter)
  : list (float * float) :=
  match clock with
  | [] => []
  | now :: rest =>
      let '(f', p) := update now nx ny f in p :: trail rest nx ny f'
  end.

(** The stored position. *)
Definition position (f : filter) : option (float * float) :=
  match x f, y f with
  | Some fx, Some fy => Some (fx, fy)
  | _, _ => None
  end.

(** Distance of an output from a point. *)
Definition offset (p : float * float) (cx cy : float) : float :=
  hypot (fst p - cx) (snd p - cy).

(** [n] clock readings, [step] apart, from [start] on. *)
Fixpoint ticks (start step : float) (n : nat) : list float :=
  match n with
  | O => []
  | S n' => start :: ticks (start + step) step n'
  end.

(** Each reading of [clock] is [step] after the one before it, by the
    subtraction of the program; [t0] is the reading before the first. *)
Fixpoint paced (step t0 : float) (clock : list float) : Prop :=
  match clock with
  | [] => True
  | now :: rest => now - t0 = step /\ paced step now rest
  end.

(** Each number of the list is strictly below the one before it. *)
Fixpoint descending (l : list float) : bool :=
  match l with
  | a :: (b :: _) as rest => (b <? a) && descending rest
  | _ => true
  end.

(** The distances of the outputs of a run from the input held. *)
Definition gaps (clock : list float) (nx ny : float) (f : filter) : list float :=
  map (fun p => offset p nx ny) (trail clock nx ny f).

(** No number of the list is above the one before it. *)
Fixpoint nonincreasing (l : list float) : bool :=
  match l with
  | a :: (b :: _) as rest => (b <=? a) && nonincreasing rest
  | _ => true
  end.

(** The last number of the list is below [tol]. *)
Definition endsBelow (tol : float) (l : list float) : bool :=
  match last l with
  | Some d => d <? tol
  | None => false
  end.

(** Both coordinates of an output compare equal to [c]. *)
Definition rests (c : float) (p : float * float) : bool :=
  (fst p =? c) && (snd p =? c).

End OneEuroFilter64.

Module mapper.

#[local] Open Scope R_scope.

Record CoverRect := {
  drawW : R;
  drawH : R;
  offsetX : R;
  offsetY : R
}.

Definition getCoverRect (videoW videoH stageW stageH : R) : CoverRect :=
  let videoAR := videoW / videoH in
  let stageAR := stageW / stageH in
  if Rgt_dec videoAR stageAR then
    let drawH := stageH in
    let drawW := stageH * videoAR in
    {| drawW := drawW; drawH := drawH;
       offsetX := (stageW - drawW) / 2; offsetY := 0 |}
  else
    let drawW := stageW in
    let drawH := stageW / videoAR in
    {| drawW := drawW; drawH := drawH;
       offsetX := 0; offsetY := (stageH - drawH) / 2 |}.

(** The local [scale] of [mapLandmarkToStage]. *)
Definition coverScale (vw vh stageW stageH : R) : R :=
  drawW (getCoverRect vw vh stageW stageH) / vw.

(** [mapLandmarkToStage].  [video] is [videoRef.current] as its
    [(videoWidth, videoHeight)], [None] when there is no element; [stage] is
    [stageDimensions.current]; [mirrored] is the constant
    [CAMERA_MIRRORED]. *)
Definition mapLandmarkToStage (mirrored : bool) (video : option (R * R))
    (stage : R * R) (normX normY : R) : option Point.t :=
  let '(stageW, stageH) := stage in
  match video with
  | None => None
  | Some (vw, vh) =>
      if Req_dec_T vw 0 then None
      else if Req_dec_T vh 0 then None
      else if Req_dec_T stageW 0 then None
      else if Req_dec_T stageH 0 then None
      else
        let xN := if mirrored then 1 - normX else normX in
        let yN := normY in
        let xV := xN * vw in
        let yV := yN * vh in
        let rect := getCoverRect vw vh stageW stageH in
        let scale := coverScale vw vh stageW stageH in
        Some (Point.mk (offsetX rect + xV * scale) (offsetY rect + yV * scale))
  end.

Definition clampToStage (p : Point.t) (w h : R) (margin : R) : Point.t :=
  Point.mk (Rmax margin (Rmin (w - margin) (Point.x p)))
           (Rmax margin (Rmin (h - margin) (Point.y p))).

End mapper.

(* ===================================================================== *)
(** ** components/GameCanvas.tsx: session state *)
(* ===================================================================== *)

Module GameCanvas.

Import constants.

(** Bubble objects live in a store and are named by reference: the array
    [gameState.current.bubbles] holds references, so a bubble mutated while
    [forEach] walks the array is seen through every alias, and replacing the
    array ([bubbles = []]) does not disturb a walk already under way. *)
Abbreviation ref := nat.

Inductive InputType := MOUSE | CAMERA.

Record GameState := mkGameState {
  status : GameStatus;
  score : Z;
  lives : Z;
  levelIndex : Z;
  levelScoreStart : Z;
  lastSpawnTime : R;
  bubbles : list ref;
  particles : list Particle.t;
  inputType : InputType;
  fingerPos : Point.t;
  lastStablePos : Point.t;
  lastHandTime : R;
  screenShake : R;
  message : string;
  messageTimer : Z
}.

(** Assignments to single fields of [gameState.current]. *)
Definition set_status (v : GameStatus) (gs : GameState) : GameState :=
  mkGameState v (score gs) (lives gs) (levelIndex gs) (levelScoreStart gs) (lastSpawnTime gs) (bubbles gs) (particles gs) (inputType gs) (fingerPos gs) (lastStablePos gs) (lastHandTime gs) (screenShake gs) (message gs) (messageTimer gs).

Definition set_score (v : Z) (gs : GameState) : GameState :=
  mkGameState (status gs) v (lives gs) (levelIndex gs) (levelScoreStart gs) (lastSpawnTime gs) (bubbles gs) (particles gs) (inputType gs) (fingerPos gs) (lastStablePos gs) (lastHandTime gs) (screenShake gs) (message gs) (messageTimer gs).

Definition set_lives (v : Z) (gs : GameState) : GameState :=
  mkGameState (status gs) (score gs) v (levelIndex gs) (levelScoreStart gs) (lastSpawnTime gs) (bubbles gs) (particles gs) (inputType gs) (fingerPos gs) (lastStablePos gs) (lastHandTime gs) (screenShake gs) (message gs) (messageTimer gs).

Definition set_levelIndex (v : Z) (gs : GameState) : GameState :=
  mkGameState (status gs) (score gs) (lives gs) v (levelScoreStart gs) (lastSpawnTime gs) (bubbles gs) (particles gs) (inputType gs) (fingerPos gs) (lastStablePos gs) (lastHandTime gs) (screenShake gs) (message gs) (messageTimer gs).

Definition set_levelScoreStart (v : Z) (gs : GameState) : GameState :=
  mkGameState (status gs) (score gs) (lives gs) (levelIndex gs) v (lastSpawnTime gs) (bubbles gs) (particles gs) (inputType gs) (fingerPos gs) (lastStablePos gs) (lastHandTime gs) (screenShake gs) (message gs) (messageTimer gs).

Definition set_lastSpawnTime (v : R) (gs : GameState) : GameState :=
  mkGameState (status gs) (score gs) (lives gs) (levelIndex gs) (levelScoreStart gs) v (bubbles gs) (particles gs) (inputType gs) (fingerPos gs) (lastStablePos gs) (lastHandTime gs) (screenShake gs) (message gs) (messageTimer gs).

Definition set_bubbles (v : list ref) (gs : GameState) : GameState :=
  mkGameState (status gs) (score gs) (lives gs) (levelIndex gs) (levelScoreStart gs) (lastSpawnTime gs) v (particles gs) (inputType gs) (fingerPos gs) (lastStablePos gs) (lastHandTime gs) (screenShake gs) (message gs) (messageTimer gs).

Definition set_particles (v : list Particle.t) (gs : GameState) : GameState :=
  mkGameState (status gs) (score gs) (lives gs) (levelIndex gs) (levelScoreStart gs) (lastSpawnTime gs) (bubbles gs) v (inputType gs) (fingerPos gs) (lastStablePos gs) (lastHandTime gs) (screenShake gs) (message gs) (messageTimer gs).

Definition set_inputType (v : InputType) (gs : GameState) : GameState :=
  mkGameState (status gs) (score gs) (lives gs) (levelIndex gs) (levelScoreStart gs) (lastSpawnTime gs) (bubbles gs) (particles gs) v (fingerPos gs) (lastStablePos gs) (lastHandTime gs) (screenShake gs) (message gs) (messageTimer gs).

Definition set_fingerPos (v : Point.t) (gs : GameState) : GameState :=
  mkGameState (status gs) (score gs) (lives gs) (levelIndex gs) (levelScoreStart gs) (lastSpawnTime gs) (bubbles gs) (particles gs) (inputType gs) v (lastStablePos gs) (lastHandTime gs) (screenShake gs) (message gs) (messageTimer gs).

Definition set_lastStablePos (v : Point.t) (gs : GameState) : GameState :=
  mkGameState (status gs) (score gs) (lives gs) (levelIndex gs) (levelScoreStart gs) (lastSpawnTime gs) (bubbles gs) (particles gs) (inputType gs) (fingerPos gs) v (lastHandTime gs) (screenShake gs) (message gs) (messageTimer gs).

Definition set_lastHandTime (v : R) (gs : GameState) : GameState :=
  mkGameState (status gs) (score gs) (lives gs) (levelIndex gs) (levelScoreStart gs) (lastSpawnTime gs) (bubbles gs) (particles gs) (inputType gs) (fingerPos gs) (lastStablePos gs) v (screenShake gs) (message gs) (messageTimer gs).

Definition set_screenShake (v : R) (gs : GameState) : GameState :=
  mkGameState (status gs) (score gs) (lives gs) (levelIndex gs) (levelScoreStart gs) (lastSpawnTime gs) (bubbles gs) (particles gs) (inputType gs) (fingerPos gs) (lastStablePos gs) (lastHandTime gs) v (message gs) (messageTimer gs).

Definition set_message (v : string) (gs : GameState) : GameState :=
  mkGameState (status gs) (score gs) (lives gs) (levelIndex gs) (levelScoreStart gs) (lastSpawnTime gs) (bubbles gs) (particles gs) (inputType gs) (fingerPos gs) (lastStablePos gs) (lastHandTime gs) (screenShake gs) v (messageTimer gs).

Definition set_messageTimer (v : Z) (gs : GameState) : GameState :=
  mkGameState (status gs) (score gs) (lives gs) (levelIndex gs) (levelScoreStart gs) (lastSpawnTime gs) (bubbles gs) (particles gs) (inputType gs) (fingerPos gs) (lastStablePos gs) (lastHandTime gs) (screenShake gs) (message gs) v.

(** What the component does to the outside, and one marker: [HandlePop r]
    records that [handlePop] was entered for the bubble object [r]. *)
Inductive Event :=
| PlayBomb
| PlayRarePop
| PlayHeart
| PlayPop
| SetScore (score : Z)
| SetLives (lives : Z)
| SetLevel (level : Z)
| SetFeedbackMessage (msg : string)
| SetToastMessage (msg : option string)
| SetTimeout (ms : Z)
| SetCameraActive (active : bool)
| OnGameOver (score : Z)
| SaveUnlockedLevelIfHigher (levelJustCleared : Z)
| RequestAnimationFrame
| HandlePop (bubble : ref).

(** The component's mutable world: the state ref, the bubble objects, the
    filter ref, the number of [Math.random] draws so far, and the trace of
    events, newest first. *)
Record World := mkWorld {
  gameState : GameState;
  heap : gmap ref BubbleEntity.t;
  oneEuroFilter : OneEuroFilter.filter;
  draws : nat;
  trace : list Event
}.

Definition modify (f : GameState -> GameState) (w : World) : World :=
  mkWorld (f (gameState w)) (heap w) (oneEuroFilter w) (draws w) (trace w).

Definition set_heap (h : gmap ref BubbleEntity.t) (w : World) : World :=
  mkWorld (gameState w) h (oneEuroFilter w) (draws w) (trace w).

Definition set_oneEuroFilter (f : OneEuroFilter.filter) (w : World) : World :=
  mkWorld (gameState w) (heap w) f (draws w) (trace w).

Definition set_draws (n : nat) (w : World) : World :=
  mkWorld (gameState w) (heap w) (oneEuroFilter w) n (trace w).

Definition emit (e : Event) (w : World) : World :=
  mkWorld (gameState w) (heap w) (oneEuroFilter w) (draws w) (e :: trace w).

(** [arr[i]] for a number that holds an integer: [None] is [undefined]. *)
Definition at_index {A} (arr : list A) (i : Z) : option A :=
  if (i <? 0)%Z then None else arr !! Z.to_nat i.

Definition Rltb (a b : R) : bool := if Rlt_dec a b then true else false.

Section Component.

#[local] Open Scope R_scope.

(** The level table, the [mode] prop, the [Math.random] oracle and
    [Number.prototype.toString] with its radix. *)
Variable LEVELS : list LevelDefinition.
Variable mode : GameMode.
Variable random : nat -> R.
Variable toString : R -> Z -> string.

(** [Math.random()] *)
Definition nextRandom (w : World) : R * World :=
  (random (draws w), set_draws (S (draws w)) w).

(** [getStartingScore]; [None] is the TypeError of reading [target] off
    [undefined]. *)
Definition getStartingScore (lvlIndex : Z) : option Z :=
  if decide (mode = INFINITE) then Some 0%Z
  else if (lvlIndex <=? 0)%Z then Some 0%Z
  else target <$> at_index LEVELS (lvlIndex - 1).

Definition startLvlIndex (initialLevel : Z) : Z := Z.max 0 (initialLevel - 1).

(** The initial value of the [gameState] ref. *)
Definition initialGameState (initialLevel : Z) : option GameState :=
  score0 ← getStartingScore (startLvlIndex initialLevel);
  levelScoreStart0 ← getStartingScore (startLvlIndex initialLevel);
  Some {|
    status := PLAYING;
    score := score0;
    lives := if decide (mode = LEVELS_MODE) then 3%Z else 1%Z;
    levelIndex := startLvlIndex initialLevel;
    levelScoreStart := levelScoreStart0;
    lastSpawnTime := 0;
    bubbles := [];
    particles := [];
    inputType := MOUSE;
    fingerPos := Point.mk (-100) (-100);
    lastStablePos := Point.mk (-100) (-100);
    lastHandTime := 0;
    screenShake := 0;
    message := EmptyString;
    messageTimer := 0%Z
  |}.

(** The component right after mounting; [now] is the clock reading taken by
    the filter's constructor. *)
Definition initialWorld (initialLevel : Z) (now : R) : option World :=
  gs ← initialGameState initialLevel;
  Some (mkWorld gs ∅ (OneEuroFilter.new 1.6 0.06 1.0 now) 0 []).

(** [LEVELS[Math.min(levelIndex, LEVELS.length - 1)]] *)
Definition currentLevel (gs : GameState) : option LevelDefinition :=
  at_index LEVELS (Z.min (levelIndex gs) (Z.of_nat (length LEVELS) - 1)).

Definition applyDeadzone (newPos : Point.t) (gs : GameState)
  : GameState * Point.t :=
  if Req_dec_T (Point.x (lastStablePos gs)) (-100) then
    (set_lastStablePos newPos gs, newPos)
  else
    let dx := Point.x newPos - Point.x (lastStablePos gs) in
    let dy := Point.y newPos - Point.y (lastStablePos gs) in
    if Rlt_dec (hypot dx dy) 2.0 then (gs, lastStablePos gs)
    else (set_lastStablePos newPos gs, newPos).

Definition particleColor (type : BubbleType) : string :=
  match type with
  | NORMAL => "rgba(200, 240, 255, 0.8)"
  | BOMB => "rgba(255, 50, 50, 0.8)"
  | RARE => "rgba(255, 215, 0, 0.8)"
  | HEART => "rgba(255, 180, 200, 0.8)"
  end.

(** [createParticles]: each particle takes four draws, in the order angle,
    speed, id, size, and is pushed on the current particle array. *)
Fixpoint createParticles (x y : R) (type : BubbleType) (count : nat)
    (w : World) : World :=
  match count with
  | O => w
  | S count' =>
      let '(r1, w) := nextRandom w in
      let angle := r1 * PI * 2 in
      let '(r2, w) := nextRandom w in
      let speed := r2 * 6 + 2 in
      let color := particleColor type in
      let '(r3, w) := nextRandom w in
      let '(r4, w) := nextRandom w in
      let p := {| Particle.id := toString r3 10;
                  Particle.x := x;
                  Particle.y := y;
                  Particle.vx := cos angle * speed;
                  Particle.vy := sin angle * speed;
                  Particle.life := 1.0;
                  Particle.color := color;
                  Particle.size := r4 * 3 + 1 |} in
      createParticles x y type count'
        (modify (fun gs => set_particles (particles gs ++ [p]) gs) w)
  end.

Definition showMessage (msg : string) (w : World) : World :=
  let w := modify (set_message msg) w in
  let w := modify (set_messageTimer 120%Z) w in
  emit (SetFeedbackMessage msg) w.

(** [showToast]; the deferred [setToastMessage(null)] is only scheduled. *)
Definition showToast (msg : string) (w : World) : World :=
  let w := emit (SetToastMessage (Some msg)) w in
  emit (SetTimeout 1500%Z) w.

Definition restartLevel (w : World) : World :=
  let w := showMessage "Level Failed! Restarting..." w in
  let w := modify (set_screenShake 30) w in
  let w := modify (set_bubbles []) w in
  let w := modify (set_particles []) w in
  let w := modify (set_lives 3%Z) w in
  let w := modify (fun gs => set_score (levelScoreStart gs) gs) w in
  let w := emit (SetLives 3%Z) w in
  emit (SetScore (score (gameState w))) w.

Definition endGame (w : World) : World :=
  let w := modify (set_status GAME_OVER) w in
  emit (OnGameOver (score (gameState w))) w.

Definition popSound (type : BubbleType) : Event :=
  match type with
  | BOMB => PlayBomb
  | RARE => PlayRarePop
  | HEART => PlayHeart
  | NORMAL => PlayPop
  end.

(** The burst of the level-clear branch: five particles for every bubble of
    the current array, read through the store. *)
Fixpoint burstAll (rs : list ref) (w : World) : World :=
  match rs with
  | [] => w
  | r :: rest =>
      let w :=
        match heap w !! r with
        | Some b =>
            createParticles (BubbleEntity.x b) (BubbleEntity.y b)
              (BubbleEntity.type b) 5 w
        | None => w
        end in
      burstAll rest w
  end.

(** The level-mode tail of [handlePop]. *)
Definition levelClearCheck (w : World) : option World :=
  currentLevelConfig ← currentLevel (gameState w);
  if (target currentLevelConfig <=? score (gameState w))%Z then
    let completedLevel := (levelIndex (gameState w) + 1)%Z in
    let w := emit (SaveUnlockedLevelIfHigher completedLevel) w in
    let unlockedLevel := (completedLevel + 1)%Z in
    let w := modify (fun gs => set_levelIndex (levelIndex gs + 1)%Z gs) w in
    let w := modify (fun gs => set_levelScoreStart (score gs) gs) w in
    let nextLevel := (levelIndex (gameState w) + 1)%Z in
    let w := emit (SetLevel nextLevel) w in
    let w := showToast ("Checkpoint: Level " +:+ pretty unlockedLevel
                          +:+ " unlocked") w in
    let w := showMessage ("Level " +:+ pretty nextLevel +:+ "!") w in
    let w := emit PlayHeart w in
    let w := burstAll (bubbles (gameState w)) w in
    Some (modify (set_bubbles []) w)
  else Some w.

(** [handlePop] on the bubble object [r]; [None] is an uncaught TypeError
    (the level table has no entry to read).  A reference always names an
    object, so the first line never fails on a well-formed world. *)
Definition handlePop (r : ref) (w : World) : option World :=
  bubble0 ← heap w !! r;
  let bubble := BubbleEntity.set_isPopped true bubble0 in
  let w := emit (HandlePop r) (set_heap (<[r := bubble]> (heap w)) w) in
  let w := emit (popSound (BubbleEntity.type bubble)) w in
  let w :=
    if decide (BubbleEntity.type bubble = BOMB) then
      let w := modify (set_screenShake 25) w in
      let w := createParticles (BubbleEntity.x bubble) (BubbleEntity.y bubble)
                 BOMB 30 w in
      if decide (mode = INFINITE) then endGame w
      else
        let w := modify (fun gs => set_lives (lives gs - 1)%Z gs) w in
        let w := emit (SetLives (lives (gameState w))) w in
        if (lives (gameState w) <=? 0)%Z then restartLevel w else w
    else
      let points := SCORING (BubbleEntity.type bubble) in
      let w := modify (fun gs => set_score (score gs + points)%Z gs) w in
      let w := createParticles (BubbleEntity.x bubble) (BubbleEntity.y bubble)
                 (BubbleEntity.type bubble) 15 w in
      if decide (BubbleEntity.type bubble = HEART) then
        if (lives (gameState w) <? 3)%Z then
          let w := modify (fun gs => set_lives (lives gs + 1)%Z gs) w in
          emit (SetLives (lives (gameState w))) w
        else w
      else w in
  let w := emit (SetScore (score (gameState w))) w in
  if decide (mode = LEVELS_MODE) then levelClearCheck w else Some w.

(** [spawnBubble]; six draws, in the order x, category, id, radius, speed,
    wobble.  The new object gets a reference not in the store. *)
Definition spawnBubble (stage : R * R) (w : World) : option World :=
  let '(width, height) := stage in
  if Req_dec_T width 0 then Some w
  else if Req_dec_T height 0 then Some w
  else
    currentLevel ← currentLevel (gameState w);
    let difficultyMult :=
      if decide (mode = INFINITE) then 1 + IZR (score (gameState w)) / 2000
      else 1 in
    let baseRadius := width * 0.04 in
    let '(r1, w) := nextRandom w in
    let x := r1 * (width - baseRadius * 3) + baseRadius * 1.5 in
    let '(rand, w) := nextRandom w in
    let bombChance :=
      if decide (mode = INFINITE)
      then Rmin 0.35 (0.05 + IZR (score (gameState w)) / 8000)
      else bombChance currentLevel in
    let type :=
      if Rltb rand bombChance then BOMB
      else if Rltb rand (bombChance + 0.15) then RARE
      else if bool_decide (mode = LEVELS_MODE)
              && (lives (gameState w) <? 3)%Z
              && Rltb 0.97 rand
              && (1 <? levelIndex (gameState w))%Z
           then HEART
           else NORMAL in
    let '(r3, w) := nextRandom w in
    let '(r4, w) := nextRandom w in
    let '(r5, w) := nextRandom w in
    let '(r6, w) := nextRandom w in
    let bubble := {|
      BubbleEntity.id := String.substring 2 9 (toString r3 36);
      BubbleEntity.x := x;
      BubbleEntity.y := height + baseRadius;
      BubbleEntity.radius :=
        baseRadius * (if decide (type = RARE) then 0.8 else 1) * (0.9 + r4 * 0.2);
      BubbleEntity.speed :=
        (GAME_CONFIG.BASE_SPEED * speedMod currentLevel * difficultyMult)
        * (r5 * 0.4 + 0.8);
      BubbleEntity.wobbleOffset := r6 * PI * 2;
      BubbleEntity.type := type;
      BubbleEntity.opacity := 1;
      BubbleEntity.isPopped := false |} in
    let r := fresh (dom (heap w)) in
    let w := set_heap (<[r := bubble]> (heap w)) w in
    Some (modify (fun gs => set_bubbles (bubbles gs ++ [r]) gs) w).

(** The callback of [state.bubbles.forEach] in [gameLoop]. *)
Definition stepBubble (r : ref) (w : World) : option World :=
  b0 ← heap w !! r;
  let b := BubbleEntity.set_y (BubbleEntity.y b0 - BubbleEntity.speed b0) b0 in
  let w := set_heap (<[r := b]> (heap w)) w in
  if negb (BubbleEntity.isPopped b) then
    let dist :=
      hypot (BubbleEntity.x b - Point.x (fingerPos (gameState w)))
            (BubbleEntity.y b - Point.y (fingerPos (gameState w))) in
    let hitRadius := BubbleEntity.radius b * 1.3 in
    if Rlt_dec dist hitRadius then handlePop r w else Some w
  else Some w.

(** [forEach] over the array as it was when the walk began. *)
Fixpoint forEachBubble (rs : list ref) (w : World) : option World :=
  match rs with
  | [] => Some w
  | r :: rest => w' ← stepBubble r w; forEachBubble rest w'
  end.

(** The predicate of [state.bubbles.filter]. *)
Definition keepBubble (h : gmap ref BubbleEntity.t) (r : ref) : bool :=
  match h !! r with
  | Some b =>
      Rltb (-100) (BubbleEntity.y b + BubbleEntity.radius b)
      && negb (BubbleEntity.isPopped b)
  | None => false
  end.

Definition stepParticle (p : Particle.t) : Particle.t :=
  {| Particle.id := Particle.id p;
     Particle.x := Particle.x p + Particle.vx p;
     Particle.y := Particle.y p + Particle.vy p;
     Particle.vx := Particle.vx p;
     Particle.vy := Particle.vy p + GAME_CONFIG.GRAVITY;
     Particle.life := Particle.life p - 0.02;
     Particle.color := Particle.color p;
     Particle.size := Particle.size p |}.

(** The screen-shake block of [gameLoop]: two draws for the offsets, then
    the decay. *)
Definition decayShake (w : World) : World :=
  if Rlt_dec 0 (screenShake (gameState w)) then
    let '(_, w) := nextRandom w in
    let '(_, w) := nextRandom w in
    let w := modify (fun gs => set_screenShake (screenShake gs * 0.9) gs) w in
    if Rlt_dec (screenShake (gameState w)) 0.5
    then modify (set_screenShake 0) w
    else w
  else w.

Definition tickMessage (w : World) : World :=
  if (0 <? messageTimer (gameState w))%Z then
    let w := modify (fun gs => set_messageTimer (messageTimer gs - 1)%Z gs) w in
    if (messageTimer (gameState w) =? 0)%Z
    then emit (SetFeedbackMessage EmptyString) w
    else w
  else w.

(** [gameLoop], without the drawing calls.  [isPaused] is the value the
    closure holds, [canvasReady] says that the canvas and its 2d context
    exist, [stage] is [stageDimensions.current]. *)
Definition gameLoop (isPaused canvasReady : bool) (stage : R * R) (time : R)
    (w : World) : option World :=
  if isPaused then Some (emit RequestAnimationFrame w)
  else if negb (bool_decide (status (gameState w) = PLAYING)) then Some w
  else if negb canvasReady then Some w
  else if Req_dec_T (fst stage) 0 then Some (emit RequestAnimationFrame w)
  else if Req_dec_T (snd stage) 0 then Some (emit RequestAnimationFrame w)
  else
    let w := decayShake w in
    let w := tickMessage w in
    currentLevel ← currentLevel (gameState w);
    let spawnRate := GAME_CONFIG.SPAWN_RATE_MS * spawnMod currentLevel in
    w ← (if Rlt_dec spawnRate (time - lastSpawnTime (gameState w)) then
           w' ← spawnBubble stage w;
           Some (modify (set_lastSpawnTime time) w')
         else Some w);
    w ← forEachBubble (bubbles (gameState w)) w;
    let w :=
      modify (fun gs => set_bubbles (List.filter (keepBubble (heap w)) (bubbles gs)) gs)
        w in
    let w :=
      modify (fun gs => set_particles (stepParticle <$> particles gs) gs) w in
    let w :=
      modify (fun gs =>
        set_particles (List.filter (fun p => Rltb 0 (Particle.life p)) (particles gs)) gs)
        w in
    Some (emit RequestAnimationFrame w).

(** [onHandResults].  [hand] is the index-finger tip and joint (landmarks 8
    and 7) of the first detected hand, [None] without a hand; [now] and
    [now'] are the clock readings of the callback and of the filter;
    [cameraActive] is the value the closure holds. *)
Definition onHandResults (cameraActive : bool) (video : option (R * R))
    (stage : R * R) (hand : option (Point.t * Point.t)) (now now' : R)
    (w : World) : World :=
  match hand with
  | None => w
  | Some (tip, dip) =>
      let w := if negb cameraActive then emit (SetCameraActive true) w else w in
      let w := modify (set_inputType CAMERA) w in
      let w := modify (set_lastHandTime now) w in
      let normX := Point.x tip * 0.85 + Point.x dip * 0.15 in
      let normY := Point.y tip * 0.85 + Point.y dip * 0.15 in
      match mapper.mapLandmarkToStage CAMERA_MIRRORED video stage normX normY with
      | Some mapped =>
          let clamped := mapper.clampToStage mapped (fst stage) (snd stage) 4 in
          let '(f, filtered) :=
            OneEuroFilter.update now' (Point.x clamped) (Point.y clamped)
              (oneEuroFilter w) in
          let w := set_oneEuroFilter f w in
          let '(gs, stable) := applyDeadzone filtered (gameState w) in
          modify (fun _ => set_fingerPos stable gs) w
      | None => w
      end
  end.

(** [handleMouseMove]; [wrapper] is the top-left corner of the wrapper's
    bounding rectangle, [None] without a wrapper. *)
Definition handleMouseMove (wrapper : option Point.t) (client : Point.t)
    (now : R) (w : World) : World :=
  match wrapper with
  | None => w
  | Some rect =>
      if Rlt_dec 500 (now - lastHandTime (gameState w)) then
        let w := modify (set_inputType MOUSE) w in
        modify (set_fingerPos
                  (Point.mk (Point.x client - Point.x rect)
                            (Point.y client - Point.y rect))) w
      else w
  end.

End Component.

(** The bubble objects [handlePop] was entered for, newest first. *)
Definition pops (t : list Event) : list ref :=
  omap (fun e => match e with HandlePop r => Some r | _ => None end) t.

(** The test of the [forEach] callback on the object [r] as the world [w]
    holds it: not popped yet, and, once moved up by its speed, closer to the
    pointer than 1.3 radii. *)
Definition wouldPop (w : World) (r : ref) : bool :=
  match heap w !! r with
  | Some b =>
      negb (BubbleEntity.isPopped b)
      && Rltb (hypot (BubbleEntity.x b - Point.x (fingerPos (gameState w)))
                     (BubbleEntity.y b - BubbleEntity.speed b
                        - Point.y (fingerPos (gameState w))))
              (BubbleEntity.radius b * 1.3)
  | None => false
  end.

(** The bubble array holds each object once, and every reference in it
    names an object. *)
Definition wellFormed (w : World) : Prop :=
  NoDup (bubbles (gameState w)) /\
  forall r, r ∈ bubbles (gameState w) -> is_Some (heap w !! r).

(** The [id] of the object a reference names. *)
Definition bubbleId (w : World) (r : ref) : option string :=
  BubbleEntity.id <$> heap w !! r.

(** The level table has an entry for the session to read. *)
Definition levelsReadable (LEVELS : list LevelDefinition) (w : World) : Prop :=
  LEVELS <> [] /\ (0 <= levelIndex (gameState w))%Z.

(** [w'] comes from [w] by steps that enter no [handlePop], touch no bubble
    object, leave the pointer alone, do not lower the level index, and keep
    the bubble array or replace it by an empty one. *)
Record quiet (w w' : World) : Prop := {
  quiet_heap : heap w' = heap w;
  quiet_finger : fingerPos (gameState w') = fingerPos (gameState w);
  quiet_pops : pops (trace w') = pops (trace w);
  quiet_level : (levelIndex (gameState w) <= levelIndex (gameState w'))%Z;
  quiet_bubbles :
    bubbles (gameState w') = bubbles (gameState w) \/
    bubbles (gameState w') = []
}.

End GameCanvas.

(* ===================================================================== *)
(** ** Worked examples *)
(* ===================================================================== *)

Module samples.

Import GameCanvas.

#[local] Open Scope R_scope.

(** An oracle whose every draw is one half, and a rendering of numbers that
    is never looked at. *)
Definition halves (n : nat) : R := 0.5.
Definition blank (r : R) (radix : Z) : string := EmptyString.

(** A level-mode session on the literal table, started at level 1. *)
Definition freshState : GameState := {|
  status := PLAYING;
  score := 0;
  lives := 3;
  levelIndex := 0;
  levelScoreStart := 0;
  lastSpawnTime := 0;
  bubbles := [];
  particles := [];
  inputType := MOUSE;
  fingerPos := Point.mk (-100) (-100);
  lastStablePos := Point.mk (-100) (-100);
  lastHandTime := 0;
  screenShake := 0;
  message := EmptyString;
  messageTimer := 0
|}.

(** The same session once the pointer has settled at (10, 10). *)
Definition settledState : GameState :=
  set_lastStablePos (Point.mk 10 10) freshState.

(** A hazard, an ordinary and a rare bubble near the point (300, 400). *)
Definition bubbleAt (x y : R) (type : BubbleType) (isPopped : bool)
  : BubbleEntity.t := {|
  BubbleEntity.id := EmptyString;
  BubbleEntity.x := x;
  BubbleEntity.y := y;
  BubbleEntity.radius := 50;
  BubbleEntity.speed := 2;
  BubbleEntity.wobbleOffset := 0;
  BubbleEntity.type := type;
  BubbleEntity.opacity := 1;
  BubbleEntity.isPopped := isPopped
|}.

Definition worldOf (gs : GameState) (objects : list BubbleEntity.t) : World :=
  mkWorld (set_bubbles (seq 0 (length objects)) gs)
    (list_to_map (zip (seq 0 (length objects)) objects))
    (OneEuroFilter.new 1.6 0.06 1.0 0) 0 [].

(** Level 1 with one life left and a hazard on the board. *)
Definition lastLifeWorld : World :=
  worldOf (set_lives 1 freshState) [bubbleAt 300 400 BOMB false].

(** A session resumed at level 7 of the six-level table, that is, after
    every level has been cleared. *)
Definition resumedAt7 : GameState := {|
  status := PLAYING;
  score := 999999;
  lives := 3;
  levelIndex := 6;
  levelScoreStart := 999999;
  lastSpawnTime := 0;
  bubbles := [];
  particles := [];
  inputType := MOUSE;
  fingerPos := Point.mk (-100) (-100);
  lastStablePos := Point.mk (-100) (-100);
  lastHandTime := 0;
  screenShake := 0;
  message := EmptyString;
  messageTimer := 0
|}.

(** That session with three hazards on the board. *)
Definition resumedWorld : World :=
  worldOf resumedAt7
    [bubbleAt 300 400 BOMB false; bubbleAt 500 400 BOMB false;
     bubbleAt 700 400 BOMB false].

(** An endless session with 120 points and a hazard on the board. *)
Definition endlessWorld : World :=
  worldOf (set_lives 1 (set_score 120 freshState))
    [bubbleAt 300 400 BOMB false].

(** The pointer at (300, 400) over an ordinary bubble, a rare bubble, an
    ordinary bubble popped earlier and an ordinary bubble far away. *)
Definition crowdedWorld : World :=
  worldOf (set_fingerPos (Point.mk 300 400) freshState)
    [bubbleAt 300 402 NORMAL false; bubbleAt 310 402 RARE false;
     bubbleAt 300 402 NORMAL true; bubbleAt 900 402 NORMAL false].

(** The filter of the component, seeded at (100, 100). *)
Definition seededFilter : OneEuroFilter.filter :=
  fst (OneEuroFilter.update 16 100 100 (OneEuroFilter.new 1.6 0.06 1.0 0)).

(** The same filter in binary64, and the clock of a steady 16 ms frame
    rate after its seeding call. *)
#[local] Set Warnings "-inexact-float".

Definition seededFilter64 : OneEuroFilter64.filter :=
  fst (OneEuroFilter64.update 16 100 100 (OneEuroFilter64.new 1.6 0.06 1.0 0)).

Definition frames (n : nat) : list float := OneEuroFilter64.ticks 32 16 n.

(** The filter of the component seeded at a point, and the distances from
    [target] of that point and of the outputs of [n] frames on which
    [target] comes in. *)
Definition seededAt64 (p : float * float) : OneEuroFilter64.filter :=
  fst (OneEuroFilter64.update 16 (fst p) (snd p)
         (OneEuroFilter64.new 1.6 0.06 1.0 0)).

Definition approach (start target : float * float) (n : nat) : list float :=
  OneEuroFilter64.offset start (fst target) (snd target)
    :: OneEuroFilter64.gaps (frames n) (fst target) (snd target)
         (seededAt64 start).

(** Forty-five points across a stage of 1280 by 720. *)
Definition stagePoints : list (float * float) :=
  list_prod [0; 160; 320; 480; 640; 800; 960; 1120; 1280]%float
            [0; 180; 360; 540; 720]%float.

(** The state that filter is in after 710 frames of the input (200, 200),
    but for the clock reading [t0] it holds. *)
Definition stalledFilter64 (t0 : float) : OneEuroFilter64.filter :=
  OneEuroFilter64.mk 1.6 0.06 1.0
    (Some 0x1.8fffffffffffep+7%float) (Some 0x1.8fffffffffffep+7%float)
    0x1.f400000000005p-39 0x1.f400000000005p-39 t0.

End samples.

(* ===================================================================== *)
(** ** components/MainMenu.tsx and components/GameOver.tsx: the callers of
       the storage service *)
(* ===================================================================== *)

Module MainMenu.

Import JS storageService.

(** The effect run on mount: the storage afterwards, [continueLevel] and
    [hasCheckpoint].  The payload [cp] is an object, hence truthy. *)
Definition mount (ls : localStorage) : localStorage * (number * bool) :=
  let '(ls1, cp) := loadCheckpoint ls in
  if gt (prop cp "highestUnlockedLevel") (Fin 1)
  then (ls1, (prop cp "highestUnlockedLevel", true))
  else (ls1, (Fin 1, false)).

(** [handleContinue]: the mode and the level handed to [initGame], which
    hands them on to [onStart]. *)
Definition handleContinue (continueLevel : number) : GameMode * number :=
  (LEVELS_MODE, continueLevel).

(** [handleNewGameRequest]: with a checkpoint the confirmation dialog is
    opened and nothing is started ([None]). *)
Definition handleNewGameRequest (hasCheckpoint : bool)
  : option (GameMode * number) :=
  if hasCheckpoint then None else Some (LEVELS_MODE, Fin 1).

(** [confirmRestart]: the storage afterwards, the new [continueLevel] and
    [hasCheckpoint], and what is handed to [initGame]. *)
Definition confirmRestart (ls : localStorage)
  : localStorage * (number * bool) * (GameMode * number) :=
  (clearCheckpoint ls, (Fin 1, false), (LEVELS_MODE, Fin 1)).

End MainMenu.

Module GameOver.

Import JS storageService.

(** The effect of the game-over screen: the storage afterwards,
    [isNewRecord] and [bestScore]. *)
Definition effect (mode : GameMode) (score : Q) (ls : localStorage)
  : localStorage * (bool * number) :=
  let '(ls1, isNew) := saveHighScore mode score ls in
  (ls1, (isNew, getHighScore mode ls1)).

End GameOver.

(* ===================================================================== *)
(** ** constants.ts: the generated level tables *)
(* ===================================================================== *)

(** The two generated level tables of [constants.ts].  The score targets
    are integers and are computed as written.  The three multipliers of a
    level are floating-point values rounded to two or three decimals; they
    are not computed here but taken as given, as functions of the level
    number. *)
Module generated.

Import constants.

Section Multipliers.

Variables speedModOf spawnModOf bombChanceOf : Z -> R.

(** The loop body of the 100-level [generateLevels] *)
Definition target100 (i : Z) : Z :=
  if (i =? 1)%Z then 150%Z
  else if (i =? 2)%Z then 350%Z
  else if (i =? 3)%Z then 600%Z
  else if (i =? 4)%Z then 900%Z
  else if (i =? 5)%Z then 1250%Z
  else if (i <=? 20)%Z then (1250 + (i - 5) * 200)%Z
  else if (i <=? 50)%Z then (4250 + (i - 20) * 300)%Z
  else (13250 + (i - 50) * 400)%Z.

Definition generateLevels100 : list LevelDefinition :=
  (fun i => {| target := target100 i;
               speedMod := speedModOf i;
               spawnMod := spawnModOf i;
               bombChance := bombChanceOf i |}) <$> seqZ 1 100.

(** The 20-level [generateLevels] *)
Definition scoreTargets : list Z :=
  [150; 500; 1200; 2200; 3500; 5200; 7500; 10500; 14000; 18500;
   24000; 30500; 38000; 47000; 57500; 69500; 83000; 98500; 116000;
   150000]%Z.

(** A level whose target would be [undefined] is left out; there is none. *)
Definition generateLevels20 : list LevelDefinition :=
  omap (fun i =>
          target ← GameCanvas.at_index scoreTargets (i - 1);
          Some {| target := target;
                  speedMod := speedModOf i;
                  spawnMod := spawnModOf i;
                  bombChance := bombChanceOf i |}) (seqZ 1 20).

End Multipliers.

End generated.

(* ===================================================================== *)
(** ** Views of the session used in the statements below *)
(* ===================================================================== *)

Module views.

Import GameCanvas.

#[local] Open Scope R_scope.

(** A point lies on the stage, [margin] away from every edge. *)
Definition withinMargin (stage : R * R) (margin : R) (p : Point.t) : Prop :=
  margin <= Point.x p <= fst stage - margin /\
  margin <= Point.y p <= snd stage - margin.

(** The arguments of the calls to [saveUnlockedLevelIfHigher] and to
    [onGameOver] recorded in a trace, newest first. *)
Definition unlocks (t : list Event) : list Z :=
  omap (fun e => match e with
                 | SaveUnlockedLevelIfHigher n => Some n
                 | _ => None
                 end) t.

Definition gameOvers (t : list Event) : list Z :=
  omap (fun e => match e with OnGameOver s => Some s | _ => None end) t.

(** The counters of a session: status, score, lives, level index and
    level-start score, with the calls to the checkpoint service and to
    [onGameOver] made so far. *)
Definition counters (w : World)
  : GameStatus * Z * Z * Z * Z * list Z * list Z :=
  (status (gameState w), score (gameState w), lives (gameState w),
   levelIndex (gameState w), levelScoreStart (gameState w),
   unlocks (trace w), gameOvers (trace w)).

(** The targets of a level table are positive and rise by at least [gap]
    from each level to the next. *)
Definition targetsRise (LEVELS : list constants.LevelDefinition) (gap : Z)
  : Prop :=
  (forall cfg, cfg ∈ LEVELS -> (0 < constants.target cfg)%Z) /\
  (forall i cfg cfg',
     at_index LEVELS i = Some cfg -> at_index LEVELS (i + 1) = Some cfg' ->
     (constants.target cfg + gap <= constants.target cfg')%Z).

(** The second condition, decided on the list of targets. *)
Fixpoint risesBy (gap : Z) (targets : list Z) : bool :=
  match targets with
  | a :: (b :: _) as rest => (a + gap <=? b)%Z && risesBy gap rest
  | _ => true
  end.

(** [b'] is [b] moved up by its speed: everything but [y] and the flag is
    as it was. *)
Definition risen (b b' : BubbleEntity.t) : Prop :=
  BubbleEntity.y b' = (BubbleEntity.y b - BubbleEntity.speed b)%R /\
  BubbleEntity.x b' = BubbleEntity.x b /\
  BubbleEntity.radius b' = BubbleEntity.radius b /\
  BubbleEntity.speed b' = BubbleEntity.speed b /\
  BubbleEntity.type b' = BubbleEntity.type b /\
  BubbleEntity.id b' = BubbleEntity.id b.

(** The score is at or above the level-start score and, while the table
    has an entry for the level index, below the target of that entry. *)
Definition scoreInWindow (LEVELS : list constants.LevelDefinition)
    (gs : GameState) : Prop :=
  (0 <= levelIndex gs)%Z /\
  (levelScoreStart gs <= score gs)%Z /\
  (forall cfg, at_index LEVELS (levelIndex gs) = Some cfg ->
     (score gs < constants.target cfg)%Z).

End views.

(* ===================================================================== *)
(** * Properties *)
(* ===================================================================== *)

Module storageFacts.

Import JS storageService.

Lemma Qfloor_inject_Z (z : Z) : Qfloor (inject_Z z) = z.
Proof. unfold Qfloor, inject_Z. simpl. apply Z.div_1_r. Qed.

Lemma Qlt_bool_iff (a b : Q) : Qlt_bool a b = true <-> (a < b)%Q.
Proof.
  unfold Qlt_bool. rewrite negb_true_iff.
  split.
  - intros H. apply Qnot_le_lt. intros Hle.
    apply Qle_bool_iff in Hle. congruence.
  - intros H. destruct (Qle_bool b a) eqn:E; [|reflexivity].
    apply Qle_bool_iff in E. exfalso. exact (Qlt_not_le _ _ H E).
Qed.

Lemma Qfloor_ge_1 (q : Q) : (1 <= Qfloor q)%Z <-> (1 <= q)%Q.
Proof.
  split.
  - intros H. apply Qle_trans with (inject_Z (Qfloor q)).
    + change 1%Q with (inject_Z 1). rewrite <- Zle_Qle. exact H.
    + apply Qfloor_le.
  - intros H. change 1%Z with (Qfloor 1). apply Qfloor_resp_le. exact H.
Qed.

(** What a load can return: the default, or a stored document whose level
    is a finite number with floor at least one. *)
Lemma loadCheckpoint_cases (ls : localStorage) :
  (loadCheckpoint ls = (ls, defaultCheckpoint) /\
     absent (ls !! LEVEL_CHECKPOINT_KEY) = true) \/
  (loadCheckpoint ls = (delete LEVEL_CHECKPOINT_KEY ls, defaultCheckpoint) /\
     absent (ls !! LEVEL_CHECKPOINT_KEY) = false) \/
  (exists data q,
     ls !! LEVEL_CHECKPOINT_KEY = Some (Document data) /\
     prop data "highestUnlockedLevel" = Fin q /\
     (1 <= Qfloor q)%Z /\
     loadCheckpoint ls = (ls, data)).
Proof.
  unfold loadCheckpoint.
  destruct (ls !! LEVEL_CHECKPOINT_KEY) as [[| |data]|] eqn:E; simpl; auto.
  destruct (prop data "highestUnlockedLevel") as [| | |q] eqn:Ep; simpl; auto.
  unfold Qlt_bool.
  destruct (Qle_bool 1 (inject_Z (Qfloor q))) eqn:Ele; simpl; auto.
  right; right. exists data, q. repeat split; auto.
  apply Qle_bool_iff in Ele. change 1%Q with (inject_Z 1) in Ele.
  now rewrite <- Zle_Qle in Ele.
Qed.

Lemma persistedLevel_finite (ls : localStorage) :
  exists q, persistedLevel ls = Fin q /\ (1 <= Qfloor q)%Z.
Proof.
  unfold persistedLevel.
  destruct (loadCheckpoint_cases ls) as [[-> _]|[[-> _]|(data & q & _ & Hp & Hq & ->)]];
    simpl.
  - exists 1%Q. split; reflexivity || (vm_compute; congruence).
  - exists 1%Q. split; reflexivity || (vm_compute; congruence).
  - exists q. auto.
Qed.

Lemma loadCheckpoint_idem (ls : localStorage) :
  loadCheckpoint (fst (loadCheckpoint ls)) = loadCheckpoint ls.
Proof.
  destruct (loadCheckpoint_cases ls) as [[H _]|[[H _]|(data & q & _ & _ & _ & H)]];
    rewrite H; simpl; try exact H.
  unfold loadCheckpoint. now rewrite lookup_delete_eq.
Qed.

Lemma le_Fin (a b : Q) : le (Fin a) (Fin b) = true <-> (a <= b)%Q.
Proof. simpl. apply Qle_bool_iff. Qed.

Lemma lt_Fin (a b : Q) : lt (Fin a) (Fin b) = true <-> (a < b)%Q.
Proof. simpl. apply Qlt_bool_iff. Qed.

Lemma le_Fin_not_lt (a b : Q) : le (Fin a) (Fin b) = negb (lt (Fin b) (Fin a)).
Proof. simpl. unfold Qlt_bool. now rewrite negb_involutive. Qed.

Lemma truthy_ge_1 (q : Q) : (1 <= Qfloor q)%Z -> truthy (Fin q) = true.
Proof.
  intros H. apply Qfloor_ge_1 in H. simpl.
  destruct (Qeq_bool q 0) eqn:E; [|reflexivity].
  apply Qeq_bool_iff in E. rewrite E in H. now vm_compute in H.
Qed.

Lemma persistedLevel_after_load (ls : localStorage) :
  persistedLevel (fst (loadCheckpoint ls)) = persistedLevel ls.
Proof. unfold persistedLevel. now rewrite loadCheckpoint_idem. Qed.

Lemma prop_makeCheckpointPayload (h now : Q) :
  prop (makeCheckpointPayload h now) "highestUnlockedLevel"
    = Fin (inject_Z (Z.max 1 (Qfloor h))).
Proof. reflexivity. Qed.

(** The payload holds finite numbers only, so it is stored as it is. *)
Lemma stringify_makeCheckpointPayload (h now : Q) :
  JSON_stringify (makeCheckpointPayload h now)
    = Document (makeCheckpointPayload h now).
Proof.
  reflexivity.
Qed.

Lemma persistedLevel_after_write (n : Z) (now : Q) (ls : localStorage) :
  (1 <= n)%Z ->
  persistedLevel
    (<[LEVEL_CHECKPOINT_KEY :=
         JSON_stringify (makeCheckpointPayload (inject_Z n) now)]> ls)
    = Fin (inject_Z n).
Proof.
  intros Hn. unfold persistedLevel, loadCheckpoint.
  rewrite lookup_insert_eq, stringify_makeCheckpointPayload.
  cbn [absent JSON_parse mbind option_bind].
  rewrite prop_makeCheckpointPayload, Qfloor_inject_Z.
  rewrite (Z.max_r 1 n) by exact Hn.
  cbn [floor isFinite negb orb lt]. rewrite Qfloor_inject_Z.
  assert (Hlt : Qlt_bool (inject_Z n) 1 = false).
  { unfold Qlt_bool. apply negb_false_iff, Qle_bool_iff.
    change 1%Q with (inject_Z 1). now rewrite <- Zle_Qle. }
  rewrite Hlt. cbn [snd]. rewrite prop_makeCheckpointPayload, Qfloor_inject_Z.
  now rewrite (Z.max_r 1 n) by exact Hn.
Qed.

(** The two outcomes of one call, in terms of the level a load reports. *)
Lemma saveUnlockedLevelIfHigher_cases (now q : Q) (ls : localStorage) :
  let next := Z.max 1 (Qfloor q + 1) in
  (lt (persistedLevel ls) (Fin (inject_Z next)) = true /\
   saveUnlockedLevelIfHigher now q ls
     = <[LEVEL_CHECKPOINT_KEY :=
           JSON_stringify (makeCheckpointPayload (inject_Z next) now)]>
         (fst (loadCheckpoint ls))) \/
  (lt (persistedLevel ls) (Fin (inject_Z next)) = false /\
   saveUnlockedLevelIfHigher now q ls = fst (loadCheckpoint ls)).
Proof.
  intros next. unfold saveUnlockedLevelIfHigher. fold next.
  destruct (persistedLevel_finite ls) as (p & Hp & Hp1).
  unfold persistedLevel in *.
  destruct (loadCheckpoint ls) as [ls1 cp]. cbn [fst snd] in *.
  rewrite Hp. unfold or. rewrite (truthy_ge_1 p Hp1).
  rewrite le_Fin_not_lt.
  destruct (lt (Fin p) (Fin (inject_Z next))); cbn [negb]; auto.
Qed.

End storageFacts.

Module storageClaims.

Import JS storageService storageFacts.

(** C9.  [loadCheckpoint] on a missing record (no text, or the empty text)
    returns the default payload, whose highest unlocked level is 1, and
    leaves the storage alone.  On a record that does not parse, or whose
    level has a non-finite floor or a floor below 1, it returns the default
    payload and removes the record (nothing is written in its place).  In
    every one of these cases the next load returns the default again. *)
Theorem loadCheckpoint_discards_invalid (ls : localStorage) :
  prop defaultCheckpoint "highestUnlockedLevel" = Fin 1 /\
  (absent (ls !! LEVEL_CHECKPOINT_KEY) = true ->
     loadCheckpoint ls = (ls, defaultCheckpoint)) /\
  (ls !! LEVEL_CHECKPOINT_KEY = Some Corrupt ->
     loadCheckpoint ls = (delete LEVEL_CHECKPOINT_KEY ls, defaultCheckpoint)) /\
  (forall data,
     ls !! LEVEL_CHECKPOINT_KEY = Some (Document data) ->
     isFinite (floor (prop data "highestUnlockedLevel")) = false \/
     lt (floor (prop data "highestUnlockedLevel")) (Fin 1) = true ->
     loadCheckpoint ls = (delete LEVEL_CHECKPOINT_KEY ls, defaultCheckpoint)) /\
  (snd (loadCheckpoint ls) = defaultCheckpoint ->
     loadCheckpoint (fst (loadCheckpoint ls))
       = (fst (loadCheckpoint ls), defaultCheckpoint)) /\
  (absent (ls !! LEVEL_CHECKPOINT_KEY) = false ->
     snd (loadCheckpoint ls) = defaultCheckpoint ->
     fst (loadCheckpoint ls) !! LEVEL_CHECKPOINT_KEY = None \/
     ls !! LEVEL_CHECKPOINT_KEY = Some (Document defaultCheckpoint)).
Proof.
  split; [reflexivity|].
  split; [|split; [|split; [|split]]].
  - intros H. unfold loadCheckpoint. now rewrite H.
  - intros H. unfold loadCheckpoint. now rewrite H.
  - intros data H Hbad. unfold loadCheckpoint. rewrite H. simpl.
    destruct Hbad as [Hb|Hb]; rewrite Hb; simpl; [reflexivity|].
    now rewrite orb_true_r.
  - intros H. rewrite loadCheckpoint_idem.
    destruct (loadCheckpoint ls) as [ls' cp]. simpl in *. now subst.
  - intros Habs Hd.
    destruct (loadCheckpoint_cases ls)
      as [[_ H]|[[H _]|(data & q & Hl & _ & _ & H)]].
    + congruence.
    + left. rewrite H. simpl. apply lookup_delete_eq.
    + right. rewrite H in Hd. simpl in Hd. now subst.
Qed.

Lemma loadCheckpoint_discards_invalid_witness :
  loadCheckpoint emptyStorage = (emptyStorage, defaultCheckpoint) /\
  loadCheckpoint corruptCheckpointStorage = (∅, defaultCheckpoint) /\
  loadCheckpoint subOneStorage = (∅, defaultCheckpoint) /\
  loadCheckpoint noLevelStorage = (∅, defaultCheckpoint) /\
  loadCheckpoint infiniteLevelStorage = (∅, defaultCheckpoint) /\
  loadCheckpoint (fst (loadCheckpoint subOneStorage))
    = (fst (loadCheckpoint subOneStorage), defaultCheckpoint) /\
  fst (loadCheckpoint corruptCheckpointStorage) !! LEVEL_CHECKPOINT_KEY = None /\
  loadCheckpoint arrayCheckpointStorage = (∅, defaultCheckpoint).
Proof.
  pose proof (loadCheckpoint_discards_invalid emptyStorage) as (_ & H1 & _).
  pose proof (loadCheckpoint_discards_invalid corruptCheckpointStorage)
    as (_ & _ & H2 & _ & _ & H2').
  pose proof (loadCheckpoint_discards_invalid subOneStorage)
    as (_ & _ & _ & H3 & H4 & _).
  pose proof (loadCheckpoint_discards_invalid noLevelStorage)
    as (_ & _ & _ & H5 & _).
  pose proof (loadCheckpoint_discards_invalid infiniteLevelStorage)
    as (_ & _ & _ & H6 & _).
  pose proof (loadCheckpoint_discards_invalid arrayCheckpointStorage)
    as (_ & _ & _ & H7 & _).
  split; [|split; [|split; [|split; [|split; [|split; [|split]]]]]].
  - apply H1. reflexivity.
  - apply H2. reflexivity.
  - apply (H3 _ eq_refl). right. reflexivity.
  - apply (H5 _ eq_refl). left. reflexivity.
  - apply (H6 _ eq_refl). left. reflexivity.
  - apply H4. reflexivity.
  - destruct H2' as [H|H]; [reflexivity | reflexivity | exact H | discriminate H].
  - apply (H7 _ eq_refl). left. reflexivity.
Defined.

(** C3 (amended).  Over any run of [saveUnlockedLevelIfHigher] calls with
    finite arguments the level a load reports never decreases.  One call
    writes [max 1 (floor levelJustCleared + 1)], which is
    [max 1 (levelJustCleared + 1)] on integers, exactly when that value
    strictly exceeds the level a load reports, and the load then reports
    that value.  Otherwise nothing is written and the storage is what the
    embedded load leaves: unchanged when the record is missing or valid,
    and without the record when the record was invalid. *)
Theorem saveUnlockedLevelIfHigher_monotone
    (calls : list (Q * Q)) (now q : Q) (ls : localStorage) :
  let next := Z.max 1 (Qfloor q + 1) in
  le (persistedLevel ls) (persistedLevel (saveAll calls ls)) = true /\
  (forall z : Z, Z.max 1 (Qfloor (inject_Z z) + 1) = Z.max 1 (z + 1)) /\
  (lt (persistedLevel ls) (Fin (inject_Z next)) = true ->
     saveUnlockedLevelIfHigher now q ls
       = <[LEVEL_CHECKPOINT_KEY :=
             JSON_stringify (makeCheckpointPayload (inject_Z next) now)]>
           (fst (loadCheckpoint ls)) /\
     persistedLevel (saveUnlockedLevelIfHigher now q ls) = Fin (inject_Z next)) /\
  (lt (persistedLevel ls) (Fin (inject_Z next)) = false ->
     saveUnlockedLevelIfHigher now q ls = fst (loadCheckpoint ls) /\
     persistedLevel (saveUnlockedLevelIfHigher now q ls) = persistedLevel ls /\
     (absent (ls !! LEVEL_CHECKPOINT_KEY) = true ->
        saveUnlockedLevelIfHigher now q ls = ls) /\
     (forall data,
        ls !! LEVEL_CHECKPOINT_KEY = Some (Document data) ->
        isFinite (floor (prop data "highestUnlockedLevel")) = true ->
        lt (floor (prop data "highestUnlockedLevel")) (Fin 1) = false ->
        saveUnlockedLevelIfHigher now q ls = ls) /\
     (ls !! LEVEL_CHECKPOINT_KEY = Some Corrupt ->
        saveUnlockedLevelIfHigher now q ls = delete LEVEL_CHECKPOINT_KEY ls) /\
     (forall data,
        ls !! LEVEL_CHECKPOINT_KEY = Some (Document data) ->
        isFinite (floor (prop data "highestUnlockedLevel")) = false \/
        lt (floor (prop data "highestUnlockedLevel")) (Fin 1) = true ->
        saveUnlockedLevelIfHigher now q ls = delete LEVEL_CHECKPOINT_KEY ls)).
Proof.
  intros next.
  assert (Hstep : forall now q ls,
    le (persistedLevel ls) (persistedLevel (saveUnlockedLevelIfHigher now q ls))
      = true).
  { clear. intros now q ls.
    destruct (persistedLevel_finite ls) as (p & Hp & _).
    destruct (saveUnlockedLevelIfHigher_cases now q ls) as [[Hlt ->]|[_ ->]].
    - rewrite persistedLevel_after_write by lia.
      rewrite Hp in *. apply le_Fin. apply lt_Fin in Hlt.
      now apply Qlt_le_weak.
    - rewrite persistedLevel_after_load, Hp. apply le_Fin, Qle_refl. }
  split; [|split; [|split]].
  - clear now q next. revert ls.
    induction calls as [|[now q] calls IH]; intros ls.
    + unfold saveAll. cbn [foldl].
      destruct (persistedLevel_finite ls) as (p & -> & _).
      apply le_Fin, Qle_refl.
    + unfold saveAll. cbn [foldl fst snd]. specialize (IH (saveUnlockedLevelIfHigher now q ls)).
      unfold saveAll in IH. specialize (Hstep now q ls).
      destruct (persistedLevel_finite ls) as (a & Ha & _).
      destruct (persistedLevel_finite (saveUnlockedLevelIfHigher now q ls))
        as (b & Hb & _).
      destruct (persistedLevel_finite
                  (foldl (fun s c => saveUnlockedLevelIfHigher (fst c) (snd c) s)
                     (saveUnlockedLevelIfHigher now q ls) calls))
        as (c & Hc & _).
      rewrite Ha, Hb in Hstep. rewrite Hb, Hc in IH. rewrite Ha, Hc.
      apply le_Fin. apply le_Fin in Hstep, IH. eapply Qle_trans; eassumption.
  - intros z. now rewrite Qfloor_inject_Z.
  - intros Hlt.
    destruct (saveUnlockedLevelIfHigher_cases now q ls) as [[_ H]|[Hlt' _]];
      [|fold next in Hlt'; congruence].
    fold next in H. split; [exact H|].
    rewrite H. apply persistedLevel_after_write. lia.
  - intros Hlt.
    destruct (saveUnlockedLevelIfHigher_cases now q ls) as [[Hlt' _]|[_ H]];
      [fold next in Hlt'; congruence|].
    split; [exact H|]. split; [|split; [|split; [|split]]]; rewrite H.
    + apply persistedLevel_after_load.
    + intros Ha. unfold loadCheckpoint. now rewrite Ha.
    + intros data Hd Hfin Hge. unfold loadCheckpoint. rewrite Hd.
      cbn [absent mbind option_bind JSON_parse]. now rewrite Hfin, Hge.
    + intros Hc. unfold loadCheckpoint. now rewrite Hc.
    + intros data Hd Hbad. unfold loadCheckpoint. rewrite Hd.
      cbn [absent mbind option_bind JSON_parse].
      destruct Hbad as [Hb|Hb]; rewrite Hb; [reflexivity|].
      now rewrite orb_true_r.
Qed.

Lemma saveUnlockedLevelIfHigher_monotone_witness :
  persistedLevel (saveUnlockedLevelIfHigher 2000 7 level5Storage) = Fin 8 /\
  saveUnlockedLevelIfHigher 2000 2 level5Storage = level5Storage /\
  persistedLevel (saveAll [(2000, 7); (2001, 2); (2002, 0)]%Q level5Storage)
    = Fin 8 /\
  saveUnlockedLevelIfHigher 2000 0 corruptCheckpointStorage = ∅.
Proof.
  pose proof (saveUnlockedLevelIfHigher_monotone [] 2000 7 level5Storage)
    as (_ & _ & Hw & _).
  pose proof (saveUnlockedLevelIfHigher_monotone [] 2000 2 level5Storage)
    as (_ & _ & _ & Hn).
  pose proof (saveUnlockedLevelIfHigher_monotone [] 2000 0
                corruptCheckpointStorage) as (_ & _ & _ & Hc).
  split; [|split; [|split]]; [| | |
    destruct (Hc eq_refl) as (_ & _ & _ & _ & H & _);
    rewrite (H eq_refl); reflexivity].
  - apply Hw. reflexivity.
  - destruct (Hn eq_refl) as (_ & _ & _ & H & _).
    apply (H (makeCheckpointPayload 5 1000)); reflexivity.
  - reflexivity.
Defined.

(** C3 as stated fails on the last clause: with an unparseable record and
    the argument 0 the value [max 1 (0 + 1) = 1] does not exceed the level a
    load reports (1), nothing is written, and yet the stored record is not
    left unchanged: it is removed. *)
Lemma saveUnlockedLevelIfHigher_discards_counterexample :
  Z.max 1 (Qfloor 0 + 1) = 1%Z /\
  persistedLevel corruptCheckpointStorage = Fin 1 /\
  corruptCheckpointStorage !! LEVEL_CHECKPOINT_KEY = Some Corrupt /\
  saveUnlockedLevelIfHigher 0 0 corruptCheckpointStorage
    !! LEVEL_CHECKPOINT_KEY = None /\
  saveUnlockedLevelIfHigher 0 0 corruptCheckpointStorage
    <> corruptCheckpointStorage.
Proof.
  repeat split; try reflexivity.
  intros H.
  assert (E : saveUnlockedLevelIfHigher 0 0 corruptCheckpointStorage
                !! LEVEL_CHECKPOINT_KEY
              = corruptCheckpointStorage !! LEVEL_CHECKPOINT_KEY)
    by now rewrite H.
  vm_compute in E. discriminate E.
Qed.




End storageClaims.

(* ===================================================================== *)
(** ** The pointer pipeline *)
(* ===================================================================== *)

Module pointerFacts.

#[local] Open Scope R_scope.

Lemma hypot_nonneg (a b : R) : 0 <= hypot a b.
Proof. apply sqrt_pos. Qed.

Lemma hypot_scale (k a b : R) : 0 <= k -> hypot (k * a) (k * b) = k * hypot a b.
Proof.
  intros Hk. unfold hypot.
  replace (k * a * (k * a) + k * b * (k * b)) with (k * k * (a * a + b * b))
    by ring.
  rewrite sqrt_mult by nra. now rewrite sqrt_square.
Qed.

Lemma hypot_axis (a : R) : 0 <= a -> hypot a 0 = a.
Proof.
  intros Ha. unfold hypot.
  replace (a * a + 0 * 0) with (a * a) by ring. now apply sqrt_square.
Qed.

Lemma hypot_zero (a b : R) : hypot a b = 0 -> a = 0 /\ b = 0.
Proof.
  unfold hypot. intros H. apply sqrt_eq_0 in H; nra.
Qed.

Lemma alpha_bounds (cutoff dt : R) :
  0 < cutoff -> 0 < dt ->
  0 < OneEuroFilter.alpha cutoff dt < 1.
Proof.
  intros Hc Hd. unfold OneEuroFilter.alpha.
  pose proof PI_RGT_0 as Hpi.
  assert (Htau : 0 < 1.0 / (2 * PI * cutoff)).
  { apply Rdiv_lt_0_compat; nra. }
  assert (Hq : 0 < 1.0 / (2 * PI * cutoff) / dt).
  { now apply Rdiv_lt_0_compat. }
  set (q := 1.0 / (2 * PI * cutoff) / dt) in *.
  split.
  - apply Rdiv_lt_0_compat; lra.
  - apply (Rmult_lt_reg_r (1.0 + q)); [lra|].
    unfold Rdiv. rewrite Rmult_assoc, Rinv_l by lra. lra.
Qed.

(** A larger cutoff and a longer step both raise the coefficient. *)
Lemma alpha_lower (c0 cutoff dt0 dt : R) :
  0 < c0 -> c0 <= cutoff -> 0 < dt0 -> dt0 <= dt ->
  OneEuroFilter.alpha c0 dt0 <= OneEuroFilter.alpha cutoff dt.
Proof.
  intros Hc0 Hc Hd0 Hd. unfold OneEuroFilter.alpha.
  pose proof PI_RGT_0 as Hpi.
  assert (H1 : 0 < 2 * PI * c0 * dt0) by (apply Rmult_lt_0_compat; nra).
  assert (H2 : 2 * PI * c0 * dt0 <= 2 * PI * cutoff * dt).
  { apply Rmult_le_compat; nra. }
  assert (H3 : 0 < 2 * PI * cutoff * dt) by lra.
  assert (E : forall c d, 0 < c -> 0 < d ->
            1.0 / (2 * PI * c) / d = / (2 * PI * c * d)).
  { intros c d Hc' Hd'. replace 1.0 with 1 by lra. field. split; nra. }
  rewrite (E c0 dt0), (E cutoff dt) by lra.
  assert (H4 : / (2 * PI * cutoff * dt) <= / (2 * PI * c0 * dt0)).
  { now apply Rinv_le_contravar. }
  assert (H5 : 0 < / (2 * PI * cutoff * dt)) by now apply Rinv_0_lt_compat.
  replace 1.0 with 1 by lra. unfold Rdiv. rewrite !Rmult_1_l.
  apply Rinv_le_contravar; lra.
Qed.

Lemma lowPass_error (a prev value : R) :
  OneEuroFilter.lowPass a prev value - value = (1 - a) * (prev - value).
Proof. unfold OneEuroFilter.lowPass. ring. Qed.

End pointerFacts.

Module filterFacts.

#[local] Open Scope R_scope.

Import OneEuroFilter pointerFacts.

(** The first branch of [update]: nothing stored yet. *)
Lemma update_unset (now nx ny : R) (f : filter) :
  x f = None \/ y f = None ->
  update now nx ny f
    = (mk (minCutoff f) (beta f) (dCutoff f) (Some nx) (Some ny) (dx f) (dy f) now,
       Point.mk nx ny).
Proof.
  unfold update. intros [H|H]; rewrite H; [reflexivity|].
  now destruct (x f).
Qed.

(** The stored position is the output just returned. *)
Lemma update_stores_output (now nx ny : R) (f : filter) :
  x (fst (update now nx ny f)) = Some (Point.x (snd (update now nx ny f))) /\
  y (fst (update now nx ny f)) = Some (Point.y (snd (update now nx ny f))) /\
  minCutoff (fst (update now nx ny f)) = minCutoff f /\
  beta (fst (update now nx ny f)) = beta f.
Proof.
  unfold update. destruct (x f), (y f); cbn; auto.
Qed.

(** The second branch: both coordinates move towards the input by one
    coefficient, which is at least the one of the base cutoff at the
    shortest step. *)
Lemma update_set (now nx ny fx fy : R) (f : filter) :
  x f = Some fx -> y f = Some fy -> 0 < minCutoff f -> 0 <= beta f ->
  exists a,
    alpha (minCutoff f) 0.001 <= a /\ 0 < a < 1 /\
    snd (update now nx ny f) = Point.mk (lowPass a fx nx) (lowPass a fy ny).
Proof.
  intros Hx Hy Hmc Hb. unfold update. rewrite Hx, Hy.
  set (dt := Rmax 0.001 ((now - t f) / 1000)).
  set (speed := hypot _ _).
  exists (alpha (minCutoff f + beta f * speed) dt).
  assert (Hdt : 0.001 <= dt) by apply Rmax_l.
  assert (Hs : 0 <= speed) by apply hypot_nonneg.
  assert (Hc : minCutoff f <= minCutoff f + beta f * speed) by nra.
  split; [|split].
  - apply alpha_lower; lra.
  - apply alpha_bounds; lra.
  - reflexivity.
Qed.

Lemma offset_after_update (now cx cy fx fy : R) (f : filter) :
  x f = Some fx -> y f = Some fy -> 0 < minCutoff f -> 0 <= beta f ->
  exists a,
    alpha (minCutoff f) 0.001 <= a /\ 0 < a < 1 /\
    offset (fst (update now cx cy f)) cx cy = (1 - a) * offset f cx cy /\
    hypot (Point.x (snd (update now cx cy f)) - cx)
          (Point.y (snd (update now cx cy f)) - cy)
      = (1 - a) * hypot (fx - cx) (fy - cy).
Proof.
  intros Hx Hy Hmc Hb.
  destruct (update_set now cx cy fx fy f Hx Hy Hmc Hb) as (a & Ha0 & Ha & Hout).
  destruct (update_stores_output now cx cy f) as (Hx' & Hy' & _ & _).
  exists a. split; [exact Ha0|]. split; [exact Ha|].
  assert (E : hypot (lowPass a fx cx - cx) (lowPass a fy cy - cy)
              = (1 - a) * hypot (fx - cx) (fy - cy)).
  { rewrite !lowPass_error. apply hypot_scale. lra. }
  unfold offset. rewrite Hx', Hy', Hx, Hy, Hout. cbn [Point.x Point.y].
  split; exact E.
Qed.

(** Geometric decay while an input is held. *)
Lemma hold_decay (clock : list R) (cx cy : R) (f : filter) :
  is_Some (x f) -> is_Some (y f) -> 0 < minCutoff f -> 0 <= beta f ->
  offset (hold clock cx cy f) cx cy
    <= (1 - alpha (minCutoff f) 0.001) ^ length clock * offset f cx cy.
Proof.
  revert f. induction clock as [|now clock IH]; intros f [fx Hx] [fy Hy] Hmc Hb.
  - unfold hold. cbn [foldl length pow]. lra.
  - unfold hold. cbn [foldl length]. fold (hold clock cx cy (fst (update now cx cy f))).
    destruct (offset_after_update now cx cy fx fy f Hx Hy Hmc Hb)
      as (a & Ha0 & Ha & Hoff & _).
    destruct (update_stores_output now cx cy f) as (Hx' & Hy' & Hmc' & Hb').
    specialize (IH (fst (update now cx cy f))).
    rewrite Hmc', Hb', Hoff in IH.
    assert (Hoff0 : 0 <= offset f cx cy).
    { unfold offset. rewrite Hx, Hy. apply hypot_nonneg. }
    assert (Ha1 : 0 < alpha (minCutoff f) 0.001 < 1)
      by (apply alpha_bounds; lra).
    assert (Hp : 0 <= (1 - alpha (minCutoff f) 0.001) ^ length clock)
      by (apply pow_le; lra).
    eapply Rle_trans.
    + apply IH; eauto.
    + cbn [pow].
      set (P := (1 - alpha (minCutoff f) 0.001) ^ length clock) in *.
      assert (HP : 0 <= P * offset f cx cy) by now apply Rmult_le_pos.
      nra.
Qed.

(** The binary64 filter held over one run after another. *)
Lemma hold64_app (clock1 clock2 : list float) (nx ny : float)
    (f : OneEuroFilter64.filter) :
  OneEuroFilter64.hold (clock1 ++ clock2) nx ny f
    = OneEuroFilter64.hold clock2 nx ny (OneEuroFilter64.hold clock1 nx ny f).
Proof. apply foldl_app. Qed.

(** A state that an update gives back stays for as long as the same clock
    reading and input come in. *)
Lemma hold64_fixed (now nx ny : float) (f : OneEuroFilter64.filter) (n : nat) :
  fst (OneEuroFilter64.update now nx ny f) = f ->
  OneEuroFilter64.hold (repeat now n) nx ny f = f.
Proof.
  intros H. induction n as [|n IH]; [reflexivity|].
  cbn [repeat]. unfold OneEuroFilter64.hold in *. cbn [foldl].
  now rewrite H.
Qed.

(** The stalled filter gives itself back, with the new clock reading, on
    the input (200, 200) at any reading 16 ms after the one it holds. *)
Lemma update64_stalled (t0 now : float) :
  (now - t0)%float = 16%float ->
  OneEuroFilter64.update now 200 200 (samples.stalledFilter64 t0)
    = (samples.stalledFilter64 now,
       (0x1.8fffffffffffep+7, 0x1.8fffffffffffep+7)%float).
Proof.
  intros H. unfold OneEuroFilter64.update, samples.stalledFilter64.
  cbn [OneEuroFilter64.t OneEuroFilter64.x OneEuroFilter64.y
       OneEuroFilter64.dx OneEuroFilter64.dy OneEuroFilter64.minCutoff
       OneEuroFilter64.beta OneEuroFilter64.dCutoff].
  rewrite H. vm_compute. reflexivity.
Qed.

Lemma hold64_stalled (clock : list float) (t0 : float) :
  OneEuroFilter64.paced 16 t0 clock ->
  OneEuroFilter64.position
    (OneEuroFilter64.hold clock 200 200 (samples.stalledFilter64 t0))
    = Some (0x1.8fffffffffffep+7, 0x1.8fffffffffffep+7)%float.
Proof.
  revert t0. induction clock as [|now rest IH]; intros t0 H.
  - reflexivity.
  - destruct H as [H1 H2]. unfold OneEuroFilter64.hold in *. cbn [foldl].
    rewrite (update64_stalled t0 now H1). cbn [fst]. now apply IH.
Qed.

End filterFacts.

Module pointerClaims.

#[local] Open Scope R_scope.
#[local] Set Warnings "-inexact-float".

Import OneEuroFilter pointerFacts filterFacts.

(** C5 (amended).  The first [update] of a filter returns the raw pair and
    stores it, in exact arithmetic and in binary64 alike.  In exact
    arithmetic the coefficient [alpha] lies strictly between 0 and 1 for
    positive cutoff and step; once a position is stored, and with a positive
    base cutoff and non-negative beta, an update with the input (cx, cy)
    leaves the output strictly closer to (cx, cy) than the previous output
    was, unless that one was already at (cx, cy), in which case the output
    stays there; held over more and more clock readings, whatever they are,
    the output comes within any positive distance of the input.  In
    binary64 the approach is strict as long as the steps exceed the
    rounding: the filter of the component, seeded at (100, 100) and fed
    (200, 200) every 16 ms, gets strictly closer on each of the first 41
    updates and is then less than 1e-13 away.  From and to each of
    forty-five points across a stage of 1280 by 720, at that frame rate,
    the output never moves away from the input and is less than 1e-12 away
    after 200 updates. *)
Theorem filter_constant_input :
  (forall minCutoff beta dCutoff t0 now nx ny,
     update now nx ny (new minCutoff beta dCutoff t0)
       = (mk minCutoff beta dCutoff (Some nx) (Some ny) 0 0 now,
          Point.mk nx ny)) /\
  (forall cutoff dt, 0 < cutoff -> 0 < dt -> 0 < alpha cutoff dt < 1) /\
  (forall f fx fy now cx cy,
     x f = Some fx -> y f = Some fy -> 0 < minCutoff f -> 0 <= beta f ->
     let out := snd (update now cx cy f) in
     let before := hypot (fx - cx) (fy - cy) in
     let after := hypot (Point.x out - cx) (Point.y out - cy) in
     x (fst (update now cx cy f)) = Some (Point.x out) /\
     y (fst (update now cx cy f)) = Some (Point.y out) /\
     (before = 0 -> after = 0) /\
     (before <> 0 -> after < before)) /\
  (forall f cx cy,
     is_Some (x f) -> is_Some (y f) -> 0 < minCutoff f -> 0 <= beta f ->
     forall eps, 0 < eps ->
     exists N, forall clock, (N <= length clock)%nat ->
       offset (hold clock cx cy f) cx cy < eps) /\
  (forall minCutoff beta dCutoff t0 now nx ny,
     OneEuroFilter64.update now nx ny
       (OneEuroFilter64.new minCutoff beta dCutoff t0)
       = (OneEuroFilter64.mk minCutoff beta dCutoff (Some nx) (Some ny)
            0%float 0%float now,
          (nx, ny))) /\
  OneEuroFilter64.descending
    (OneEuroFilter64.offset (100, 100)%float 200%float 200%float
       :: OneEuroFilter64.gaps (samples.frames 41) 200%float 200%float
            samples.seededFilter64) = true /\
  OneEuroFilter64.endsBelow 1e-13
    (OneEuroFilter64.gaps (samples.frames 41) 200%float 200%float
       samples.seededFilter64) = true /\
  forallb
    (fun start =>
       forallb
         (fun target =>
            OneEuroFilter64.nonincreasing (samples.approach start target 200)
            && OneEuroFilter64.endsBelow 1e-12
                 (samples.approach start target 200))
         samples.stagePoints)
    samples.stagePoints = true.
Proof.
  split; [|split; [|split; [|split; [|split]]]].
  - intros. apply update_unset. now left.
  - exact alpha_bounds.
  - intros f fx fy now cx cy Hx Hy Hmc Hb out before after.
    destruct (offset_after_update now cx cy fx fy f Hx Hy Hmc Hb)
      as (a & _ & Ha & _ & Hd).
    destruct (update_stores_output now cx cy f) as (Hx' & Hy' & _).
    fold out in Hd, Hx', Hy'. fold before after in Hd.
    assert (Hb0 : 0 <= before) by apply hypot_nonneg.
    repeat split; try assumption.
    + intros E. rewrite Hd, E. ring.
    + intros E. rewrite Hd. nra.
  - intros f cx cy Hx Hy Hmc Hb eps Heps.
    set (rho := 1 - alpha (minCutoff f) 0.001).
    assert (Ha : 0 < alpha (minCutoff f) 0.001 < 1)
      by (apply alpha_bounds; lra).
    assert (Hoff : 0 <= offset f cx cy).
    { unfold offset. destruct (x f), (y f); try lra. apply hypot_nonneg. }
    destruct (pow_lt_1_zero rho) with (y := eps / (offset f cx cy + 1))
      as [N HN].
    { unfold rho. rewrite Rabs_pos_eq; lra. }
    { apply Rdiv_lt_0_compat; lra. }
    exists N. intros clock Hlen.
    eapply Rle_lt_trans; [now apply hold_decay|]. fold rho.
    specialize (HN (length clock) Hlen).
    rewrite Rabs_pos_eq in HN by (apply pow_le; unfold rho; lra).
    assert (Hp : 0 <= rho ^ length clock) by (apply pow_le; unfold rho; lra).
    apply (Rmult_lt_compat_r (offset f cx cy + 1)) in HN; [|lra].
    unfold Rdiv in HN. rewrite Rmult_assoc, Rinv_l, Rmult_1_r in HN by lra.
    nra.
  - reflexivity.
  - repeat split; vm_compute; reflexivity.
Qed.

Lemma filter_constant_input_witness :
  0 < alpha 1.6 0.016 < 1 /\
  hypot (Point.x (snd (update 32 200 200 samples.seededFilter)) - 200)
        (Point.y (snd (update 32 200 200 samples.seededFilter)) - 200)
    < hypot (100 - 200) (100 - 200) /\
  (exists N, forall clock, (N <= length clock)%nat ->
     offset (hold clock 200 200 samples.seededFilter) 200 200 < 1) /\
  last (OneEuroFilter64.gaps (samples.frames 41) 200%float 200%float
          samples.seededFilter64) = Some 0x1.6a09e667f3bcdp-44%float /\
  OneEuroFilter64.endsBelow 1e-13
    (OneEuroFilter64.gaps (samples.frames 41) 200%float 200%float
       samples.seededFilter64) = true.
Proof.
  destruct filter_constant_input
    as (_ & Halpha & Hstep & Hconv & _ & _ & Hrun & _).
  split; [|split; [|split; [|split]]].
  - apply Halpha; lra.
  - apply (Hstep samples.seededFilter 100 100 32 200 200);
      try reflexivity; cbn; try lra.
    intros E. apply hypot_zero in E. lra.
  - apply Hconv; cbn; try lra; eauto.
  - vm_compute. reflexivity.
  - exact Hrun.
Defined.

(** C5 as stated fails in the arithmetic of the program.  On the run of the
    filter of the component seeded at (100, 100) and fed (200, 200) every
    16 ms, the output after 41 updates is 199.99999999999994, which is not
    the input, and the next update, with the same input, returns the same
    output: the distance is not zero and does not decrease.  The output is
    the same after each of the next 1959 updates; after 710 updates the
    whole state repeats, and the output stays where it is for every further
    run of readings 16 ms apart, so it does not converge to the input.  With
    a clock that stands still the output after 10216 updates is
    199.99999999999997 and stays there for good.  Nor is [alpha] strictly
    between 0 and 1 for every positive cutoff and step: it rounds to 1 for
    the cutoff 1e18 and to 0 for the cutoff 1e-310. *)
Lemma filter_stalls_counterexample :
  OneEuroFilter64.position
    (OneEuroFilter64.hold (samples.frames 41) 200 200 samples.seededFilter64)
    = Some (0x1.8fffffffffffep+7, 0x1.8fffffffffffep+7)%float /\
  (0x1.8fffffffffffep+7 <? 200)%float = true /\
  snd (OneEuroFilter64.update 688 200 200
         (OneEuroFilter64.hold (samples.frames 41) 200 200
            samples.seededFilter64))
    = (0x1.8fffffffffffep+7, 0x1.8fffffffffffep+7)%float /\
  forallb (OneEuroFilter64.rests 0x1.8fffffffffffep+7)
    (drop 40 (OneEuroFilter64.trail (samples.frames 2000) 200 200
                samples.seededFilter64)) = true /\
  OneEuroFilter64.hold (samples.frames 710) 200 200 samples.seededFilter64
    = samples.stalledFilter64 11376 /\
  (forall clock,
     OneEuroFilter64.paced 16 11376 clock ->
     OneEuroFilter64.position
       (OneEuroFilter64.hold (samples.frames 710 ++ clock) 200 200
          samples.seededFilter64)
     = Some (0x1.8fffffffffffep+7, 0x1.8fffffffffffep+7)%float) /\
  OneEuroFilter64.paced 16 11376 [11392; 11408; 11424]%float /\
  (forall n,
     OneEuroFilter64.position
       (OneEuroFilter64.hold (repeat 16%float (Z.to_nat 10216 + n)) 200 200
          samples.seededFilter64)
     = Some (0x1.8ffffffffffffp+7, 0x1.8ffffffffffffp+7)%float) /\
  (0x1.8ffffffffffffp+7 <? 200)%float = true /\
  (0 <? 1e18)%float = true /\
  OneEuroFilter64.alpha 1e18 1 = 1%float /\
  (0 <? 1e-310)%float = true /\
  OneEuroFilter64.alpha 1e-310 1 = 0%float.
Proof.
  assert (E710 : OneEuroFilter64.hold (samples.frames 710) 200 200
                   samples.seededFilter64
                 = samples.stalledFilter64 11376)
    by (vm_compute; reflexivity).
  split; [vm_compute; reflexivity|].
  split; [vm_compute; reflexivity|].
  split; [vm_compute; reflexivity|].
  split; [vm_compute; reflexivity|].
  split; [exact E710|].
  split.
  { intros clock Hc. rewrite hold64_app, E710. now apply hold64_stalled. }
  split; [vm_compute; auto|].
  split; [|repeat split; vm_compute; reflexivity].
  intros n. rewrite repeat_app, hold64_app.
  assert (E : OneEuroFilter64.hold (repeat 16%float (Z.to_nat 10216)) 200 200
                samples.seededFilter64
              = OneEuroFilter64.mk 1.6 0.06 1
                  (Some 0x1.8ffffffffffffp+7%float)
                  (Some 0x1.8ffffffffffffp+7%float)
                  0x1.f400000000050p-36 0x1.f400000000050p-36 16)
    by (vm_compute; reflexivity).
  rewrite E. rewrite hold64_fixed; [reflexivity|].
  vm_compute. reflexivity.
Qed.

Import mapper.

(** The cover scale is the larger of the two side ratios. *)
Lemma coverScale_max (vw vh stageW stageH : R) :
  0 < vw -> 0 < vh -> 0 < stageW -> 0 < stageH ->
  coverScale vw vh stageW stageH = Rmax (stageW / vw) (stageH / vh).
Proof.
  intros Hvw Hvh Hsw Hsh. unfold coverScale, getCoverRect.
  assert (E : stageH * (vw / vh) / vw = stageH / vh) by (field; lra).
  assert (Hcmp : vw / vh > stageW / stageH <-> stageH / vh > stageW / vw).
  { assert (A : vw / vh - stageW / stageH
                = (vw * stageH - stageW * vh) / (vh * stageH)) by (field; lra).
    assert (B : stageH / vh - stageW / vw
                = (vw * stageH - stageW * vh) / (vh * vw)) by (field; lra).
    assert (P1 : 0 < / (vh * stageH)) by (apply Rinv_0_lt_compat; nra).
    assert (P2 : 0 < / (vh * vw)) by (apply Rinv_0_lt_compat; nra).
    unfold Rdiv in A, B. split; intros H; nra. }
  destruct (Rgt_dec (vw / vh) (stageW / stageH)) as [H|H]; cbn [drawW].
  - rewrite E. apply Hcmp in H. rewrite Rmax_right; lra.
  - rewrite Rmax_left; [reflexivity|].
    destruct (Rle_or_lt (stageH / vh) (stageW / vw)) as [L|L]; [exact L|].
    exfalso. apply H, Hcmp. lra.
Qed.

(** C4 (amended).  For a 640x480 source and a 1280x720 surface the cover
    scale is the surface width over the source width, 2, the larger of the
    two side ratios, and the normalized point (0.5, 0.5) maps to the centre
    (640, 360) of the surface with and without mirroring. *)
Theorem cover_640x480_onto_1280x720 :
  coverScale 640 480 1280 720 = 1280 / 640 /\
  coverScale 640 480 1280 720 = Rmax (1280 / 640) (720 / 480) /\
  coverScale 640 480 1280 720 = 2 /\
  forall mirrored,
    mapLandmarkToStage mirrored (Some (640, 480)) (1280, 720) 0.5 0.5
      = Some (Point.mk (1280 / 2) (720 / 2)).
Proof.
  assert (Hs : coverScale 640 480 1280 720 = 2).
  { rewrite coverScale_max by lra. rewrite Rmax_left; lra. }
  split; [rewrite Hs; lra|]. split; [apply coverScale_max; lra|].
  split; [exact Hs|].
  intros mirrored. unfold mapLandmarkToStage.
  destruct (Req_dec_T 640 0) as [E|_]; [lra|].
  destruct (Req_dec_T 480 0) as [E|_]; [lra|].
  destruct (Req_dec_T 1280 0) as [E|_]; [lra|].
  destruct (Req_dec_T 720 0) as [E|_]; [lra|].
  rewrite Hs. unfold getCoverRect.
  destruct (Rgt_dec (640 / 480) (1280 / 720)) as [H|_]; [lra|].
  cbn [offsetX offsetY]. f_equal.
  destruct mirrored; f_equal; lra.
Qed.

(** C4 as stated fails: the cover scale of this pair of sizes is not the
    surface height over the source height. *)
Lemma cover_scale_not_height_ratio :
  coverScale 640 480 1280 720 <> 720 / 480.
Proof.
  rewrite coverScale_max by lra. rewrite Rmax_left; lra.
Qed.

Import GameCanvas.

(** C6.  With a prior stable point (the stored x is not the sentinel -100),
    [applyDeadzone] returns the stored point and changes nothing when the
    new point is less than 2.0 away, in particular when it is 1.0 away, and
    adopts and returns the new point otherwise, in particular when it is
    3.0 away.  Without a prior stable point, as in every freshly started
    session, it adopts the new point. *)
Theorem applyDeadzone_threshold (newPos : Point.t) (gs : GameState) :
  let stable := lastStablePos gs in
  let d := hypot (Point.x newPos - Point.x stable)
                 (Point.y newPos - Point.y stable) in
  (Point.x stable = -100 ->
     applyDeadzone newPos gs = (set_lastStablePos newPos gs, newPos)) /\
  (Point.x stable <> -100 -> d < 2 ->
     applyDeadzone newPos gs = (gs, stable)) /\
  (Point.x stable <> -100 -> d = 1 ->
     applyDeadzone newPos gs = (gs, stable)) /\
  (Point.x stable <> -100 -> ~ d < 2 ->
     applyDeadzone newPos gs = (set_lastStablePos newPos gs, newPos)) /\
  (Point.x stable <> -100 -> d = 3 ->
     applyDeadzone newPos gs = (set_lastStablePos newPos gs, newPos)) /\
  (forall LEVELS mode initialLevel gs0,
     initialGameState LEVELS mode initialLevel = Some gs0 ->
     applyDeadzone newPos gs0 = (set_lastStablePos newPos gs0, newPos)).
Proof.
  intros stable d.
  assert (Hnear : Point.x stable <> -100 -> d < 2 ->
                  applyDeadzone newPos gs = (gs, stable)).
  { intros Hs Hd. unfold applyDeadzone. fold stable.
    destruct (Req_dec_T (Point.x stable) (-100)) as [E|_]; [contradiction|].
    fold d. destruct (Rlt_dec d 2.0) as [_|N]; [reflexivity|].
    exfalso. apply N. lra. }
  assert (Hfar : Point.x stable <> -100 -> ~ d < 2 ->
                 applyDeadzone newPos gs = (set_lastStablePos newPos gs, newPos)).
  { intros Hs Hd. unfold applyDeadzone. fold stable.
    destruct (Req_dec_T (Point.x stable) (-100)) as [E|_]; [contradiction|].
    fold d. destruct (Rlt_dec d 2.0) as [L|_]; [|reflexivity].
    exfalso. apply Hd. lra. }
  repeat split.
  - intros E. unfold applyDeadzone. fold stable.
    destruct (Req_dec_T (Point.x stable) (-100)); [reflexivity|contradiction].
  - exact Hnear.
  - intros Hs Hd. apply Hnear; [exact Hs|lra].
  - exact Hfar.
  - intros Hs Hd. apply Hfar; [exact Hs|lra].
  - intros LEVELS mode initialLevel gs0 Hinit.
    unfold initialGameState in Hinit.
    destruct (getStartingScore LEVELS mode (startLvlIndex initialLevel))
      as [s0|]; [|discriminate Hinit].
    cbn in Hinit. injection Hinit as <-.
    unfold applyDeadzone. cbn [lastStablePos Point.x].
    destruct (Req_dec_T (-100) (-100)); [reflexivity|contradiction].
Qed.

Lemma applyDeadzone_threshold_witness :
  applyDeadzone (Point.mk 11 10) samples.settledState
    = (samples.settledState, Point.mk 10 10) /\
  applyDeadzone (Point.mk 13 10) samples.settledState
    = (set_lastStablePos (Point.mk 13 10) samples.settledState, Point.mk 13 10) /\
  applyDeadzone (Point.mk 11 10) samples.freshState
    = (set_lastStablePos (Point.mk 11 10) samples.freshState, Point.mk 11 10).
Proof.
  pose proof (applyDeadzone_threshold (Point.mk 11 10) samples.settledState)
    as (_ & _ & Hnear & _).
  pose proof (applyDeadzone_threshold (Point.mk 13 10) samples.settledState)
    as (_ & _ & _ & _ & Hfar & _).
  pose proof (applyDeadzone_threshold (Point.mk 11 10) samples.freshState)
    as (Hfirst & _).
  split; [|split].
  - apply Hnear; cbn; [lra|].
    replace (11 - 10) with 1 by lra. replace (10 - 10) with 0 by lra.
    apply hypot_axis. lra.
  - apply Hfar; cbn; [lra|].
    replace (13 - 10) with 3 by lra. replace (10 - 10) with 0 by lra.
    apply hypot_axis. lra.
  - apply Hfirst. reflexivity.
Defined.

End pointerClaims.

(* ===================================================================== *)
(** ** The simulation *)
(* ===================================================================== *)

Module gameFacts.

Import constants GameCanvas.

Section Facts.

Context (LEVELS : list LevelDefinition) (mode : GameMode)
        (random : nat -> R) (toString : R -> Z -> string).

Lemma createParticles_shape (n : nat) (x y : R) (t : BubbleType) (w : World) :
  exists ps, length ps = n /\
    createParticles random toString x y t n w
      = mkWorld (set_particles (particles (gameState w) ++ ps) (gameState w))
          (heap w) (oneEuroFilter w) (draws w + 4 * n) (trace w).
Proof.
  revert w. induction n as [|n IH]; intros w.
  - exists []. split; [reflexivity|]. cbn [createParticles].
    rewrite app_nil_r, Nat.mul_0_r, Nat.add_0_r. now destruct w as [[] ? ? ? ?].
  - cbn [createParticles nextRandom].
    match goal with |- context [createParticles _ _ _ _ _ _ ?w'] =>
      destruct (IH w') as (ps & Hlen & ->) end.
    eexists (_ :: ps). split; [cbn; now rewrite Hlen|].
    cbn. rewrite <- app_assoc. cbn. f_equal. lia.
Qed.

Lemma pops_cons (e : Event) (t : list Event) :
  pops (e :: t)
    = match e with HandlePop r => r :: pops t | _ => pops t end.
Proof. now destruct e. Qed.

Lemma quiet_refl (w : World) : quiet w w.
Proof. split; reflexivity || lia || (left; reflexivity). Qed.

Lemma quiet_trans (w1 w2 w3 : World) : quiet w1 w2 -> quiet w2 w3 -> quiet w1 w3.
Proof.
  intros [? ? ? ? B1] [? ? ? ? B2]. split; try congruence; [lia|].
  destruct B2 as [B2|B2]; [|now right].
  rewrite B2. exact B1.
Qed.

Lemma quiet_emit (e : Event) (w0 w : World) :
  (forall r, e <> HandlePop r) -> quiet w0 w -> quiet w0 (emit e w).
Proof.
  intros He []. split; try assumption.
  cbn [emit trace pops omap]. destruct e; try assumption.
  now destruct (He bubble).
Qed.

Lemma quiet_modify (f : GameState -> GameState) (w0 w : World) :
  (forall gs, fingerPos (f gs) = fingerPos gs /\
              (levelIndex gs <= levelIndex (f gs))%Z /\
              (bubbles (f gs) = bubbles gs \/ bubbles (f gs) = [])) ->
  quiet w0 w -> quiet w0 (modify f w).
Proof.
  intros Hf [? ? ? ? B]. destruct (Hf (gameState w)) as (Hp & Hl & Hb).
  split; cbn [modify heap gameState trace]; try assumption; try congruence;
    [lia|].
  destruct Hb as [Hb|Hb]; [|now right].
  rewrite Hb. exact B.
Qed.

Lemma quiet_createParticles (n : nat) (x y : R) (t : BubbleType) (w0 w : World) :
  quiet w0 w -> quiet w0 (createParticles random toString x y t n w).
Proof.
  intros []. destruct (createParticles_shape n x y t w) as (ps & _ & ->).
  split; assumption.
Qed.

Ltac quiet_step :=
  first
    [ apply quiet_createParticles
    | apply quiet_emit; [intros ?; discriminate|]
    | apply quiet_modify;
      [intros ?; cbn; repeat split;
       first [reflexivity | lia | left; reflexivity | right; reflexivity]|] ].

Lemma quiet_showMessage (msg : string) (w0 w : World) :
  quiet w0 w -> quiet w0 (showMessage msg w).
Proof. intros H. unfold showMessage. now repeat quiet_step. Qed.

Lemma quiet_showToast (msg : string) (w0 w : World) :
  quiet w0 w -> quiet w0 (showToast msg w).
Proof. intros H. unfold showToast. now repeat quiet_step. Qed.

Lemma quiet_restartLevel (w0 w : World) :
  quiet w0 w -> quiet w0 (restartLevel w).
Proof.
  intros H. unfold restartLevel. now repeat quiet_step.
Qed.

Lemma quiet_endGame (w0 w : World) : quiet w0 w -> quiet w0 (endGame w).
Proof. intros H. unfold endGame. now repeat quiet_step. Qed.

Lemma quiet_burstAll (rs : list ref) (w0 w : World) :
  quiet w0 w -> quiet w0 (burstAll random toString rs w).
Proof.
  revert w. induction rs as [|r rs IH]; intros w H; cbn [burstAll]; [exact H|].
  apply IH. destruct (heap w !! r); [now apply quiet_createParticles|exact H].
Qed.

Lemma currentLevel_readable (gs : GameState) :
  LEVELS <> [] -> (0 <= levelIndex gs)%Z -> is_Some (currentLevel LEVELS gs).
Proof.
  intros Hne Hl. unfold currentLevel, at_index.
  assert (Hlen : (0 < length LEVELS)%nat) by (destruct LEVELS; [congruence|cbn; lia]).
  destruct (Z.ltb_spec (Z.min (levelIndex gs) (Z.of_nat (length LEVELS) - 1)) 0);
    [lia|].
  apply lookup_lt_is_Some. lia.
Qed.

Lemma levelClearCheck_quiet (w0 w : World) :
  levelsReadable LEVELS w -> quiet w0 w ->
  exists w', levelClearCheck LEVELS random toString w = Some w' /\ quiet w0 w'.
Proof.
  intros [Hne Hl] H. unfold levelClearCheck.
  destruct (currentLevel_readable (gameState w) Hne Hl) as [cfg ->].
  cbn [mbind option_bind].
  destruct (target cfg <=? score (gameState w))%Z; [|eauto].
  eexists. split; [reflexivity|].
  now repeat first [quiet_step | apply quiet_burstAll].
Qed.

(** One run of [handlePop]: the object is flagged, the entry is recorded
    once, and nothing else of what the walk depends on changes. *)
Lemma handlePop_effect (r : ref) (b : BubbleEntity.t) (w : World) :
  heap w !! r = Some b -> levelsReadable LEVELS w ->
  exists w',
    handlePop LEVELS mode random toString r w = Some w' /\
    heap w' = <[r := BubbleEntity.set_isPopped true b]> (heap w) /\
    pops (trace w') = r :: pops (trace w) /\
    fingerPos (gameState w') = fingerPos (gameState w) /\
    levelsReadable LEVELS w' /\
    (bubbles (gameState w') = bubbles (gameState w) \/
     bubbles (gameState w') = []).
Proof.
  intros Hb [Hne Hl]. unfold handlePop. rewrite Hb. cbn [mbind option_bind].
  set (w1 := emit (HandlePop r)
               (set_heap (<[r := BubbleEntity.set_isPopped true b]> (heap w)) w)).
  match goal with
  | |- exists w', (if _ then levelClearCheck _ _ _ ?w2 else Some ?w2) = _ /\ _ =>
      assert (Hq : quiet w1 w2); [|set (wq := w2) in *]
  end.
  { repeat first
      [ quiet_step
      | apply quiet_emit; [intros ?; destruct (BubbleEntity.type _); discriminate|]
      | apply quiet_restartLevel
      | apply quiet_endGame
      | apply quiet_refl
      | match goal with |- quiet _ (if ?c then _ else _) => destruct c end ]. }
  assert (Hr : levelsReadable LEVELS wq).
  { split; [exact Hne|]. destruct Hq as [_ _ _ Hlv].
    change (levelIndex (gameState w1)) with (levelIndex (gameState w)) in Hlv.
    lia. }
  destruct (decide (mode = LEVELS_MODE)).
  - destruct (levelClearCheck_quiet w1 wq Hr Hq) as (w' & -> & Hq').
    exists w'. split; [reflexivity|]. destruct Hq' as [Hh Hf Hp Hlv Hbs].
    split; [exact Hh|]. split; [exact Hp|]. split; [exact Hf|].
    split; [|exact Hbs]. split; [exact Hne|].
    change (levelIndex (gameState w1)) with (levelIndex (gameState w)) in Hlv.
    lia.
  - exists wq. split; [reflexivity|]. destruct Hq as [Hh Hf Hp Hlv Hbs].
    split; [exact Hh|]. split; [exact Hp|]. split; [exact Hf|].
    split; [exact Hr|exact Hbs].
Qed.

Lemma wouldPop_agree (w w' : World) (r : ref) :
  heap w' !! r = heap w !! r ->
  fingerPos (gameState w') = fingerPos (gameState w) ->
  wouldPop w' r = wouldPop w r.
Proof. intros Hh Hf. unfold wouldPop. now rewrite Hh, Hf. Qed.

(** One callback of the walk. *)
Lemma stepBubble_effect (r : ref) (b : BubbleEntity.t) (w : World) :
  heap w !! r = Some b -> levelsReadable LEVELS w ->
  exists w',
    stepBubble LEVELS mode random toString r w = Some w' /\
    (forall r', r' <> r -> heap w' !! r' = heap w !! r') /\
    pops (trace w') = (if wouldPop w r then [r] else []) ++ pops (trace w) /\
    fingerPos (gameState w') = fingerPos (gameState w) /\
    levelsReadable LEVELS w' /\
    is_Some (heap w' !! r) /\
    (bubbles (gameState w') = bubbles (gameState w) \/
     bubbles (gameState w') = []).
Proof.
  intros Hb Hr. unfold stepBubble, wouldPop. rewrite Hb.
  cbn [mbind option_bind BubbleEntity.set_y BubbleEntity.isPopped
       BubbleEntity.x BubbleEntity.y BubbleEntity.radius].
  set (b1 := BubbleEntity.set_y _ b).
  set (w1 := set_heap (<[r := b1]> (heap w)) w).
  change (fingerPos (gameState w1)) with (fingerPos (gameState w)).
  assert (Hother : forall r', r' <> r -> heap w1 !! r' = heap w !! r').
  { intros r' Hne. unfold w1. cbn [set_heap heap]. now rewrite lookup_insert_ne. }
  assert (Hself : is_Some (heap w1 !! r)).
  { unfold w1. cbn [set_heap heap]. rewrite lookup_insert_eq. eauto. }
  destruct (BubbleEntity.isPopped b) eqn:Hp; cbn [negb andb].
  - exists w1. repeat split; auto; apply Hr.
  - unfold Rltb.
    destruct (Rlt_dec _ _) as [Hhit|Hmiss].
    + destruct (handlePop_effect r b1 w1)
        as (w' & Hw' & Hh & Hpops & Hf & Hr' & Hbs).
      { unfold w1. cbn [set_heap heap]. apply lookup_insert_eq. }
      { exact Hr. }
      exists w'. split; [exact Hw'|]. repeat split; try assumption.
      * intros r' Hne. rewrite Hh, lookup_insert_ne by congruence. now apply Hother.
      * apply Hr'.
      * apply Hr'.
      * rewrite Hh, lookup_insert_eq. eauto.
    + exists w1. repeat split; auto; apply Hr.
Qed.

(** The walk enters [handlePop] exactly for the objects that pass the test,
    in array order. *)
Lemma forEachBubble_pops (rs : list ref) (w : World) :
  NoDup rs -> (forall r, r ∈ rs -> is_Some (heap w !! r)) ->
  levelsReadable LEVELS w ->
  exists w',
    forEachBubble LEVELS mode random toString rs w = Some w' /\
    pops (trace w') = rev (List.filter (wouldPop w) rs) ++ pops (trace w) /\
    levelsReadable LEVELS w' /\
    (forall r, is_Some (heap w !! r) -> is_Some (heap w' !! r)) /\
    (bubbles (gameState w') = bubbles (gameState w) \/
     bubbles (gameState w') = []).
Proof.
  revert w. induction rs as [|r rs IH]; intros w Hnd Hin Hr.
  - exists w. repeat split; auto; apply Hr.
  - apply NoDup_cons in Hnd as [Hnotin Hnd].
    destruct (Hin r) as [b Hb]; [left|].
    destruct (stepBubble_effect r b w Hb Hr)
      as (w1 & Hs & Hother & Hp1 & Hf1 & Hr1 & Hself & Hbs1).
    destruct (IH w1 Hnd) as (w' & Hw' & Hp' & Hr' & Hdom & Hbs').
    { intros r' Hr'. rewrite Hother by (intros ->; contradiction).
      apply Hin. now right. }
    { exact Hr1. }
    exists w'. cbn [forEachBubble]. rewrite Hs. cbn [mbind option_bind].
    split; [exact Hw'|]. split; [|split; [exact Hr'|split]].
    2:{ intros r' Hr'0. apply Hdom.
        destruct (decide (r' = r)) as [->|Hne]; [exact Hself|].
        now rewrite Hother. }
    2:{ destruct Hbs' as [E|E]; [|now right]. rewrite E. exact Hbs1. }
    rewrite Hp', Hp1.
    assert (Hfilt : List.filter (wouldPop w1) rs = List.filter (wouldPop w) rs).
    { apply filter_ext_in. intros r' Hr'0. apply wouldPop_agree; [|exact Hf1].
      apply Hother. intros ->. apply Hnotin. now apply list_elem_of_In. }
    rewrite Hfilt. cbn [List.filter].
    destruct (wouldPop w r); cbn [rev app]; [|reflexivity].
    now rewrite <- app_assoc.
Qed.

Lemma NoDup_bool_filter {A} (p : A -> bool) (l : list A) :
  NoDup l -> NoDup (List.filter p l).
Proof.
  induction 1 as [|a l Hnotin Hnd IH]; cbn [List.filter]; [constructor|].
  destruct (p a); [|exact IH]. constructor; [|exact IH].
  rewrite list_elem_of_In, filter_In, <- list_elem_of_In. tauto.
Qed.

Lemma NoDup_fmap_bool_filter {A B} (f : A -> B) (p : A -> bool) (l : list A) :
  NoDup (f <$> l) -> NoDup (f <$> List.filter p l).
Proof.
  induction l as [|a l IH]; cbn [List.filter fmap list_fmap]; [constructor|].
  intros Hnd. apply NoDup_cons in Hnd as [Hnotin Hnd].
  destruct (p a); [|now apply IH]. cbn [fmap list_fmap].
  constructor; [|now apply IH].
  intros Hin. apply Hnotin.
  apply list_elem_of_fmap in Hin as (a' & -> & Ha').
  apply list_elem_of_fmap. exists a'. split; [reflexivity|].
  apply list_elem_of_In in Ha'. apply filter_In in Ha' as [Ha' _].
  now apply list_elem_of_In.
Qed.

Lemma decayShake_calm (w : World) :
  quiet w (decayShake random w) /\
  bubbles (gameState (decayShake random w)) = bubbles (gameState w).
Proof.
  unfold decayShake. destruct (Rlt_dec 0 (screenShake (gameState w)));
    [|split; [apply quiet_refl|reflexivity]].
  cbn [nextRandom]. destruct (Rlt_dec _ 0.5); split; try reflexivity;
    repeat first [quiet_step | apply quiet_refl];
    split; reflexivity || lia || (left; reflexivity).
Qed.

Lemma tickMessage_calm (w : World) :
  quiet w (tickMessage w) /\
  bubbles (gameState (tickMessage w)) = bubbles (gameState w).
Proof.
  unfold tickMessage. destruct (0 <? messageTimer (gameState w))%Z;
    [|split; [apply quiet_refl|reflexivity]].
  match goal with |- context [if ?c then _ else _] => destruct c end;
    split; try reflexivity; repeat first [quiet_step | apply quiet_refl].
Qed.

(** A spawn adds one fresh object at the end of the array. *)
Lemma spawnBubble_effect (stage : R * R) (w : World) :
  wellFormed w -> levelsReadable LEVELS w ->
  exists w',
    spawnBubble LEVELS mode random toString stage w = Some w' /\
    wellFormed w' /\
    pops (trace w') = pops (trace w) /\
    levelIndex (gameState w') = levelIndex (gameState w) /\
    (forall r b, heap w !! r = Some b -> heap w' !! r = Some b).
Proof.
  intros [Hnd Hin] [Hne Hl]. unfold spawnBubble. destruct stage as [width height].
  destruct (Req_dec_T width 0); [exists w; repeat split; auto|].
  destruct (Req_dec_T height 0); [exists w; repeat split; auto|].
  destruct (currentLevel_readable (gameState w) Hne Hl) as [cfg ->].
  cbn [mbind option_bind nextRandom].
  eexists. split; [reflexivity|].
  unfold wellFormed.
  cbn [modify set_heap set_draws gameState heap trace set_bubbles bubbles
       levelIndex draws].
  set (r := fresh (dom (heap w))).
  assert (Hfresh : heap w !! r = None).
  { apply not_elem_of_dom. apply is_fresh. }
  repeat split; auto.
  - apply NoDup_app. split; [exact Hnd|]. split; [|apply NoDup_singleton].
    intros r' Hr' Hr''. apply list_elem_of_singleton in Hr''. subst r'.
    destruct (Hin r Hr') as [b Hb]. congruence.
  - intros r' Hr'. apply elem_of_app in Hr' as [Hr'|Hr'].
    + destruct (decide (r' = r)) as [->|Hne'].
      * rewrite lookup_insert_eq. eauto.
      * rewrite lookup_insert_ne by congruence. now apply Hin.
    + apply list_elem_of_singleton in Hr'. subst r'.
      rewrite lookup_insert_eq. eauto.
  - intros r' b Hb. rewrite lookup_insert_ne; [exact Hb|]. congruence.
Qed.

Lemma wouldPop_unpopped (w : World) (r : ref) :
  wouldPop w r = true ->
  exists b, heap w !! r = Some b /\ BubbleEntity.isPopped b = false.
Proof.
  unfold wouldPop. destruct (heap w !! r) as [b|]; [|discriminate].
  intros H. apply andb_true_iff in H as [H _]. exists b. split; [reflexivity|].
  now destruct (BubbleEntity.isPopped b).
Qed.

(** One tick enters [handlePop] for pairwise distinct objects, none of
    which was flagged when the tick began. *)
Lemma gameLoop_pops (isPaused canvasReady : bool) (stage : R * R) (time : R)
    (w : World) :
  wellFormed w -> levelsReadable LEVELS w ->
  exists w' new,
    gameLoop LEVELS mode random toString isPaused canvasReady stage time w
      = Some w' /\
    pops (trace w') = new ++ pops (trace w) /\
    NoDup new /\
    (forall r b, r ∈ new -> heap w !! r = Some b ->
       BubbleEntity.isPopped b = false) /\
    wellFormed w' /\ levelsReadable LEVELS w'.
Proof.
  intros Hwf Hr. unfold gameLoop.
  assert (Hnil : forall w0,
            pops (trace w0) = pops (trace w) ->
            wellFormed w0 -> levelsReadable LEVELS w0 ->
            exists w' new, Some w0 = Some w' /\
              pops (trace w') = new ++ pops (trace w) /\ NoDup new /\
              (forall r b, r ∈ new -> heap w !! r = Some b ->
                 BubbleEntity.isPopped b = false) /\
              wellFormed w' /\ levelsReadable LEVELS w').
  { intros w0 H0 Hwf0 Hr0. exists w0, []. repeat split; auto;
      try apply Hwf0; try apply Hr0; [constructor|].
    intros r b Hin. now apply elem_of_nil in Hin. }
  destruct isPaused; [now apply Hnil|].
  destruct (negb (bool_decide (status (gameState w) = PLAYING)));
    [now apply Hnil|].
  destruct (negb canvasReady); [now apply Hnil|].
  destruct (Req_dec_T (fst stage) 0); [now apply Hnil|].
  destruct (Req_dec_T (snd stage) 0); [now apply Hnil|].
  clear Hnil.
  destruct (decayShake_calm w) as [Hq1 Hb1].
  set (wa := decayShake random w) in *.
  destruct (tickMessage_calm wa) as [Hq2 Hb2].
  set (wb := tickMessage wa) in *.
  pose proof (quiet_trans _ _ _ Hq1 Hq2) as Hq.
  assert (Hwfb : wellFormed wb).
  { destruct Hwf as [Hnd Hin]. split.
    - now rewrite Hb2, Hb1.
    - intros r Hr'. rewrite Hb2, Hb1 in Hr'.
      rewrite (quiet_heap _ _ Hq). now apply Hin. }
  assert (Hrb : levelsReadable LEVELS wb).
  { destruct Hr as [Hne Hl]. split; [exact Hne|].
    pose proof (quiet_level _ _ Hq). lia. }
  destruct (currentLevel_readable (gameState wb) (proj1 Hrb) (proj2 Hrb))
    as [cfg ->].
  cbn [mbind option_bind].
  assert (Hspawn : exists wc,
    (if Rlt_dec (GAME_CONFIG.SPAWN_RATE_MS * spawnMod cfg)
                (time - lastSpawnTime (gameState wb))
     then spawnBubble LEVELS mode random toString stage wb
            ≫= (fun w' => Some (modify (set_lastSpawnTime time) w'))
     else Some wb) = Some wc /\
    wellFormed wc /\ pops (trace wc) = pops (trace wb) /\
    levelsReadable LEVELS wc /\
    (forall r b, heap wb !! r = Some b -> heap wc !! r = Some b)).
  { destruct (Rlt_dec _ _).
    - destruct (spawnBubble_effect stage wb Hwfb Hrb)
        as (wc & -> & Hwfc & Hpc & Hlc & Hhc).
      cbn [mbind option_bind]. eexists. split; [reflexivity|].
      repeat split; try apply Hwfc; auto; try apply Hrb.
      cbn. rewrite Hlc. apply Hrb.
    - exists wb. repeat split; auto; try apply Hwfb; apply Hrb. }
  destruct Hspawn as (wc & -> & Hwfc & Hpc & Hrc & Hhc).
  cbn [mbind option_bind].
  destruct (forEachBubble_pops (bubbles (gameState wc)) wc
              (proj1 Hwfc) (proj2 Hwfc) Hrc)
    as (wd & -> & Hpd & Hrd & Hdom & Hbsd).
  cbn [mbind option_bind].
  eexists. exists (rev (List.filter (wouldPop wc) (bubbles (gameState wc)))).
  split; [reflexivity|].
  cbn [emit modify trace]. rewrite pops_cons.
  rewrite Hpd, Hpc, (quiet_pops _ _ Hq).
  split; [reflexivity|]. split; [|split; [|split]].
  - apply NoDup_ListNoDup, List.NoDup_rev, NoDup_ListNoDup, NoDup_bool_filter.
    apply Hwfc.
  - intros r b Hin Hb.
    apply list_elem_of_In in Hin. apply in_rev, filter_In in Hin as [_ Hp].
    apply wouldPop_unpopped in Hp as (b' & Hb' & Hpop).
    rewrite <- (quiet_heap _ _ Hq) in Hb. apply Hhc in Hb. congruence.
  - unfold wellFormed.
    cbn [gameState heap set_particles set_bubbles bubbles particles].
    split.
    + apply NoDup_bool_filter.
      destruct Hbsd as [E|E]; rewrite E; [apply Hwfc|constructor].
    + intros r Hin. apply list_elem_of_In, filter_In in Hin as [Hin _].
      apply list_elem_of_In in Hin. apply Hdom.
      destruct Hbsd as [E|E]; rewrite E in Hin;
        [now apply Hwfc|now apply elem_of_nil in Hin].
  - exact Hrd.
Qed.

(** The state right after the hazard branch of [handlePop] in level mode,
    before the level-clear check: the restart has happened when the pop
    took the last life. *)
Lemma hazard_branch_levels (r : ref) (b : BubbleEntity.t) (w : World) :
  heap w !! r = Some b -> BubbleEntity.type b = BOMB ->
  exists w1,
    handlePop LEVELS LEVELS_MODE random toString r w
      = levelClearCheck LEVELS random toString w1 /\
    heap w1 = <[r := BubbleEntity.set_isPopped true b]> (heap w) /\
    status (gameState w1) = status (gameState w) /\
    levelIndex (gameState w1) = levelIndex (gameState w) /\
    levelScoreStart (gameState w1) = levelScoreStart (gameState w) /\
    ((lives (gameState w) - 1 <= 0)%Z ->
       lives (gameState w1) = 3%Z /\
       bubbles (gameState w1) = [] /\
       particles (gameState w1) = [] /\
       score (gameState w1) = levelScoreStart (gameState w) /\
       screenShake (gameState w1) = 30%R) /\
    ((0 < lives (gameState w) - 1)%Z ->
       lives (gameState w1) = (lives (gameState w) - 1)%Z /\
       score (gameState w1) = score (gameState w) /\
       screenShake (gameState w1) = 25%R).
Proof.
  intros Hb Ht. unfold handlePop. rewrite Hb. cbn [mbind option_bind].
  change (BubbleEntity.type (BubbleEntity.set_isPopped true b))
    with (BubbleEntity.type b). rewrite Ht.
  rewrite (decide_True (P := BOMB = BOMB)) by reflexivity.
  rewrite (decide_False (P := LEVELS_MODE = INFINITE)) by discriminate.
  rewrite (decide_True (P := LEVELS_MODE = LEVELS_MODE)) by reflexivity.
  match goal with |- context [createParticles _ _ ?x ?y ?t ?n ?w0] =>
    destruct (createParticles_shape n x y t w0) as (ps & _ & ->) end.
  cbn [modify emit gameState set_lives lives set_heap set_screenShake
       set_particles heap oneEuroFilter draws trace].
  eexists. split; [reflexivity|].
  destruct (Z.leb_spec (lives (gameState w) - 1) 0) as [Hle|Hgt];
    cbn; repeat split; auto; intros; lia.
Qed.

(** The level-clear check on a score below the target changes nothing. *)
Lemma levelClearCheck_below (w : World) (cfg : LevelDefinition) :
  currentLevel LEVELS (gameState w) = Some cfg ->
  (score (gameState w) < target cfg)%Z ->
  levelClearCheck LEVELS random toString w = Some w.
Proof.
  intros Hcfg Hs. unfold levelClearCheck. rewrite Hcfg. cbn [mbind option_bind].
  apply Z.leb_gt in Hs. now rewrite Hs.
Qed.

Lemma burstAll_shape (rs : list ref) (w : World) :
  exists ps n, (rs = [] -> ps = []) /\
    burstAll random toString rs w
      = mkWorld (set_particles (particles (gameState w) ++ ps) (gameState w))
          (heap w) (oneEuroFilter w) (draws w + n) (trace w).
Proof.
  revert w. induction rs as [|r rs IH]; intros w.
  - exists [], 0%nat. split; [reflexivity|]. cbn [burstAll].
    rewrite app_nil_r, Nat.add_0_r. now destruct w as [[] ? ? ? ?].
  - cbn [burstAll]. destruct (heap w !! r) as [b|].
    + destruct (createParticles_shape 5 (BubbleEntity.x b) (BubbleEntity.y b)
                  (BubbleEntity.type b) w) as (ps1 & _ & ->).
      match goal with |- context [burstAll _ _ _ ?w1] =>
        destruct (IH w1) as (ps2 & n2 & _ & ->) end.
      exists (ps1 ++ ps2), (4 * 5 + n2)%nat. split; [discriminate|].
      cbn [gameState heap oneEuroFilter draws trace set_particles particles].
      rewrite <- app_assoc. f_equal. lia.
    + destruct (IH w) as (ps2 & n2 & _ & ->).
      exists ps2, n2. split; [discriminate|reflexivity].
Qed.

(** The level-clear check on a score at or above the target: the level
    index goes up by one, the array is emptied, and the score, the lives and
    the status stay. *)
Lemma levelClearCheck_reached (w : World) (cfg : LevelDefinition) :
  currentLevel LEVELS (gameState w) = Some cfg ->
  (target cfg <= score (gameState w))%Z ->
  exists w',
    levelClearCheck LEVELS random toString w = Some w' /\
    heap w' = heap w /\
    levelIndex (gameState w') = (levelIndex (gameState w) + 1)%Z /\
    levelScoreStart (gameState w') = score (gameState w) /\
    score (gameState w') = score (gameState w) /\
    lives (gameState w') = lives (gameState w) /\
    status (gameState w') = status (gameState w) /\
    screenShake (gameState w') = screenShake (gameState w) /\
    bubbles (gameState w') = [] /\
    (bubbles (gameState w) = [] ->
       particles (gameState w') = particles (gameState w)).
Proof.
  intros Hcfg Hs. unfold levelClearCheck. rewrite Hcfg. cbn [mbind option_bind].
  apply Z.leb_le in Hs. rewrite Hs.
  eexists. split; [reflexivity|].
  match goal with |- context [burstAll _ _ ?rs ?w0] =>
    destruct (burstAll_shape rs w0) as (ps & n & Hps & ->) end.
  unfold showMessage, showToast.
  cbn [modify emit gameState heap set_bubbles set_particles set_message
       set_messageTimer set_levelIndex set_levelScoreStart
       status score lives levelIndex levelScoreStart bubbles particles
       screenShake] in *.
  repeat split; try reflexivity.
  intros Hnil. rewrite (Hps Hnil). apply app_nil_r.
Qed.

Lemma currentLevel_same (gs gs' : GameState) :
  levelIndex gs' = levelIndex gs ->
  currentLevel LEVELS gs' = currentLevel LEVELS gs.
Proof. intros H. unfold currentLevel. now rewrite H. Qed.

(** A hazard popped with the last life, the level-start score below the
    target of the level: the level is restarted where it stands. *)
Lemma hazard_restart_below_target (r : ref) (b : BubbleEntity.t) (w : World)
    (cfg : LevelDefinition) :
  heap w !! r = Some b -> BubbleEntity.type b = BOMB ->
  currentLevel LEVELS (gameState w) = Some cfg ->
  (lives (gameState w) - 1 <= 0)%Z ->
  (levelScoreStart (gameState w) < target cfg)%Z ->
  exists w',
    handlePop LEVELS LEVELS_MODE random toString r w = Some w' /\
    lives (gameState w') = 3%Z /\
    bubbles (gameState w') = [] /\
    particles (gameState w') = [] /\
    score (gameState w') = levelScoreStart (gameState w) /\
    screenShake (gameState w') = 30%R /\
    status (gameState w') = status (gameState w) /\
    levelIndex (gameState w') = levelIndex (gameState w).
Proof.
  intros Hb Ht Hcfg Hl Hs.
  destruct (hazard_branch_levels r b w Hb Ht)
    as (w1 & -> & _ & Hst & Hli & Hls & Hrestart & _).
  destruct (Hrestart Hl) as (H1 & H2 & H3 & H4 & H5).
  exists w1. split.
  - apply (levelClearCheck_below w1 cfg).
    + now rewrite (currentLevel_same _ _ Hli).
    + now rewrite H4.
  - auto 10.
Qed.

(** The same pop once the level-start score has reached the target of the
    level the table offers: the restart is followed by a level advance. *)
Lemma hazard_restart_at_target (r : ref) (b : BubbleEntity.t) (w : World)
    (cfg : LevelDefinition) :
  heap w !! r = Some b -> BubbleEntity.type b = BOMB ->
  currentLevel LEVELS (gameState w) = Some cfg ->
  (lives (gameState w) - 1 <= 0)%Z ->
  (target cfg <= levelScoreStart (gameState w))%Z ->
  exists w',
    handlePop LEVELS LEVELS_MODE random toString r w = Some w' /\
    lives (gameState w') = 3%Z /\
    bubbles (gameState w') = [] /\
    particles (gameState w') = [] /\
    score (gameState w') = levelScoreStart (gameState w) /\
    screenShake (gameState w') = 30%R /\
    status (gameState w') = status (gameState w) /\
    levelIndex (gameState w') = (levelIndex (gameState w) + 1)%Z.
Proof.
  intros Hb Ht Hcfg Hl Hs.
  destruct (hazard_branch_levels r b w Hb Ht)
    as (w1 & -> & _ & Hst & Hli & Hls & Hrestart & _).
  destruct (Hrestart Hl) as (H1 & H2 & H3 & H4 & H5).
  destruct (levelClearCheck_reached w1 cfg)
    as (w' & Hw' & _ & E1 & E2 & E3 & E4 & E5 & E6 & E7 & E8).
  - now rewrite (currentLevel_same _ _ Hli).
  - now rewrite H4.
  - exists w'. split; [exact Hw'|].
    rewrite E1, E3, E4, E5, E6, (E8 H2), H1, H3, H4, H5, Hst, Hli. auto 10.
Qed.

(** A hazard popped with lives to spare costs one life and no points. *)
Lemma hazard_costs_a_life (r : ref) (b : BubbleEntity.t) (w : World) :
  heap w !! r = Some b -> BubbleEntity.type b = BOMB ->
  levelsReadable LEVELS w ->
  (0 < lives (gameState w) - 1)%Z ->
  exists w',
    handlePop LEVELS LEVELS_MODE random toString r w = Some w' /\
    lives (gameState w') = (lives (gameState w) - 1)%Z /\
    score (gameState w') = score (gameState w) /\
    status (gameState w') = status (gameState w).
Proof.
  intros Hb Ht [Hne Hl] Hlives.
  destruct (hazard_branch_levels r b w Hb Ht)
    as (w1 & -> & _ & Hst & Hli & Hls & _ & Hkeep).
  destruct (Hkeep Hlives) as (H1 & H2 & H3).
  destruct (currentLevel_readable (gameState w1) Hne) as [cfg Hcfg];
    [rewrite Hli; exact Hl|].
  destruct (Z.lt_ge_cases (score (gameState w1)) (target cfg)) as [Hlt|Hge].
  - exists w1. split; [now apply (levelClearCheck_below w1 cfg)|]. auto.
  - destruct (levelClearCheck_reached w1 cfg Hcfg Hge)
      as (w' & Hw' & _ & _ & _ & E3 & E4 & E5 & _).
    exists w'. split; [exact Hw'|]. rewrite E3, E4, E5. auto.
Qed.

(** A hazard popped with lives to spare while the score is at the target of
    the level the table offers: one life less and one level up. *)
Lemma hazard_advances_at_target (r : ref) (b : BubbleEntity.t) (w : World)
    (cfg : LevelDefinition) :
  heap w !! r = Some b -> BubbleEntity.type b = BOMB ->
  currentLevel LEVELS (gameState w) = Some cfg ->
  (0 < lives (gameState w) - 1)%Z ->
  (target cfg <= score (gameState w))%Z ->
  exists w',
    handlePop LEVELS LEVELS_MODE random toString r w = Some w' /\
    heap w' = <[r := BubbleEntity.set_isPopped true b]> (heap w) /\
    lives (gameState w') = (lives (gameState w) - 1)%Z /\
    score (gameState w') = score (gameState w) /\
    levelScoreStart (gameState w') = score (gameState w) /\
    levelIndex (gameState w') = (levelIndex (gameState w) + 1)%Z /\
    status (gameState w') = status (gameState w).
Proof.
  intros Hb Ht Hcfg Hlives Hs.
  destruct (hazard_branch_levels r b w Hb Ht)
    as (w1 & -> & Hh & Hst & Hli & Hls & _ & Hkeep).
  destruct (Hkeep Hlives) as (H1 & H2 & H3).
  destruct (levelClearCheck_reached w1 cfg)
    as (w' & Hw' & Eh & E1 & E2 & E3 & E4 & E5 & _).
  - now rewrite (currentLevel_same _ _ Hli).
  - now rewrite H2.
  - exists w'. split; [exact Hw'|].
    rewrite Eh, E1, E2, E3, E4, E5, Hh, H1, H2, Hli, Hst. auto 10.
Qed.

(** A hazard popped in the endless mode. *)
Lemma hazard_ends_endless (r : ref) (b : BubbleEntity.t) (w : World) :
  heap w !! r = Some b -> BubbleEntity.type b = BOMB ->
  exists w',
    handlePop LEVELS INFINITE random toString r w = Some w' /\
    status (gameState w') = GAME_OVER /\
    score (gameState w') = score (gameState w) /\
    trace w' = SetScore (score (gameState w))
                 :: OnGameOver (score (gameState w))
                 :: PlayBomb :: HandlePop r :: trace w.
Proof.
  intros Hb Ht. unfold handlePop. rewrite Hb. cbn [mbind option_bind].
  change (BubbleEntity.type (BubbleEntity.set_isPopped true b))
    with (BubbleEntity.type b). rewrite Ht.
  rewrite (decide_True (P := BOMB = BOMB)) by reflexivity.
  rewrite (decide_True (P := INFINITE = INFINITE)) by reflexivity.
  rewrite (decide_False (P := INFINITE = LEVELS_MODE)) by discriminate.
  match goal with |- context [createParticles _ _ ?x ?y ?t ?n ?w0] =>
    destruct (createParticles_shape n x y t w0) as (ps & _ & ->) end.
  eexists. split; [reflexivity|].
  unfold endGame.
  cbn [modify emit gameState set_status set_heap set_screenShake
       set_particles status score heap oneEuroFilter draws trace popSound].
  auto.
Qed.

(** A freshly mounted component satisfies both assumptions of the walk. *)
Lemma initialWorld_wellFormed (initialLevel : Z) (now : R) (w : World) :
  initialWorld LEVELS mode initialLevel now = Some w ->
  LEVELS <> [] ->
  wellFormed w /\ levelsReadable LEVELS w /\ pops (trace w) = [].
Proof.
  unfold initialWorld, initialGameState. intros H Hne.
  destruct (getStartingScore LEVELS mode (startLvlIndex initialLevel))
    as [s0|]; [|discriminate H].
  cbn in H. injection H as <-.
  split; [|split; [|reflexivity]].
  - split; [constructor|]. intros r Hr. now apply elem_of_nil in Hr.
  - split; [exact Hne|]. cbn. unfold startLvlIndex. lia.
Qed.

(** Beyond the table the component cannot be mounted in level mode: the
    read of the previous level's target throws. *)
Lemma initialGameState_beyond_table (L : Z) :
  (2 <= L)%Z -> at_index LEVELS (L - 2) = None ->
  initialGameState LEVELS LEVELS_MODE L = None.
Proof.
  intros HL Hnone. unfold initialGameState, getStartingScore.
  rewrite (decide_False (P := LEVELS_MODE = INFINITE)) by discriminate.
  unfold startLvlIndex. rewrite Z.max_r by lia.
  destruct (Z.leb_spec (L - 1) 0) as [H|_]; [lia|].
  replace (L - 1 - 1)%Z with (L - 2)%Z by lia. now rewrite Hnone.
Qed.

(** A pop of any other category awards the points of the category, once. *)
Lemma handlePop_awards (r : ref) (b : BubbleEntity.t) (w : World) :
  heap w !! r = Some b -> BubbleEntity.type b <> BOMB ->
  levelsReadable LEVELS w ->
  exists w',
    handlePop LEVELS mode random toString r w = Some w' /\
    score (gameState w')
      = (score (gameState w) + SCORING (BubbleEntity.type b))%Z.
Proof.
  intros Hb Ht [Hne Hl]. unfold handlePop. rewrite Hb. cbn [mbind option_bind].
  change (BubbleEntity.type (BubbleEntity.set_isPopped true b))
    with (BubbleEntity.type b).
  rewrite (decide_False (P := BubbleEntity.type b = BOMB)) by exact Ht.
  match goal with |- context [createParticles _ _ ?x ?y ?t ?n ?w0] =>
    destruct (createParticles_shape n x y t w0) as (ps & _ & ->) end.
  match goal with
  | |- exists w', (if _ then levelClearCheck _ _ _ ?w2 else Some ?w2) = _ /\ _ =>
      assert (Hw2 : score (gameState w2)
                    = (score (gameState w) + SCORING (BubbleEntity.type b))%Z
                    /\ levelIndex (gameState w2) = levelIndex (gameState w));
        [|set (wq := w2) in *]
  end.
  { destruct (decide (BubbleEntity.type b = HEART)); [|split; reflexivity].
    cbn [modify emit gameState set_score set_heap set_particles lives].
    destruct (lives (gameState w) <? 3)%Z; split; reflexivity. }
  destruct Hw2 as [Hscore Hlevel].
  destruct (decide (mode = LEVELS_MODE)); [|eauto].
  destruct (currentLevel_readable (gameState wq) Hne) as [cfg Hcfg];
    [rewrite Hlevel; exact Hl|].
  destruct (Z.lt_ge_cases (score (gameState wq)) (target cfg)) as [Hlt|Hge].
  - exists wq. split; [now apply (levelClearCheck_below wq cfg)|exact Hscore].
  - destruct (levelClearCheck_reached wq cfg Hcfg Hge)
      as (w' & Hw' & _ & _ & _ & E3 & _).
    exists w'. split; [exact Hw'|]. now rewrite E3.
Qed.

End Facts.
End gameFacts.

Module gameClaims.

Import constants GameCanvas gameFacts.

(** C10.  A level-mode session started at initial level L >= 2 for which the
    table has the entry of level L-1 begins with its score and its
    level-start score both equal to that entry's target, at level index
    L-1.  A level-mode session started at level 1 (or below) and every
    endless session begin with score 0 and level-start score 0. *)
Theorem initial_score_is_previous_target
    (LEVELS : list LevelDefinition) (L : Z) :
  (forall previous,
     (2 <= L)%Z -> at_index LEVELS (L - 2) = Some previous ->
     exists gs,
       initialGameState LEVELS LEVELS_MODE L = Some gs /\
       score gs = target previous /\
       levelScoreStart gs = target previous /\
       levelIndex gs = (L - 1)%Z /\
       lives gs = 3%Z /\ status gs = PLAYING) /\
  ((L <= 1)%Z ->
     exists gs,
       initialGameState LEVELS LEVELS_MODE L = Some gs /\
       score gs = 0%Z /\ levelScoreStart gs = 0%Z /\ levelIndex gs = 0%Z) /\
  (exists gs,
     initialGameState LEVELS INFINITE L = Some gs /\
     score gs = 0%Z /\ levelScoreStart gs = 0%Z /\ lives gs = 1%Z).
Proof.
  split; [|split].
  - intros previous HL Hprev. unfold initialGameState, getStartingScore.
    rewrite (decide_False (P := LEVELS_MODE = INFINITE)) by discriminate.
    unfold startLvlIndex. rewrite Z.max_r by lia.
    destruct (Z.leb_spec (L - 1) 0) as [H|_]; [lia|].
    replace (L - 1 - 1)%Z with (L - 2)%Z by lia. rewrite Hprev.
    eexists. split; [reflexivity|]. cbn. auto 10.
  - intros HL. unfold initialGameState, getStartingScore.
    rewrite (decide_False (P := LEVELS_MODE = INFINITE)) by discriminate.
    unfold startLvlIndex. rewrite Z.max_l by lia.
    eexists. split; [reflexivity|]. cbn. auto.
  - unfold initialGameState, getStartingScore.
    rewrite (decide_True (P := INFINITE = INFINITE)) by reflexivity.
    eexists. split; [reflexivity|]. cbn. auto.
Qed.

Lemma initial_score_is_previous_target_witness :
  (exists gs,
     initialGameState constants.LEVELS LEVELS_MODE 3 = Some gs /\
     score gs = 400%Z /\ levelScoreStart gs = 400%Z /\ levelIndex gs = 2%Z) /\
  initialGameState constants.LEVELS LEVELS_MODE 1 = Some samples.freshState.
Proof.
  destruct (initial_score_is_previous_target constants.LEVELS 3) as (H3 & _).
  destruct (initial_score_is_previous_target constants.LEVELS 1) as (_ & H1 & _).
  split.
  - destruct (H3 (Build_LevelDefinition 400 1.2 0.9 0.15)) as (gs & Hgs & Hrest);
      [lia|reflexivity|].
    exists gs. split; [exact Hgs|]. destruct Hrest as (? & ? & ? & _). auto.
  - destruct (H1 ltac:(lia)) as (gs & Hgs & _). reflexivity.
Defined.

(** C2.  In the endless mode one hazard pop ends the session: the status
    becomes GAME_OVER, [onGameOver] is called with the score held before the
    pop, the score itself is unchanged (the pop awards nothing), and the
    next tick of the loop does nothing. *)
Theorem endless_hazard_pop_ends_session
    (LEVELS : list LevelDefinition) (random : nat -> R)
    (toString : R -> Z -> string)
    (r : ref) (b : BubbleEntity.t) (w : World) :
  heap w !! r = Some b -> BubbleEntity.type b = BOMB ->
  exists w',
    handlePop LEVELS INFINITE random toString r w = Some w' /\
    status (gameState w') = GAME_OVER /\
    score (gameState w') = score (gameState w) /\
    SCORING BOMB = 0%Z /\
    trace w' = SetScore (score (gameState w))
                 :: OnGameOver (score (gameState w))
                 :: PlayBomb :: HandlePop r :: trace w /\
    (forall canvasReady stage time,
       gameLoop LEVELS INFINITE random toString false canvasReady stage time w'
         = Some w').
Proof.
  intros Hb Ht.
  destruct (hazard_ends_endless LEVELS random toString r b w Hb Ht)
    as (w' & Hw' & Hst & Hsc & Htr).
  exists w'. repeat split; try assumption.
  intros canvasReady stage time. unfold gameLoop. now rewrite Hst.
Qed.

Lemma endless_hazard_pop_ends_session_witness :
  exists w',
    handlePop constants.LEVELS INFINITE samples.halves samples.blank 0
      samples.endlessWorld = Some w' /\
    status (gameState w') = GAME_OVER /\
    score (gameState w') = 120%Z /\
    trace w' = [SetScore 120; OnGameOver 120; PlayBomb; HandlePop 0].
Proof.
  destruct (endless_hazard_pop_ends_session constants.LEVELS samples.halves
              samples.blank 0 (samples.bubbleAt 300 400 BOMB false)
              samples.endlessWorld eq_refl eq_refl)
    as (w' & Hw' & Hst & Hsc & _ & Htr & _).
  exists w'. repeat split; assumption.
Defined.

(** C1, at the input where the code departs from it.  On the six-level
    table a session is resumed at level 7 (level index 6, score and
    level-start score 999999, three lives) and three hazards are popped.
    The third pop takes the last life and restarts the level as described:
    lives 3, no bubbles, no particles, the score at the level-start score,
    shake 30, status PLAYING.  But the level-clear check that follows in
    [handlePop] finds the restored score at the target, and the level index
    goes from 8 to 9. *)
Theorem hazard_restart_after_last_level :
  initialGameState constants.LEVELS LEVELS_MODE 7 = Some samples.resumedAt7 /\
  exists w1 w2 w3,
    handlePop constants.LEVELS LEVELS_MODE samples.halves samples.blank 0
      samples.resumedWorld = Some w1 /\
    handlePop constants.LEVELS LEVELS_MODE samples.halves samples.blank 1 w1
      = Some w2 /\
    handlePop constants.LEVELS LEVELS_MODE samples.halves samples.blank 2 w2
      = Some w3 /\
    lives (gameState w2) = 1%Z /\
    levelIndex (gameState w2) = 8%Z /\
    levelScoreStart (gameState w2) = 999999%Z /\
    lives (gameState w3) = 3%Z /\
    bubbles (gameState w3) = [] /\
    particles (gameState w3) = [] /\
    score (gameState w3) = 999999%Z /\
    screenShake (gameState w3) = 30%R /\
    status (gameState w3) = PLAYING /\
    levelIndex (gameState w3) = 9%Z.
Proof.
  split; [reflexivity|].
  set (last := Build_LevelDefinition 999999 2.5 0.5 0.35).
  destruct (hazard_advances_at_target constants.LEVELS samples.halves
              samples.blank 0 (samples.bubbleAt 300 400 BOMB false)
              samples.resumedWorld last)
    as (w1 & Hw1 & Hh1 & Hl1 & Hs1 & Hss1 & Hi1 & Hst1);
    try reflexivity; try (cbn; lia).
  destruct (hazard_advances_at_target constants.LEVELS samples.halves
              samples.blank 1 (samples.bubbleAt 500 400 BOMB false) w1 last)
    as (w2 & Hw2 & Hh2 & Hl2 & Hs2 & Hss2 & Hi2 & Hst2).
  { rewrite Hh1. reflexivity. }
  { reflexivity. }
  { unfold currentLevel. rewrite Hi1. reflexivity. }
  { rewrite Hl1. cbn. lia. }
  { rewrite Hs1. cbn. lia. }
  destruct (hazard_restart_at_target constants.LEVELS samples.halves
              samples.blank 2 (samples.bubbleAt 700 400 BOMB false) w2 last)
    as (w3 & Hw3 & H31 & H32 & H33 & H34 & H35 & H36 & H37).
  { rewrite Hh2, Hh1. reflexivity. }
  { reflexivity. }
  { unfold currentLevel. rewrite Hi2, Hi1. reflexivity. }
  { rewrite Hl2, Hl1. cbn. lia. }
  { rewrite Hss2, Hs1. cbn. lia. }
  exists w1, w2, w3.
  rewrite H34, H36, H37, Hl2, Hl1, Hi2, Hi1, Hss2, Hs1, Hst2, Hst1.
  repeat split; assumption || reflexivity.
Qed.

(** The same pop on level 1 of the table keeps the level index. *)
Example hazard_restart_on_level_1 :
  exists w',
    handlePop constants.LEVELS LEVELS_MODE samples.halves samples.blank 0
      samples.lastLifeWorld = Some w' /\
    lives (gameState w') = 3%Z /\
    bubbles (gameState w') = [] /\
    particles (gameState w') = [] /\
    score (gameState w') = 0%Z /\
    screenShake (gameState w') = 30%R /\
    status (gameState w') = PLAYING /\
    levelIndex (gameState w') = 0%Z.
Proof.
  destruct (hazard_restart_below_target constants.LEVELS samples.halves
              samples.blank 0 (samples.bubbleAt 300 400 BOMB false)
              samples.lastLifeWorld
              (Build_LevelDefinition 150 1.0 1.0 0.1))
    as (w' & Hw' & H); try reflexivity; try (cbn; lia).
  exists w'. split; [exact Hw'|exact H].
Qed.

(** C7.  In a world whose bubble array holds each object once, one walk of
    the array enters [handlePop] exactly for the objects that are not
    flagged and pass the distance test, each once and in array order, so
    several bubbles can pop in one tick; an object already flagged is only
    moved; distinct ids in the array give distinct ids among the pops; a pop
    of a scoring category adds its points once; and over a whole tick the
    objects [handlePop] is entered for are pairwise distinct and none of
    them was flagged when the tick began.  The two assumptions hold again
    after the tick. *)
Theorem one_pop_per_bubble_per_tick
    (LEVELS : list LevelDefinition) (mode : GameMode) (random : nat -> R)
    (toString : R -> Z -> string)
    (isPaused canvasReady : bool) (stage : R * R) (time : R) (w : World) :
  wellFormed w -> levelsReadable LEVELS w ->
  (forall r b,
     heap w !! r = Some b -> BubbleEntity.isPopped b = true ->
     wouldPop w r = false /\
     stepBubble LEVELS mode random toString r w
       = Some (set_heap
                 (<[r := BubbleEntity.set_y
                           (BubbleEntity.y b - BubbleEntity.speed b) b]>
                    (heap w)) w)) /\
  (exists w',
     forEachBubble LEVELS mode random toString (bubbles (gameState w)) w
       = Some w' /\
     pops (trace w')
       = rev (List.filter (wouldPop w) (bubbles (gameState w)))
           ++ pops (trace w)) /\
  NoDup (List.filter (wouldPop w) (bubbles (gameState w))) /\
  (NoDup (bubbleId w <$> bubbles (gameState w)) ->
     NoDup (bubbleId w <$> List.filter (wouldPop w) (bubbles (gameState w)))) /\
  (forall r b,
     heap w !! r = Some b -> BubbleEntity.type b <> BOMB ->
     exists w',
       handlePop LEVELS mode random toString r w = Some w' /\
       score (gameState w')
         = (score (gameState w) + SCORING (BubbleEntity.type b))%Z) /\
  (exists w' new,
     gameLoop LEVELS mode random toString isPaused canvasReady stage time w
       = Some w' /\
     pops (trace w') = new ++ pops (trace w) /\
     NoDup new /\
     (forall r b, r ∈ new -> heap w !! r = Some b ->
        BubbleEntity.isPopped b = false) /\
     wellFormed w' /\ levelsReadable LEVELS w').
Proof.
  intros Hwf Hr. split; [|split; [|split; [|split; [|split]]]].
  - intros r b Hb Hp. unfold wouldPop, stepBubble. rewrite Hb.
    cbn [mbind option_bind].
    change (BubbleEntity.isPopped (BubbleEntity.set_y _ b))
      with (BubbleEntity.isPopped b).
    rewrite Hp. auto.
  - destruct (forEachBubble_pops LEVELS mode random toString
                (bubbles (gameState w)) w (proj1 Hwf) (proj2 Hwf) Hr)
      as (w' & Hw' & Hp & _).
    eauto.
  - apply NoDup_bool_filter, Hwf.
  - apply NoDup_fmap_bool_filter.
  - intros r b Hb Ht. now apply handlePop_awards.
  - now apply gameLoop_pops.
Qed.

Lemma one_pop_per_bubble_per_tick_witness :
  List.filter (wouldPop samples.crowdedWorld) [0; 1; 2; 3]%nat = [0; 1]%nat /\
  exists w',
    forEachBubble constants.LEVELS LEVELS_MODE samples.halves samples.blank
      [0; 1; 2; 3]%nat samples.crowdedWorld = Some w' /\
    pops (trace w') = [1; 0]%nat.
Proof.
  assert (Hwf : wellFormed samples.crowdedWorld).
  { split; [apply (NoDup_seq 0 4)|].
    intros r Hr. change (r ∈ [0; 1; 2; 3]%nat) in Hr.
    repeat (apply elem_of_cons in Hr as [->|Hr]; [eexists; reflexivity|]).
    now apply elem_of_nil in Hr. }
  assert (Hlv : levelsReadable constants.LEVELS samples.crowdedWorld).
  { split; [discriminate|]. cbn. lia. }
  assert (Hf : List.filter (wouldPop samples.crowdedWorld) [0; 1; 2; 3]%nat
               = [0; 1]%nat).
  { assert (H0 : wouldPop samples.crowdedWorld 0 = true).
    { unfold wouldPop. change (heap samples.crowdedWorld !! 0%nat)
        with (Some (samples.bubbleAt 300 402 NORMAL false)).
      cbn [samples.bubbleAt BubbleEntity.isPopped BubbleEntity.x BubbleEntity.y
           BubbleEntity.speed BubbleEntity.radius negb andb].
      change (fingerPos (gameState samples.crowdedWorld))
        with (Point.mk 300 400). cbn [Point.x Point.y].
      replace (300 - 300)%R with 0%R by lra.
      replace (402 - 2 - 400)%R with 0%R by lra.
      unfold Rltb. rewrite pointerFacts.hypot_axis by lra.
      destruct (Rlt_dec 0 (50 * 1.3)); [reflexivity|lra]. }
    assert (H1 : wouldPop samples.crowdedWorld 1 = true).
    { unfold wouldPop. change (heap samples.crowdedWorld !! 1%nat)
        with (Some (samples.bubbleAt 310 402 RARE false)).
      cbn [samples.bubbleAt BubbleEntity.isPopped BubbleEntity.x BubbleEntity.y
           BubbleEntity.speed BubbleEntity.radius negb andb].
      change (fingerPos (gameState samples.crowdedWorld))
        with (Point.mk 300 400). cbn [Point.x Point.y].
      replace (310 - 300)%R with 10%R by lra.
      replace (402 - 2 - 400)%R with 0%R by lra.
      unfold Rltb. rewrite pointerFacts.hypot_axis by lra.
      destruct (Rlt_dec 10 (50 * 1.3)); [reflexivity|lra]. }
    assert (H2 : wouldPop samples.crowdedWorld 2 = false) by reflexivity.
    assert (H3 : wouldPop samples.crowdedWorld 3 = false).
    { unfold wouldPop. change (heap samples.crowdedWorld !! 3%nat)
        with (Some (samples.bubbleAt 900 402 NORMAL false)).
      cbn [samples.bubbleAt BubbleEntity.isPopped BubbleEntity.x BubbleEntity.y
           BubbleEntity.speed BubbleEntity.radius negb andb].
      change (fingerPos (gameState samples.crowdedWorld))
        with (Point.mk 300 400). cbn [Point.x Point.y].
      replace (900 - 300)%R with 600%R by lra.
      replace (402 - 2 - 400)%R with 0%R by lra.
      unfold Rltb. rewrite pointerFacts.hypot_axis by lra.
      destruct (Rlt_dec 600 (50 * 1.3)); [lra|reflexivity]. }
    cbn [List.filter]. now rewrite H0, H1, H2, H3. }
  split; [exact Hf|].
  destruct (one_pop_per_bubble_per_tick constants.LEVELS LEVELS_MODE
              samples.halves samples.blank false true (1280, 720)%R 0%R
              samples.crowdedWorld Hwf Hlv)
    as (_ & (w' & Hw' & Hp) & _).
  exists w'. split; [exact Hw'|].
  rewrite Hp. change (bubbles (gameState samples.crowdedWorld))
    with [0; 1; 2; 3]%nat. now rewrite Hf.
Defined.

End gameClaims.

(* ===================================================================== *)
(** ** The storage service and its callers, further *)
(* ===================================================================== *)

Module storageMore.

Import JS storageService storageFacts.

Lemma keys_differ : SCORE_STORAGE_KEY <> LEVEL_CHECKPOINT_KEY.
Proof. discriminate. Qed.

(** A load touches the checkpoint key only. *)
Lemma loadCheckpoint_other_key (ls : localStorage) (k : string) :
  k <> LEVEL_CHECKPOINT_KEY -> fst (loadCheckpoint ls) !! k = ls !! k.
Proof.
  intros Hk.
  destruct (loadCheckpoint_cases ls) as [[-> _]|[[-> _]|(data & q & _ & _ & _ & ->)]];
    cbn [fst]; try reflexivity.
  now apply lookup_delete_ne.
Qed.

Lemma saveUnlockedLevelIfHigher_other_key (now q : Q) (ls : localStorage)
    (k : string) :
  k <> LEVEL_CHECKPOINT_KEY ->
  saveUnlockedLevelIfHigher now q ls !! k = ls !! k.
Proof.
  intros Hk.
  destruct (saveUnlockedLevelIfHigher_cases now q ls) as [[_ ->]|[_ ->]].
  - rewrite lookup_insert_ne by congruence. now apply loadCheckpoint_other_key.
  - now apply loadCheckpoint_other_key.
Qed.

Lemma saveHighScore_other_key (mode : GameMode) (score : Q) (ls : localStorage)
    (k : string) :
  k <> SCORE_STORAGE_KEY -> fst (saveHighScore mode score ls) !! k = ls !! k.
Proof.
  intros Hk. unfold saveHighScore.
  destruct (gt (Fin score) (getHighScore mode ls)); [|reflexivity].
  destruct (if absent (ls !! SCORE_STORAGE_KEY) then Some (Object ∅)
            else ls !! SCORE_STORAGE_KEY ≫= JSON_parse); [|reflexivity].
  cbn [fst]. now rewrite lookup_insert_ne by congruence.
Qed.

(** Each reader looks at its own key only. *)
Lemma getHighScore_ext (mode : GameMode) (ls ls' : localStorage) :
  ls' !! SCORE_STORAGE_KEY = ls !! SCORE_STORAGE_KEY ->
  getHighScore mode ls' = getHighScore mode ls.
Proof. intros H. unfold getHighScore. now rewrite H. Qed.

Lemma loadCheckpoint_ext (ls ls' : localStorage) :
  ls' !! LEVEL_CHECKPOINT_KEY = ls !! LEVEL_CHECKPOINT_KEY ->
  snd (loadCheckpoint ls') = snd (loadCheckpoint ls).
Proof.
  intros H. unfold loadCheckpoint. rewrite H.
  destruct (absent (ls !! LEVEL_CHECKPOINT_KEY)); [reflexivity|].
  destruct (ls !! LEVEL_CHECKPOINT_KEY ≫= JSON_parse) as [data|]; [|reflexivity].
  now destruct (negb _ || _).
Qed.

(** A load on a record just written returns it and keeps it. *)
Lemma loadCheckpoint_after_write (n : Z) (now : Q) (ls : localStorage) :
  (1 <= n)%Z ->
  loadCheckpoint
    (<[LEVEL_CHECKPOINT_KEY :=
         JSON_stringify (makeCheckpointPayload (inject_Z n) now)]> ls)
    = (<[LEVEL_CHECKPOINT_KEY :=
           JSON_stringify (makeCheckpointPayload (inject_Z n) now)]> ls,
       makeCheckpointPayload (inject_Z n) now).
Proof.
  intros Hn. unfold loadCheckpoint.
  rewrite lookup_insert_eq, stringify_makeCheckpointPayload.
  cbn [absent JSON_parse mbind option_bind].
  rewrite prop_makeCheckpointPayload, Qfloor_inject_Z.
  rewrite (Z.max_r 1 n) by exact Hn.
  cbn [floor isFinite negb orb lt]. rewrite Qfloor_inject_Z.
  assert (Hlt : Qlt_bool (inject_Z n) 1 = false).
  { unfold Qlt_bool. apply negb_false_iff, Qle_bool_iff.
    change 1%Q with (inject_Z 1). now rewrite <- Zle_Qle. }
  now rewrite Hlt.
Qed.

(** The level a load reports after one call, in closed form. *)
Lemma persistedLevel_save (now q : Q) (ls : localStorage) :
  persistedLevel (saveUnlockedLevelIfHigher now q ls)
    = if lt (persistedLevel ls) (Fin (inject_Z (Z.max 1 (Qfloor q + 1))))
      then Fin (inject_Z (Z.max 1 (Qfloor q + 1)))
      else persistedLevel ls.
Proof.
  destruct (saveUnlockedLevelIfHigher_cases now q ls) as [[-> ->]|[-> ->]].
  - apply persistedLevel_after_write. lia.
  - apply persistedLevel_after_load.
Qed.

(** What any call leaves behind is a storage a load accepts as it is. *)
Lemma saveUnlockedLevelIfHigher_settled (now q : Q) (ls : localStorage) :
  fst (loadCheckpoint (saveUnlockedLevelIfHigher now q ls))
    = saveUnlockedLevelIfHigher now q ls.
Proof.
  destruct (saveUnlockedLevelIfHigher_cases now q ls) as [[_ ->]|[_ ->]].
  - rewrite loadCheckpoint_after_write by lia. reflexivity.
  - now rewrite loadCheckpoint_idem.
Qed.

Lemma lt_Fin_false (a b : Q) : lt (Fin a) (Fin b) = false <-> (b <= a)%Q.
Proof.
  rewrite <- not_true_iff_false, lt_Fin. split.
  - apply Qnot_lt_le.
  - intros H H'. exact (Qlt_not_le _ _ H' H).
Qed.

Lemma getHighScore_not_NaN (mode : GameMode) (ls : localStorage) :
  getHighScore mode ls <> NaN.
Proof.
  unfold getHighScore. destruct (absent _); [discriminate|].
  destruct (_ ≫= _) as [scores|]; [|discriminate].
  unfold or. destruct (prop scores (modeKey mode)); cbn; try discriminate.
  destruct (negb _); discriminate.
Qed.

Lemma le_refl_number (n : number) : n <> NaN -> le n n = true.
Proof.
  destruct n; try reflexivity; [congruence|].
  intros _. apply le_Fin, Qle_refl.
Qed.

(** The checkpoint key after a call depends on that key alone. *)
Lemma saveUnlockedLevelIfHigher_ext (now q : Q) (ls ls' : localStorage) :
  ls' !! LEVEL_CHECKPOINT_KEY = ls !! LEVEL_CHECKPOINT_KEY ->
  saveUnlockedLevelIfHigher now q ls' !! LEVEL_CHECKPOINT_KEY
    = saveUnlockedLevelIfHigher now q ls !! LEVEL_CHECKPOINT_KEY.
Proof.
  intros H. unfold saveUnlockedLevelIfHigher, loadCheckpoint. rewrite H.
  destruct (absent (ls !! LEVEL_CHECKPOINT_KEY)).
  - destruct (le _ _); [exact H|]. now rewrite !lookup_insert_eq.
  - destruct (ls !! LEVEL_CHECKPOINT_KEY ≫= JSON_parse) as [data|].
    + destruct (negb _ || _); (destruct (le _ _);
        [rewrite ?lookup_delete_eq; try exact H; reflexivity
        |now rewrite !lookup_insert_eq]).
    + destruct (le _ _); [now rewrite !lookup_delete_eq
                         |now rewrite !lookup_insert_eq].
Qed.

(** The score key after a call depends on that key alone. *)
Lemma saveHighScore_ext (mode : GameMode) (score : Q) (ls ls' : localStorage) :
  ls' !! SCORE_STORAGE_KEY = ls !! SCORE_STORAGE_KEY ->
  fst (saveHighScore mode score ls') !! SCORE_STORAGE_KEY
    = fst (saveHighScore mode score ls) !! SCORE_STORAGE_KEY /\
  snd (saveHighScore mode score ls') = snd (saveHighScore mode score ls).
Proof.
  intros H. unfold saveHighScore. rewrite (getHighScore_ext mode ls ls' H), H.
  destruct (gt (Fin score) (getHighScore mode ls)); [|now split].
  destruct (if absent (ls !! SCORE_STORAGE_KEY) then Some (Object ∅)
            else ls !! SCORE_STORAGE_KEY ≫= JSON_parse); [|now split].
  cbn [fst snd]. now rewrite !lookup_insert_eq.
Qed.

Lemma modeKey_inj (m m' : GameMode) : modeKey m = modeKey m' -> m = m'.
Proof. destruct m, m'; intros H; reflexivity || discriminate H. Qed.

(** The high score read back right after a write. *)
Lemma getHighScore_after_write (mode : GameMode) (score : Q)
    (scores : value) (ls : localStorage) :
  getHighScore mode
    (<[SCORE_STORAGE_KEY :=
         JSON_stringify (assign (modeKey mode) (Fin score) scores)]> ls)
    = match scores with
      | Object _ => or (Fin score) (Fin 0)
      | Array _ => Fin 0
      end.
Proof.
  unfold getHighScore. rewrite lookup_insert_eq.
  destruct scores as [o|a];
    cbn [absent assign JSON_stringify mbind option_bind JSON_parse prop];
    [|reflexivity].
  now rewrite lookup_fmap, lookup_insert_eq.
Qed.

(** The two outcomes of [saveHighScore]. *)
Lemma saveHighScore_cases (mode : GameMode) (score : Q) (ls : localStorage) :
  (exists scores,
     gt (Fin score) (getHighScore mode ls) = true /\
     (if absent (ls !! SCORE_STORAGE_KEY) then Some (Object ∅)
      else ls !! SCORE_STORAGE_KEY ≫= JSON_parse) = Some scores /\
     saveHighScore mode score ls
       = (<[SCORE_STORAGE_KEY :=
              JSON_stringify (assign (modeKey mode) (Fin score) scores)]> ls,
          true)) \/
  ((gt (Fin score) (getHighScore mode ls) = false \/ scoresUsable ls = false) /\
   saveHighScore mode score ls = (ls, false)).
Proof.
  unfold saveHighScore, scoresUsable.
  destruct (gt (Fin score) (getHighScore mode ls)); [|right; auto].
  destruct (ls !! SCORE_STORAGE_KEY) as [[| |o]|];
    cbn [absent mbind option_bind JSON_parse]; eauto.
Qed.

(** The mount effect of the menu in terms of the level a load reports. *)
Lemma mount_eq (ls : localStorage) :
  MainMenu.mount ls
    = (fst (loadCheckpoint ls),
       if gt (persistedLevel ls) (Fin 1)
       then (persistedLevel ls, true) else (Fin 1, false)).
Proof.
  unfold MainMenu.mount, persistedLevel.
  destruct (loadCheckpoint ls) as [s1 cp]. cbn [fst snd].
  now destruct (gt _ _).
Qed.

(** The menu after level [n] has been cleared. *)
Lemma mount_after_clear (now : Q) (n : Z) (ls : localStorage) :
  (1 <= n)%Z ->
  snd (snd (MainMenu.mount (saveUnlockedLevelIfHigher now (inject_Z n) ls)))
    = true /\
  le (Fin (inject_Z (n + 1)))
     (fst (snd (MainMenu.mount
                  (saveUnlockedLevelIfHigher now (inject_Z n) ls)))) = true /\
  (lt (persistedLevel ls) (Fin (inject_Z (n + 1))) = true ->
   fst (snd (MainMenu.mount (saveUnlockedLevelIfHigher now (inject_Z n) ls)))
     = Fin (inject_Z (n + 1))).
Proof.
  intros Hn. rewrite mount_eq. cbn [fst snd].
  rewrite persistedLevel_save, Qfloor_inject_Z.
  rewrite (Z.max_r 1 (n + 1)) by lia.
  destruct (persistedLevel_finite ls) as (p & -> & _).
  assert (H2 : gt (Fin (inject_Z (n + 1))) (Fin 1) = true).
  { unfold gt. apply lt_Fin. change 1%Q with (inject_Z 1).
    rewrite <- Zlt_Qlt. lia. }
  destruct (lt (Fin p) (Fin (inject_Z (n + 1)))) eqn:Hlt.
  - rewrite H2. cbn [fst snd]. split; [reflexivity|].
    split; [apply le_Fin, Qle_refl|reflexivity].
  - apply lt_Fin_false in Hlt.
    assert (H3 : gt (Fin p) (Fin 1) = true).
    { unfold gt in *. apply lt_Fin. apply lt_Fin in H2.
      eapply Qlt_le_trans; eassumption. }
    rewrite H3. cbn [fst snd]. split; [reflexivity|].
    split; [now apply le_Fin|discriminate].
Qed.

Lemma or_zero_ge (score : Q) : le (Fin score) (or (Fin score) (Fin 0)) = true.
Proof.
  unfold or. cbn [truthy]. destruct (Qeq_bool score 0) eqn:E; cbn [negb].
  - apply le_Fin. apply Qeq_bool_iff in E. rewrite E. apply Qle_refl.
  - apply le_Fin, Qle_refl.
Qed.

Lemma le_trans_number (a b c : number) :
  le a b = true -> le b c = true -> le a c = true.
Proof.
  destruct a, b, c; cbn [le]; try congruence.
  rewrite !Qle_bool_iff. apply Qle_trans.
Qed.

Lemma lt_le_number (a b : number) : lt a b = true -> le a b = true.
Proof.
  destruct a, b; cbn [lt le]; try congruence.
  rewrite Qlt_bool_iff, Qle_bool_iff. apply Qlt_le_weak.
Qed.

Lemma not_lt_le_number (a b : number) :
  a <> NaN -> b <> NaN -> lt a b = false -> le b a = true.
Proof.
  destruct a, b; cbn [lt le]; try congruence.
  intros _ _. unfold Qlt_bool. now rewrite negb_false_iff.
Qed.

End storageMore.

Module storageExtras.

Import JS storageService storageFacts storageMore.

(** X1.  [getResumeLevel] returns the level a load reports and leaves the
    storage as that load leaves it.  The level is always a finite number,
    at least 1, and it is 1 whenever the load answered with the default
    payload (no record, or a record it discarded). *)
Theorem getResumeLevel_reports_level (ls : localStorage) :
  getResumeLevel ls = (fst (loadCheckpoint ls), persistedLevel ls) /\
  (exists q, snd (getResumeLevel ls) = Fin q /\ (1 <= q)%Q) /\
  (snd (loadCheckpoint ls) = defaultCheckpoint ->
     snd (getResumeLevel ls) = Fin 1).
Proof.
  assert (E : getResumeLevel ls = (fst (loadCheckpoint ls), persistedLevel ls)).
  { unfold getResumeLevel.
    destruct (persistedLevel_finite ls) as (p & Hp & Hp1).
    unfold persistedLevel in *.
    destruct (loadCheckpoint ls) as [ls1 cp]. cbn [fst snd] in *.
    rewrite Hp. unfold or. rewrite (truthy_ge_1 p Hp1). cbn [max].
    apply Qfloor_ge_1, Qle_bool_iff in Hp1. now rewrite Hp1. }
  split; [exact E|]. rewrite E. cbn [snd]. split.
  - destruct (persistedLevel_finite ls) as (p & Hp & Hp1).
    exists p. split; [exact Hp|]. now apply Qfloor_ge_1.
  - intros Hd. unfold persistedLevel. now rewrite Hd.
Qed.

Lemma getResumeLevel_reports_level_witness :
  snd (getResumeLevel corruptCheckpointStorage) = Fin 1 /\
  getResumeLevel level5Storage = (level5Storage, Fin 5).
Proof.
  pose proof (getResumeLevel_reports_level corruptCheckpointStorage)
    as (_ & _ & H).
  pose proof (getResumeLevel_reports_level level5Storage) as (H5 & _).
  split; [apply H; reflexivity|]. rewrite H5. reflexivity.
Defined.

(** X2.  After [clearCheckpoint] a load finds no record and answers with
    the default payload, the resume level is 1, and the high scores are
    what they were.  Clearing twice is clearing once.  Whatever was stored
    before, the first level cleared afterwards sets the reported level to
    [max 1 (floor levelJustCleared + 1)]. *)
Theorem clearCheckpoint_resets (ls : localStorage) :
  loadCheckpoint (clearCheckpoint ls) = (clearCheckpoint ls, defaultCheckpoint) /\
  getResumeLevel (clearCheckpoint ls) = (clearCheckpoint ls, Fin 1) /\
  (forall mode, getHighScore mode (clearCheckpoint ls) = getHighScore mode ls) /\
  clearCheckpoint (clearCheckpoint ls) = clearCheckpoint ls /\
  (forall now q,
     persistedLevel (saveUnlockedLevelIfHigher now q (clearCheckpoint ls))
       = Fin (inject_Z (Z.max 1 (Qfloor q + 1)))).
Proof.
  assert (E : loadCheckpoint (clearCheckpoint ls)
              = (clearCheckpoint ls, defaultCheckpoint)).
  { unfold loadCheckpoint, clearCheckpoint. now rewrite lookup_delete_eq. }
  assert (P : persistedLevel (clearCheckpoint ls) = Fin 1).
  { unfold persistedLevel. now rewrite E. }
  split; [exact E|]. split; [|split; [|split]].
  - unfold getResumeLevel. now rewrite E.
  - intros mode. apply getHighScore_ext. unfold clearCheckpoint.
    apply lookup_delete_ne. intros H. symmetry in H. now apply keys_differ in H.
  - unfold clearCheckpoint. apply delete_delete_eq.
  - intros now q. rewrite persistedLevel_save, P.
    destruct (lt (Fin 1) (Fin (inject_Z (Z.max 1 (Qfloor q + 1))))) eqn:Hlt;
      [reflexivity|].
    apply lt_Fin_false in Hlt. change 1%Q with (inject_Z 1) in Hlt.
    rewrite <- Zle_Qle in Hlt.
    replace (Z.max 1 (Qfloor q + 1)) with 1%Z by lia. reflexivity.
Qed.

(** X3.  [saveUnlockedLevelIfHigher] is idempotent: a second call with the
    same argument, at any later clock reading, changes nothing.  What a
    call leaves behind is a storage whose record, if any, a load accepts:
    the load returns it and removes nothing. *)
Theorem saveUnlockedLevelIfHigher_idempotent (now now' q : Q)
    (ls : localStorage) :
  saveUnlockedLevelIfHigher now' q (saveUnlockedLevelIfHigher now q ls)
    = saveUnlockedLevelIfHigher now q ls /\
  fst (loadCheckpoint (saveUnlockedLevelIfHigher now q ls))
    = saveUnlockedLevelIfHigher now q ls.
Proof.
  split; [|apply saveUnlockedLevelIfHigher_settled].
  set (ls1 := saveUnlockedLevelIfHigher now q ls).
  destruct (saveUnlockedLevelIfHigher_cases now' q ls1) as [[Hlt _]|[_ ->]];
    [|apply saveUnlockedLevelIfHigher_settled].
  exfalso. unfold ls1 in Hlt. rewrite persistedLevel_save in Hlt.
  destruct (lt (persistedLevel ls) _) eqn:E.
  - apply lt_Fin in Hlt. now apply Qlt_irrefl in Hlt.
  - congruence.
Qed.

(** X4.  Two calls of [saveUnlockedLevelIfHigher] commute as far as the
    reported level goes: whatever the order and the clock readings, a load
    afterwards reports the same level, which is the larger of the two
    written values when it exceeds the level reported before. *)
Theorem saveUnlockedLevelIfHigher_commutes (t1 t2 t3 t4 a b : Q)
    (ls : localStorage) :
  persistedLevel
    (saveUnlockedLevelIfHigher t2 b (saveUnlockedLevelIfHigher t1 a ls))
  = persistedLevel
      (saveUnlockedLevelIfHigher t4 a (saveUnlockedLevelIfHigher t3 b ls)) /\
  (lt (persistedLevel ls)
      (Fin (inject_Z (Z.max (Z.max 1 (Qfloor a + 1)) (Z.max 1 (Qfloor b + 1)))))
     = true ->
   persistedLevel
     (saveUnlockedLevelIfHigher t2 b (saveUnlockedLevelIfHigher t1 a ls))
   = Fin (inject_Z (Z.max (Z.max 1 (Qfloor a + 1)) (Z.max 1 (Qfloor b + 1))))).
Proof.
  rewrite !persistedLevel_save.
  destruct (persistedLevel_finite ls) as (p & -> & _).
  set (na := Z.max 1 (Qfloor a + 1)). set (nb := Z.max 1 (Qfloor b + 1)).
  assert (Hz : forall x y, lt (Fin (inject_Z x)) (Fin (inject_Z y)) = true
                           <-> (x < y)%Z).
  { intros x y. rewrite lt_Fin. now rewrite <- Zlt_Qlt. }
  assert (Hzf : forall x y, lt (Fin (inject_Z x)) (Fin (inject_Z y)) = false
                            <-> (y <= x)%Z).
  { intros x y. rewrite lt_Fin_false. now rewrite <- Zle_Qle. }
  destruct (lt (Fin p) (Fin (inject_Z na))) eqn:Ha;
    destruct (lt (Fin p) (Fin (inject_Z nb))) eqn:Hb;
    rewrite ?Ha, ?Hb.
  - destruct (lt (Fin (inject_Z na)) (Fin (inject_Z nb))) eqn:Hab;
      destruct (lt (Fin (inject_Z nb)) (Fin (inject_Z na))) eqn:Hba.
    + apply Hz in Hab, Hba. lia.
    + apply Hz in Hab. split; [reflexivity|]. intros _.
      now rewrite Z.max_r by lia.
    + apply Hz in Hba. split; [reflexivity|]. intros _.
      now rewrite Z.max_l by lia.
    + apply Hzf in Hab, Hba. assert (E : na = nb) by lia. rewrite E.
      split; [reflexivity|]. intros _. now rewrite Z.max_id.
  - assert (Hab : lt (Fin (inject_Z na)) (Fin (inject_Z nb)) = false).
    { apply lt_Fin_false. apply lt_Fin in Ha. apply lt_Fin_false in Hb.
      apply Qlt_le_weak. eapply Qle_lt_trans; eassumption. }
    rewrite Hab. split; [reflexivity|]. intros _.
    apply Hzf in Hab. now rewrite Z.max_l by lia.
  - assert (Hba : lt (Fin (inject_Z nb)) (Fin (inject_Z na)) = false).
    { apply lt_Fin_false. apply lt_Fin in Hb. apply lt_Fin_false in Ha.
      apply Qlt_le_weak. eapply Qle_lt_trans; eassumption. }
    rewrite Hba. split; [reflexivity|]. intros _.
    apply Hzf in Hba. now rewrite Z.max_r by lia.
  - split; [reflexivity|]. intros Hlt. exfalso.
    destruct (Z.max_spec na nb) as [[_ E]|[_ E]]; rewrite E in Hlt; congruence.
Qed.

Lemma saveUnlockedLevelIfHigher_commutes_witness :
  persistedLevel
    (saveUnlockedLevelIfHigher 2001 6 (saveUnlockedLevelIfHigher 2000 8 level5Storage))
  = Fin 9.
Proof.
  pose proof (saveUnlockedLevelIfHigher_commutes 2000 2001 0 0 8 6 level5Storage)
    as (_ & H).
  apply H. reflexivity.
Defined.

(** X5.  The checkpoint and the high scores live under different keys and
    never disturb each other: a checkpoint save or load leaves every high
    score as it was, a high-score save leaves the payload a load returns as
    it was, and a checkpoint save and a high-score save commute. *)
Theorem checkpoint_and_scores_independent (mode : GameMode) (now q score : Q)
    (ls : localStorage) :
  getHighScore mode (saveUnlockedLevelIfHigher now q ls) = getHighScore mode ls /\
  getHighScore mode (fst (loadCheckpoint ls)) = getHighScore mode ls /\
  getHighScore mode (clearCheckpoint ls) = getHighScore mode ls /\
  snd (loadCheckpoint (fst (saveHighScore mode score ls)))
    = snd (loadCheckpoint ls) /\
  saveUnlockedLevelIfHigher now q (fst (saveHighScore mode score ls))
    = fst (saveHighScore mode score (saveUnlockedLevelIfHigher now q ls)).
Proof.
  assert (Hne : LEVEL_CHECKPOINT_KEY <> SCORE_STORAGE_KEY).
  { intros H. symmetry in H. now apply keys_differ in H. }
  split; [|split; [|split; [|split]]].
  - apply getHighScore_ext.
    apply saveUnlockedLevelIfHigher_other_key, keys_differ.
  - apply getHighScore_ext. apply loadCheckpoint_other_key, keys_differ.
  - apply getHighScore_ext. unfold clearCheckpoint.
    now apply lookup_delete_ne.
  - apply loadCheckpoint_ext. now apply saveHighScore_other_key.
  - apply map_eq. intros k.
    destruct (decide (k = LEVEL_CHECKPOINT_KEY)) as [->|Hk1].
    + rewrite saveHighScore_other_key by exact Hne.
      apply saveUnlockedLevelIfHigher_ext.
      now apply saveHighScore_other_key.
    + rewrite saveUnlockedLevelIfHigher_other_key by exact Hk1.
      destruct (decide (k = SCORE_STORAGE_KEY)) as [->|Hk2].
      * symmetry. apply saveHighScore_ext.
        apply saveUnlockedLevelIfHigher_other_key, keys_differ.
      * rewrite !saveHighScore_other_key by exact Hk2.
        now rewrite saveUnlockedLevelIfHigher_other_key.
Qed.

(** X6.  The effect of the game-over screen.  With no score record, or one
    that holds a plain object, the new-record flag says whether the final
    score strictly exceeds the stored best of the mode, the best score shown
    is neither below the final score nor below the best stored before, and
    running the effect again with the same mode and score flags no record
    and shows the same best.  With a score record that does not parse
    nothing is stored, no record is flagged and the best shown is 0,
    whatever the score.  With a score record that holds an array every
    score above 0 is flagged as a new record, the array is written back and
    the best shown is 0. *)
Theorem gameOver_effect_best (mode : GameMode) (score : Q) (ls : localStorage) :
  (scoresKept ls = true ->
     fst (snd (GameOver.effect mode score ls))
       = gt (Fin score) (getHighScore mode ls) /\
     le (Fin score) (snd (snd (GameOver.effect mode score ls))) = true /\
     le (getHighScore mode ls) (snd (snd (GameOver.effect mode score ls)))
       = true /\
     GameOver.effect mode score (fst (GameOver.effect mode score ls))
       = (fst (GameOver.effect mode score ls),
          (false, snd (snd (GameOver.effect mode score ls))))) /\
  (scoresUsable ls = false ->
     GameOver.effect mode score ls = (ls, (false, Fin 0))) /\
  (forall a,
     ls !! SCORE_STORAGE_KEY = Some (Document (Array a)) ->
     GameOver.effect mode score ls
       = if gt (Fin score) (Fin 0)
         then (<[SCORE_STORAGE_KEY := Document (Array (jsonNumber <$> a))]> ls,
               (true, Fin 0))
         else (ls, (false, Fin 0))).
Proof.
  unfold GameOver.effect.
  split; [|split].
  - intros Hk.
    destruct (saveHighScore_cases mode score ls)
      as [(scores & Hgt & Hparse & ->)|[Hno ->]]; cbn [fst snd].
    + assert (Ho : exists o, scores = Object o).
      { unfold scoresKept in Hk.
        destruct (ls !! SCORE_STORAGE_KEY) as [[| |[o|a]]|];
          try discriminate Hk;
          cbn [absent mbind option_bind JSON_parse] in Hparse;
          injection Hparse as <-; eauto. }
      destruct Ho as [o ->].
      rewrite getHighScore_after_write.
      split; [now rewrite Hgt|]. split; [apply or_zero_ge|].
      split.
      * eapply le_trans_number; [|apply or_zero_ge].
        apply lt_le_number. exact Hgt.
      * assert (Hagain : gt (Fin score) (or (Fin score) (Fin 0)) = false).
        { unfold gt, or. cbn [truthy].
          destruct (Qeq_bool score 0) eqn:E; cbn [negb]; apply lt_Fin_false.
          - apply Qeq_bool_iff in E. rewrite E. apply Qle_refl.
          - apply Qle_refl. }
        unfold saveHighScore. rewrite getHighScore_after_write, Hagain.
        cbn [fst snd]. now rewrite getHighScore_after_write.
    + assert (Hgt : gt (Fin score) (getHighScore mode ls) = false).
      { destruct Hno as [Hno|Hno]; [exact Hno|].
        unfold scoresKept in Hk. unfold scoresUsable in Hno.
        destruct (ls !! SCORE_STORAGE_KEY) as [[| |[o|a]]|]; congruence. }
      split; [now rewrite Hgt|].
      split; [|split].
      * apply not_lt_le_number;
          [apply getHighScore_not_NaN|discriminate|exact Hgt].
      * apply le_refl_number, getHighScore_not_NaN.
      * unfold saveHighScore. now rewrite Hgt.
  - intros Hu.
    assert (E : ls !! SCORE_STORAGE_KEY = Some Corrupt).
    { unfold scoresUsable in Hu.
      destruct (ls !! SCORE_STORAGE_KEY) as [[| |o]|]; congruence. }
    assert (H0 : getHighScore mode ls = Fin 0).
    { unfold getHighScore. now rewrite E. }
    unfold saveHighScore. rewrite H0, E.
    cbn [absent mbind option_bind JSON_parse].
    destruct (gt (Fin score) (Fin 0)); now rewrite H0.
  - intros a Ha. unfold saveHighScore.
    assert (H0 : getHighScore mode ls = Fin 0).
    { unfold getHighScore. now rewrite Ha. }
    rewrite H0, Ha.
    cbn [absent mbind option_bind JSON_parse assign JSON_stringify].
    destruct (gt (Fin score) (Fin 0)); [|now rewrite H0].
    unfold getHighScore. now rewrite lookup_insert_eq.
Qed.

Lemma gameOver_effect_best_witness :
  fst (snd (GameOver.effect INFINITE 500 emptyStorage)) = true /\
  le (Fin 500) (snd (snd (GameOver.effect INFINITE 500 emptyStorage))) = true /\
  GameOver.effect LEVELS_MODE 500 {[ SCORE_STORAGE_KEY := Corrupt ]}
    = ({[ SCORE_STORAGE_KEY := Corrupt ]}, (false, Fin 0)) /\
  GameOver.effect INFINITE 500 arrayScoresStorage
    = (arrayScoresStorage, (true, Fin 0)).
Proof.
  pose proof (gameOver_effect_best INFINITE 500 emptyStorage) as (H & _ & _).
  pose proof (gameOver_effect_best LEVELS_MODE 500
                {[ SCORE_STORAGE_KEY := Corrupt ]}) as (_ & Hc & _).
  pose proof (gameOver_effect_best INFINITE 500 arrayScoresStorage)
    as (_ & _ & Ha).
  destruct (H eq_refl) as (H1 & H2 & _).
  split; [rewrite H1; reflexivity|]. split; [exact H2|].
  split; [apply Hc; reflexivity|].
  rewrite (Ha [] eq_refl). reflexivity.
Defined.

(** X7.  A high-score save for one mode leaves the high score of the other
    mode as it was, provided that one is finite (which it is unless the
    stored text held an overflowing literal).  A stored infinity for the
    other mode does not survive a write: it is serialised as null and reads
    back as 0. *)
Theorem saveHighScore_other_mode (mode mode' : GameMode) (score : Q)
    (ls : localStorage) :
  mode <> mode' ->
  (isFinite (getHighScore mode' ls) = true ->
     getHighScore mode' (fst (saveHighScore mode score ls))
       = getHighScore mode' ls) /\
  (isFinite (getHighScore mode' ls) = false ->
   snd (saveHighScore mode score ls) = true ->
     getHighScore mode' (fst (saveHighScore mode score ls)) = Fin 0).
Proof.
  intros Hm.
  assert (Hk : modeKey mode <> modeKey mode').
  { intros H. now apply modeKey_inj in H. }
  destruct (saveHighScore_cases mode score ls)
    as [(scores & _ & Hparse & ->)|[_ ->]]; cbn [fst snd].
  2:{ split; [reflexivity|discriminate]. }
  destruct scores as [scores|a].
  2:{ assert (Hbefore : getHighScore mode' ls = Fin 0).
      { unfold getHighScore.
        destruct (ls !! SCORE_STORAGE_KEY) as [[| |[o|a']]|];
          cbn [absent mbind option_bind JSON_parse] in *;
          try discriminate Hparse; reflexivity. }
      assert (Hafter :
        getHighScore mode'
          (<[SCORE_STORAGE_KEY :=
               JSON_stringify (assign (modeKey mode) (Fin score) (Array a))]> ls)
        = Fin 0).
      { unfold getHighScore. now rewrite lookup_insert_eq. }
      rewrite Hafter, Hbefore. split; intros; reflexivity. }
  assert (Hafter :
    getHighScore mode'
      (<[SCORE_STORAGE_KEY :=
           JSON_stringify (assign (modeKey mode) (Fin score) (Object scores))]> ls)
    = or (default NaN (jsonNumber <$> scores !! modeKey mode')) (Fin 0)).
  { unfold getHighScore. rewrite lookup_insert_eq.
    cbn [absent assign JSON_stringify mbind option_bind JSON_parse prop].
    now rewrite lookup_fmap, lookup_insert_ne by exact Hk. }
  assert (Hbefore :
    getHighScore mode' ls = or (default NaN (scores !! modeKey mode')) (Fin 0)).
  { unfold getHighScore.
    destruct (ls !! SCORE_STORAGE_KEY) as [[| |[o|a]]|];
      cbn [absent mbind option_bind JSON_parse] in *;
      try discriminate Hparse; injection Hparse as <-;
      reflexivity || (cbn [prop]; now rewrite lookup_empty). }
  rewrite Hafter, Hbefore.
  destruct (scores !! modeKey mode') as [[| | |v]|]; cbn;
    split; intros; try reflexivity; try discriminate.
  exfalso.
    match goal with
    | H : isFinite _ = false |- _ =>
        unfold or in H; cbn in H; destruct (Qeq_bool v 0); discriminate H
    end.
Qed.

Lemma saveHighScore_other_mode_witness :
  getHighScore LEVELS_MODE
    (fst (saveHighScore INFINITE 500
            {[ SCORE_STORAGE_KEY := Document (Object {[ "LEVELS" := Fin 70 ]}) ]}))
    = Fin 70 /\
  getHighScore LEVELS_MODE
    (fst (saveHighScore INFINITE 500
            {[ SCORE_STORAGE_KEY := Document (Object {[ "LEVELS" := PosInf ]}) ]}))
    = Fin 0.
Proof.
  pose proof (saveHighScore_other_mode INFINITE LEVELS_MODE 500
                {[ SCORE_STORAGE_KEY := Document (Object {[ "LEVELS" := Fin 70 ]}) ]})
    as H1.
  pose proof (saveHighScore_other_mode INFINITE LEVELS_MODE 500
                {[ SCORE_STORAGE_KEY := Document (Object {[ "LEVELS" := PosInf ]}) ]})
    as H2.
  split.
  - destruct H1 as [H _]; [discriminate|]. rewrite H; reflexivity.
  - destruct H2 as [_ H]; [discriminate|]. apply H; reflexivity.
Defined.

(** X8.  The menu on mount offers Continue exactly when the level a load
    reports exceeds 1, and then at that level; otherwise its continue level
    is 1.  Once any level n >= 1 has been cleared the menu offers Continue,
    at level n + 1 or higher.  After [confirmRestart] the storage holds no
    checkpoint, the state the handler sets is the one a fresh mount would
    compute, and the session is started at level 1 of the level mode.
    Continue always starts the level mode at a finite level of at least 1,
    and a new-game request starts nothing (it asks for confirmation first)
    exactly when Continue is on offer. *)
Theorem menu_continue_level (ls : localStorage) :
  fst (MainMenu.mount ls) = fst (loadCheckpoint ls) /\
  snd (snd (MainMenu.mount ls)) = gt (persistedLevel ls) (Fin 1) /\
  (snd (snd (MainMenu.mount ls)) = true ->
     fst (snd (MainMenu.mount ls)) = persistedLevel ls) /\
  (snd (snd (MainMenu.mount ls)) = false ->
     fst (snd (MainMenu.mount ls)) = Fin 1) /\
  (forall now n, (1 <= n)%Z ->
     snd (snd (MainMenu.mount (saveUnlockedLevelIfHigher now (inject_Z n) ls)))
       = true /\
     le (Fin (inject_Z (n + 1)))
        (fst (snd (MainMenu.mount
                     (saveUnlockedLevelIfHigher now (inject_Z n) ls)))) = true) /\
  MainMenu.mount (fst (fst (MainMenu.confirmRestart ls)))
    = (fst (fst (MainMenu.confirmRestart ls)),
       snd (fst (MainMenu.confirmRestart ls))) /\
  snd (MainMenu.confirmRestart ls) = (LEVELS_MODE, Fin 1) /\
  (exists q,
     MainMenu.handleContinue (fst (snd (MainMenu.mount ls)))
       = (LEVELS_MODE, Fin q) /\ (1 <= q)%Q) /\
  (MainMenu.handleNewGameRequest (snd (snd (MainMenu.mount ls))) = None <->
   gt (persistedLevel ls) (Fin 1) = true).
Proof.
  rewrite !mount_eq. cbn [fst snd].
  split; [reflexivity|]. split; [now destruct (gt _ _)|].
  split; [destruct (gt _ _); [reflexivity|discriminate]|].
  split; [destruct (gt _ _); [discriminate|reflexivity]|].
  split; [|split; [|split; [reflexivity|split]]].
  - intros now n Hn.
    destruct (mount_after_clear now n ls Hn) as (H1 & H2 & _). now split.
  - unfold MainMenu.confirmRestart. cbn [fst snd].
    unfold persistedLevel, loadCheckpoint, clearCheckpoint.
    now rewrite lookup_delete_eq.
  - unfold MainMenu.handleContinue.
    destruct (persistedLevel_finite ls) as (p & -> & Hp).
    destruct (gt (Fin p) (Fin 1)); cbn [fst snd].
    + exists p. split; [reflexivity|]. now apply Qfloor_ge_1.
    + exists 1%Q. split; [reflexivity|]. apply Qle_refl.
  - unfold MainMenu.handleNewGameRequest.
    destruct (gt (persistedLevel ls) (Fin 1)); cbn [fst snd];
      split; congruence.
Qed.

Lemma menu_continue_level_witness :
  fst (snd (MainMenu.mount level5Storage)) = Fin 5 /\
  fst (snd (MainMenu.mount corruptCheckpointStorage)) = Fin 1 /\
  snd (snd (MainMenu.mount (saveUnlockedLevelIfHigher 2000 1 emptyStorage)))
    = true.
Proof.
  pose proof (menu_continue_level level5Storage) as (_ & _ & H5 & _).
  pose proof (menu_continue_level corruptCheckpointStorage)
    as (_ & _ & _ & Hc & _).
  pose proof (menu_continue_level emptyStorage) as (_ & _ & _ & _ & He & _).
  split; [rewrite H5; reflexivity|]. split; [apply Hc; reflexivity|].
  apply (He 2000%Q 1%Z). lia.
Defined.

End storageExtras.

(* ===================================================================== *)
(** ** The pointer pipeline, further *)
(* ===================================================================== *)

Module pointerMore.

#[local] Open Scope R_scope.

Import OneEuroFilter mapper pointerFacts filterFacts.

(** [mapLandmarkToStage] on sides that are all nonzero. *)
Lemma mapLandmarkToStage_some (mirrored : bool) (vw vh sw sh nx ny : R) :
  vw <> 0 -> vh <> 0 -> sw <> 0 -> sh <> 0 ->
  mapLandmarkToStage mirrored (Some (vw, vh)) (sw, sh) nx ny
    = Some (Point.mk
              (offsetX (getCoverRect vw vh sw sh)
               + (if mirrored then 1 - nx else nx) * vw
                 * coverScale vw vh sw sh)
              (offsetY (getCoverRect vw vh sw sh)
               + ny * vh * coverScale vw vh sw sh)).
Proof.
  intros Hvw Hvh Hsw Hsh. unfold mapLandmarkToStage.
  destruct (Req_dec_T vw 0); [contradiction|].
  destruct (Req_dec_T vh 0); [contradiction|].
  destruct (Req_dec_T sw 0); [contradiction|].
  destruct (Req_dec_T sh 0); [contradiction|].
  reflexivity.
Qed.

Lemma clamp_between (margin w v : R) :
  margin <= w - margin ->
  margin <= Rmax margin (Rmin (w - margin) v) <= w - margin.
Proof.
  intros H. unfold Rmax, Rmin.
  destruct (Rle_dec (w - margin) v); destruct (Rle_dec margin _); lra.
Qed.

Lemma clamp_inside (margin w v : R) :
  margin <= v <= w - margin -> Rmax margin (Rmin (w - margin) v) = v.
Proof.
  intros H. unfold Rmax, Rmin.
  destruct (Rle_dec (w - margin) v); destruct (Rle_dec margin _); lra.
Qed.

(** A low-pass step with a coefficient between 0 and 1 stays between the
    previous value and the new one. *)
Lemma lowPass_between (a prev value lo hi : R) :
  0 < a < 1 -> lo <= prev <= hi -> lo <= value <= hi ->
  lo <= lowPass a prev value <= hi.
Proof.
  intros Ha Hp Hv. unfold lowPass.
  assert (E : prev + a * (value - prev) = (1 - a) * prev + a * value) by ring.
  rewrite E. split; nra.
Qed.

End pointerMore.

Module pointerExtras.

#[local] Open Scope R_scope.

Import OneEuroFilter mapper pointerFacts filterFacts pointerMore GameCanvas views.



(** X12.  [clampToStage] puts both coordinates between [margin] and the
    side less [margin] whenever the side has room for two margins, leaves a
    point already there untouched, and is idempotent.  A side shorter than
    two margins pins that coordinate at [margin], whatever the input. *)
Theorem clampToStage_bounds (p : Point.t) (w h margin : R) :
  (margin <= w - margin ->
     margin <= Point.x (clampToStage p w h margin) <= w - margin) /\
  (margin <= h - margin ->
     margin <= Point.y (clampToStage p w h margin) <= h - margin) /\
  (margin <= Point.x p <= w - margin -> margin <= Point.y p <= h - margin ->
     clampToStage p w h margin = p) /\
  (margin <= w - margin -> margin <= h - margin ->
     clampToStage (clampToStage p w h margin) w h margin
       = clampToStage p w h margin) /\
  (w - margin < margin -> Point.x (clampToStage p w h margin) = margin) /\
  (h - margin < margin -> Point.y (clampToStage p w h margin) = margin).
Proof.
  unfold clampToStage. cbn [Point.x Point.y].
  split; [apply clamp_between|]. split; [apply clamp_between|].
  split; [|split; [|split]].
  - intros Hx Hy. rewrite !clamp_inside by assumption. now destruct p.
  - intros Hw Hh. f_equal; apply clamp_inside; now apply clamp_between.
  - intros Hw. unfold Rmax, Rmin.
    destruct (Rle_dec (w - margin) (Point.x p)); destruct (Rle_dec margin _); lra.
  - intros Hh. unfold Rmax, Rmin.
    destruct (Rle_dec (h - margin) (Point.y p)); destruct (Rle_dec margin _); lra.
Qed.

Lemma clampToStage_bounds_witness :
  4 <= Point.x (clampToStage (Point.mk 2000 (-30)) 1280 720 4) <= 1280 - 4 /\
  clampToStage (Point.mk 100 200) 1280 720 4 = Point.mk 100 200 /\
  Point.x (clampToStage (Point.mk 3 3) 6 720 4) = 4.
Proof.
  pose proof (clampToStage_bounds (Point.mk 2000 (-30)) 1280 720 4) as (H1 & _).
  pose proof (clampToStage_bounds (Point.mk 100 200) 1280 720 4)
    as (_ & _ & H2 & _).
  pose proof (clampToStage_bounds (Point.mk 3 3) 6 720 4)
    as (_ & _ & _ & _ & H3 & _).
  split; [apply H1; lra|]. split; [apply H2; cbn; lra|]. apply H3; lra.
Defined.

(** X13.  An [update] of a filter that holds a position never overshoots:
    with a positive base cutoff and a non-negative beta each coordinate of
    the output lies between the stored coordinate and the input, both
    included.  The filter keeps its three parameters and records the clock
    reading of the call. *)
Theorem update_no_overshoot (now nx ny fx fy : R) (f : filter) :
  x f = Some fx -> y f = Some fy -> 0 < minCutoff f -> 0 <= beta f ->
  let out := snd (update now nx ny f) in
  Rmin fx nx <= Point.x out <= Rmax fx nx /\
  Rmin fy ny <= Point.y out <= Rmax fy ny /\
  minCutoff (fst (update now nx ny f)) = minCutoff f /\
  beta (fst (update now nx ny f)) = beta f /\
  dCutoff (fst (update now nx ny f)) = dCutoff f /\
  t (fst (update now nx ny f)) = now.
Proof.
  intros Hx Hy Hmc Hb out.
  destruct (update_set now nx ny fx fy f Hx Hy Hmc Hb) as (a & _ & Ha & Hout).
  fold out in Hout. rewrite Hout. cbn [Point.x Point.y].
  assert (Hbt : forall p v, Rmin p v <= lowPass a p v <= Rmax p v).
  { intros p v. apply lowPass_between; [exact Ha| |].
    - split; [apply Rmin_l|apply Rmax_l].
    - split; [apply Rmin_r|apply Rmax_r]. }
  split; [apply Hbt|]. split; [apply Hbt|].
  unfold update. rewrite Hx, Hy. cbn. auto.
Qed.

Lemma update_no_overshoot_witness :
  Rmin 100 200 <= Point.x (snd (update 32 200 200 samples.seededFilter))
    <= Rmax 100 200.
Proof.
  destruct (update_no_overshoot 32 200 200 100 100 samples.seededFilter)
    as (H & _); [reflexivity|reflexivity|cbn; lra|cbn; lra|].
  exact H.
Defined.

(** Whatever the state, the point [applyDeadzone] returns is the new point
    or the stored one, it is less than 2.0 away from the new point, and it
    is the stable point stored afterwards; nothing else of the game state
    changes. *)
Lemma applyDeadzone_near (newPos : Point.t) (gs : GameState) :
  fst (applyDeadzone newPos gs)
    = set_lastStablePos (snd (applyDeadzone newPos gs)) gs /\
  (snd (applyDeadzone newPos gs) = newPos \/
   snd (applyDeadzone newPos gs) = lastStablePos gs) /\
  hypot (Point.x newPos - Point.x (snd (applyDeadzone newPos gs)))
        (Point.y newPos - Point.y (snd (applyDeadzone newPos gs))) < 2.
Proof.
  assert (Hz : forall a b : R, hypot (a - a) (b - b) < 2).
  { intros a b. replace (a - a) with 0 by ring. replace (b - b) with 0 by ring.
    rewrite hypot_axis; lra. }
  unfold applyDeadzone.
  destruct (Req_dec_T _ _); cbn [fst snd]; [auto|].
  destruct (Rlt_dec _ _) as [Hd|Hd]; cbn [fst snd]; [|auto].
  split; [now destruct gs|]. split; [now right|]. lra.
Qed.

(** X15.  The camera pointer stays on the stage.  On a stage at least 8
    wide and high, with a video of positive sides and the filter
    parameters of the component, a hand sample leaves the pointer at least
    4 away from every edge, provided the position the filter holds and the
    stored stable point are there already or are still unset; both are
    there afterwards, so the property carries over to the next sample.  The
    sample also marks the input as coming from the camera and records its
    time. *)
Theorem onHandResults_keeps_pointer_on_stage
    (cameraActive : bool) (vw vh sw sh : R) (tip dip : Point.t)
    (now now' : R) (w : World) :
  0 < vw -> 0 < vh -> 8 <= sw -> 8 <= sh ->
  0 < minCutoff (oneEuroFilter w) -> 0 <= beta (oneEuroFilter w) ->
  (forall fx fy,
     x (oneEuroFilter w) = Some fx -> y (oneEuroFilter w) = Some fy ->
     withinMargin (sw, sh) 4 (Point.mk fx fy)) ->
  (Point.x (lastStablePos (gameState w)) = -100 \/
   withinMargin (sw, sh) 4 (lastStablePos (gameState w))) ->
  let w' := onHandResults cameraActive (Some (vw, vh)) (sw, sh)
              (Some (tip, dip)) now now' w in
  withinMargin (sw, sh) 4 (fingerPos (gameState w')) /\
  withinMargin (sw, sh) 4 (lastStablePos (gameState w')) /\
  (exists fx fy,
     x (oneEuroFilter w') = Some fx /\ y (oneEuroFilter w') = Some fy /\
     withinMargin (sw, sh) 4 (Point.mk fx fy)) /\
  minCutoff (oneEuroFilter w') = minCutoff (oneEuroFilter w) /\
  beta (oneEuroFilter w') = beta (oneEuroFilter w) /\
  inputType (gameState w') = CAMERA /\
  lastHandTime (gameState w') = now.
Proof.
  intros Hvw Hvh Hsw Hsh Hmc Hb Hf Hs w'. subst w'. unfold onHandResults.
  rewrite mapLandmarkToStage_some by lra. cbn [fst snd].
  set (mapped := Point.mk _ _).
  set (clamped := clampToStage mapped sw sh 4).
  assert (Hc : withinMargin (sw, sh) 4 clamped).
  { unfold withinMargin, clamped, clampToStage. cbn [fst snd Point.x Point.y].
    split; apply clamp_between; lra. }
  set (w1 := modify (set_lastHandTime now) _).
  assert (Hw1 : oneEuroFilter w1 = oneEuroFilter w
                /\ lastStablePos (gameState w1) = lastStablePos (gameState w)
                /\ inputType (gameState w1) = CAMERA
                /\ lastHandTime (gameState w1) = now).
  { unfold w1. destruct (negb cameraActive); cbn; auto. }
  destruct Hw1 as (Ef & Es & Ei & Et). rewrite Ef.
  destruct (update_stores_output now' (Point.x clamped) (Point.y clamped)
              (oneEuroFilter w)) as (Hx' & Hy' & Hmc' & Hb').
  assert (Hout : withinMargin (sw, sh) 4
                   (snd (update now' (Point.x clamped) (Point.y clamped)
                           (oneEuroFilter w)))).
  { destruct (x (oneEuroFilter w)) as [fx|] eqn:Ex;
      [destruct (y (oneEuroFilter w)) as [fy|] eqn:Ey|].
    - destruct (update_set now' (Point.x clamped) (Point.y clamped) fx fy
                  (oneEuroFilter w) Ex Ey Hmc Hb) as (a & _ & Ha & ->).
      destruct (Hf fx fy eq_refl eq_refl) as [Hfx Hfy].
      destruct Hc as [Hcx Hcy]. cbn [fst snd Point.x Point.y] in *.
      split; cbn [fst snd Point.x Point.y]; now apply lowPass_between.
    - rewrite update_unset by now right. destruct clamped; exact Hc.
    - rewrite update_unset by now left. destruct clamped; exact Hc. }
  destruct (update now' (Point.x clamped) (Point.y clamped) (oneEuroFilter w))
    as [f filtered]. cbn [fst snd] in *.
  change (gameState (set_oneEuroFilter f w1)) with (gameState w1).
  assert (Hd : snd (applyDeadzone filtered (gameState w1)) = filtered \/
               (snd (applyDeadzone filtered (gameState w1))
                  = lastStablePos (gameState w1) /\
                Point.x (lastStablePos (gameState w1)) <> -100)).
  { unfold applyDeadzone. destruct (Req_dec_T _ _); [now left|].
    destruct (Rlt_dec _ _); [now right|now left]. }
  assert (Hst : withinMargin (sw, sh) 4
                  (snd (applyDeadzone filtered (gameState w1)))).
  { destruct Hd as [->|[-> Hn]]; [exact Hout|].
    rewrite Es in *. destruct Hs as [Hs|Hs]; [contradiction|exact Hs]. }
  assert (Hfs : forall gs,
            fst (applyDeadzone filtered gs)
              = set_lastStablePos (snd (applyDeadzone filtered gs)) gs).
  { intros gs. unfold applyDeadzone. destruct (Req_dec_T _ _); [reflexivity|].
    destruct (Rlt_dec _ _); [now destruct gs|reflexivity]. }
  specialize (Hfs (gameState w1)).
  destruct (applyDeadzone filtered (gameState w1)) as [gs stable].
  cbn [fst snd] in *. subst gs.
  cbn [modify set_oneEuroFilter gameState oneEuroFilter set_fingerPos
       set_lastStablePos fingerPos lastStablePos inputType lastHandTime].
  split; [exact Hst|]. split; [exact Hst|]. split.
  - exists (Point.x filtered), (Point.y filtered).
    split; [exact Hx'|]. split; [exact Hy'|]. destruct filtered; exact Hout.
  - auto.
Qed.

Lemma onHandResults_keeps_pointer_on_stage_witness :
  withinMargin (1280, 720) 4
    (fingerPos (gameState
       (onHandResults false (Some (640, 480)) (1280, 720)
          (Some (Point.mk 2 (-1), Point.mk 2 (-1))) 100 100
          (samples.worldOf samples.freshState [])))).
Proof.
  apply (onHandResults_keeps_pointer_on_stage false 640 480 1280 720
           (Point.mk 2 (-1)) (Point.mk 2 (-1)) 100 100
           (samples.worldOf samples.freshState [])); cbn; try lra.
  intros fx fy H. discriminate H.
Defined.

(** X16.  The camera has priority over the mouse.  A mouse move is ignored
    unless more than 500 ms have passed since the last hand sample; then,
    with a wrapper, it puts the pointer at the mouse position relative to
    the wrapper and marks the input as coming from the mouse, leaving the
    filter and the stable point alone.  A hand sample locks the mouse out
    for the next 500 ms whether or not the sample could be mapped to the
    stage; without a hand the callback changes nothing. *)
Theorem handleMouseMove_defers_to_camera
    (wrapper : option Point.t) (client : Point.t) (now : R) (w : World) :
  (now - lastHandTime (gameState w) <= 500 ->
     handleMouseMove wrapper client now w = w) /\
  (forall rect,
     wrapper = Some rect -> 500 < now - lastHandTime (gameState w) ->
     let w' := handleMouseMove wrapper client now w in
     fingerPos (gameState w')
       = Point.mk (Point.x client - Point.x rect) (Point.y client - Point.y rect) /\
     inputType (gameState w') = MOUSE /\
     lastStablePos (gameState w') = lastStablePos (gameState w) /\
     lastHandTime (gameState w') = lastHandTime (gameState w) /\
     oneEuroFilter w' = oneEuroFilter w) /\
  (forall cameraActive video stage hand t t',
     now - t <= 500 ->
     let w1 := onHandResults cameraActive video stage (Some hand) t t' w in
     handleMouseMove wrapper client now w1 = w1) /\
  (forall cameraActive video stage t t',
     onHandResults cameraActive video stage None t t' w = w).
Proof.
  assert (Hlock : forall w0, now - lastHandTime (gameState w0) <= 500 ->
                    handleMouseMove wrapper client now w0 = w0).
  { intros w0 H. unfold handleMouseMove. destruct wrapper; [|reflexivity].
    destruct (Rlt_dec _ _); [lra|reflexivity]. }
  split; [apply Hlock|]. split; [|split; [|reflexivity]].
  - intros rect -> H w'. subst w'. unfold handleMouseMove.
    destruct (Rlt_dec _ _); [|lra]. cbn. auto.
  - intros cameraActive video stage [tip dip] t t' H w1. apply Hlock.
    assert (E : lastHandTime (gameState w1) = t); [|rewrite E; lra].
    subst w1. unfold onHandResults.
    set (w0 := modify (set_lastHandTime t) _).
    assert (E0 : lastHandTime (gameState w0) = t).
    { unfold w0. destruct (negb cameraActive); reflexivity. }
    destruct (mapLandmarkToStage _ _ _ _ _) as [mapped|]; [|exact E0].
    destruct (update _ _ _ _) as [f filtered].
    change (gameState (set_oneEuroFilter f w0)) with (gameState w0).
    assert (Ed : forall p gs, lastHandTime (fst (applyDeadzone p gs))
                              = lastHandTime gs).
    { intros p gs. unfold applyDeadzone.
      destruct (Req_dec_T _ _); [reflexivity|].
      destruct (Rlt_dec _ _); reflexivity. }
    specialize (Ed filtered (gameState w0)).
    destruct (applyDeadzone filtered (gameState w0)) as [gs stable].
    cbn [fst] in Ed. cbn. now rewrite Ed.
Qed.

Lemma handleMouseMove_defers_to_camera_witness :
  handleMouseMove (Some (Point.mk 10 20)) (Point.mk 300 400) 400
    (samples.worldOf samples.freshState [])
    = samples.worldOf samples.freshState [] /\
  fingerPos (gameState
    (handleMouseMove (Some (Point.mk 10 20)) (Point.mk 300 400) 501
       (samples.worldOf samples.freshState [])))
    = Point.mk (300 - 10) (400 - 20).
Proof.
  pose proof (handleMouseMove_defers_to_camera (Some (Point.mk 10 20))
                (Point.mk 300 400) 400 (samples.worldOf samples.freshState []))
    as (H1 & _).
  pose proof (handleMouseMove_defers_to_camera (Some (Point.mk 10 20))
                (Point.mk 300 400) 501 (samples.worldOf samples.freshState []))
    as (_ & H2 & _).
  split.
  - apply H1. cbn. lra.
  - apply (H2 (Point.mk 10 20) eq_refl). cbn. lra.
Defined.

End pointerExtras.

(* ===================================================================== *)
(** ** The simulation, further *)
(* ===================================================================== *)

Module gameMore.

Import constants GameCanvas views gameFacts.

Section More.

Context (LEVELS : list LevelDefinition) (mode : GameMode)
        (random : nat -> R) (toString : R -> Z -> string).

Lemma unlocks_cons (e : Event) (t : list Event) :
  unlocks (e :: t)
    = match e with
      | SaveUnlockedLevelIfHigher n => n :: unlocks t
      | _ => unlocks t
      end.
Proof. now destruct e. Qed.

Lemma gameOvers_cons (e : Event) (t : list Event) :
  gameOvers (e :: t)
    = match e with OnGameOver s => s :: gameOvers t | _ => gameOvers t end.
Proof. now destruct e. Qed.

Lemma counters_createParticles (n : nat) (x y : R) (t : BubbleType) (w : World) :
  counters (createParticles random toString x y t n w) = counters w.
Proof.
  destruct (createParticles_shape random toString n x y t w) as (ps & _ & ->).
  reflexivity.
Qed.

Lemma counters_burstAll (rs : list ref) (w : World) :
  counters (burstAll random toString rs w) = counters w.
Proof.
  destruct (burstAll_shape random toString rs w) as (ps & n & _ & ->).
  reflexivity.
Qed.

Lemma counters_decayShake (w : World) : counters (decayShake random w) = counters w.
Proof.
  unfold decayShake. destruct (Rlt_dec _ _); [|reflexivity].
  cbn [nextRandom]. destruct (Rlt_dec _ _); reflexivity.
Qed.

Lemma counters_tickMessage (w : World) : counters (tickMessage w) = counters w.
Proof.
  unfold tickMessage. destruct (0 <? _)%Z; [|reflexivity].
  destruct (_ =? _)%Z; reflexivity.
Qed.

Lemma counters_spawnBubble (stage : R * R) (w w' : World) :
  spawnBubble LEVELS mode random toString stage w = Some w' ->
  counters w' = counters w.
Proof.
  unfold spawnBubble. destruct stage as [width height].
  destruct (Req_dec_T width 0); [now intros [= <-]|].
  destruct (Req_dec_T height 0); [now intros [= <-]|].
  destruct (currentLevel LEVELS (gameState w)) as [cfg|]; [|discriminate].
  cbn [mbind option_bind nextRandom]. now intros [= <-].
Qed.

(** The level-mode tail of [handlePop] on the counters. *)
Lemma levelClearCheck_counters (w w' : World) :
  levelClearCheck LEVELS random toString w = Some w' ->
  exists cfg,
    currentLevel LEVELS (gameState w) = Some cfg /\
    status (gameState w') = status (gameState w) /\
    score (gameState w') = score (gameState w) /\
    lives (gameState w') = lives (gameState w) /\
    gameOvers (trace w') = gameOvers (trace w) /\
    heap w' = heap w /\
    (((score (gameState w) < target cfg)%Z /\ w' = w) \/
     ((target cfg <= score (gameState w))%Z /\
      levelIndex (gameState w') = (levelIndex (gameState w) + 1)%Z /\
      levelScoreStart (gameState w') = score (gameState w) /\
      unlocks (trace w')
        = (levelIndex (gameState w) + 1)%Z :: unlocks (trace w) /\
      bubbles (gameState w') = [])).
Proof.
  unfold levelClearCheck.
  destruct (currentLevel LEVELS (gameState w)) as [cfg|]; [|discriminate].
  cbn [mbind option_bind]. intros H. exists cfg. split; [reflexivity|].
  destruct (Z.leb_spec (target cfg) (score (gameState w))) as [Hge|Hlt].
  - injection H as <-.
    match goal with |- context [burstAll _ _ ?rs ?w0] =>
      destruct (burstAll_shape random toString rs w0) as (ps & n & _ & ->) end.
    unfold showMessage, showToast.
    cbn [modify emit gameState heap trace set_bubbles set_particles set_message
         set_messageTimer set_levelIndex set_levelScoreStart
         status score lives levelIndex levelScoreStart bubbles particles].
    rewrite !gameOvers_cons, !unlocks_cons.
    repeat split; try reflexivity. right. repeat split; try reflexivity. exact Hge.
  - injection H as <-. repeat split; try reflexivity. left. now split.
Qed.

(** [handlePop] up to the level-clear check: the object is flagged, and the
    counters move as the category and the mode say. *)
Lemma handlePop_first_phase (r : ref) (b : BubbleEntity.t) (w : World) :
  heap w !! r = Some b ->
  exists w1,
    handlePop LEVELS mode random toString r w
      = (if decide (mode = LEVELS_MODE)
         then levelClearCheck LEVELS random toString w1 else Some w1) /\
    heap w1 = <[r := BubbleEntity.set_isPopped true b]> (heap w) /\
    levelIndex (gameState w1) = levelIndex (gameState w) /\
    levelScoreStart (gameState w1) = levelScoreStart (gameState w) /\
    unlocks (trace w1) = unlocks (trace w) /\
    ((BubbleEntity.type b = BOMB /\ mode = INFINITE /\
      status (gameState w1) = GAME_OVER /\
      score (gameState w1) = score (gameState w) /\
      lives (gameState w1) = lives (gameState w) /\
      gameOvers (trace w1) = score (gameState w) :: gameOvers (trace w)) \/
     (BubbleEntity.type b = BOMB /\ mode = LEVELS_MODE /\
      status (gameState w1) = status (gameState w) /\
      gameOvers (trace w1) = gameOvers (trace w) /\
      (((lives (gameState w) - 1 <= 0)%Z /\
        lives (gameState w1) = 3%Z /\
        score (gameState w1) = levelScoreStart (gameState w)) \/
       ((0 < lives (gameState w) - 1)%Z /\
        lives (gameState w1) = (lives (gameState w) - 1)%Z /\
        score (gameState w1) = score (gameState w)))) \/
     (BubbleEntity.type b <> BOMB /\
      status (gameState w1) = status (gameState w) /\
      gameOvers (trace w1) = gameOvers (trace w) /\
      score (gameState w1)
        = (score (gameState w) + SCORING (BubbleEntity.type b))%Z /\
      ((BubbleEntity.type b = HEART /\ (lives (gameState w) < 3)%Z /\
        lives (gameState w1) = (lives (gameState w) + 1)%Z) \/
       ((BubbleEntity.type b <> HEART \/ (3 <= lives (gameState w))%Z) /\
        lives (gameState w1) = lives (gameState w))))).
Proof.
  intros Hb. unfold handlePop. rewrite Hb. cbn [mbind option_bind].
  change (BubbleEntity.type (BubbleEntity.set_isPopped true b))
    with (BubbleEntity.type b).
  change (BubbleEntity.x (BubbleEntity.set_isPopped true b))
    with (BubbleEntity.x b).
  change (BubbleEntity.y (BubbleEntity.set_isPopped true b))
    with (BubbleEntity.y b).
  assert (Hsu : forall t (u : list Z),
            match popSound t with
            | SaveUnlockedLevelIfHigher n => n :: u
            | _ => u
            end = u) by (intros []; reflexivity).
  assert (Hsg : forall t (u : list Z),
            match popSound t with OnGameOver n => n :: u | _ => u end = u)
    by (intros []; reflexivity).
  destruct (decide (BubbleEntity.type b = BOMB)) as [Ht|Ht].
  - match goal with |- context [createParticles _ _ ?x ?y ?t ?n ?w0] =>
      destruct (createParticles_shape random toString n x y t w0)
        as (ps & _ & ->) end.
    destruct (decide (mode = INFINITE)) as [Hm|Hm].
    + eexists. split; [reflexivity|].
      unfold endGame.
      cbn [modify emit gameState set_status set_heap set_screenShake
           set_particles status score lives levelIndex levelScoreStart
           heap oneEuroFilter draws trace].
      rewrite !unlocks_cons, !gameOvers_cons.
      rewrite ?Hsu, ?Hsg.
      repeat split; try reflexivity. left. repeat split; auto.
    + assert (Hm' : mode = LEVELS_MODE) by (destruct mode; congruence).
      cbn [modify emit gameState set_lives lives set_heap set_screenShake
           set_particles heap oneEuroFilter draws trace].
      eexists. split; [reflexivity|].
      destruct (Z.leb_spec (lives (gameState w) - 1) 0) as [Hle|Hgt].
      * unfold restartLevel, showMessage.
        cbn [modify emit gameState set_lives set_score set_bubbles
             set_particles set_screenShake set_message set_messageTimer
             status score lives levelIndex levelScoreStart heap trace].
        rewrite !unlocks_cons, !gameOvers_cons.
      rewrite ?Hsu, ?Hsg.
        repeat split; try reflexivity. right. left.
        repeat split; auto.
      * cbn [modify emit gameState set_lives
             status score lives levelIndex levelScoreStart heap trace].
        rewrite !unlocks_cons, !gameOvers_cons.
      rewrite ?Hsu, ?Hsg.
        repeat split; try reflexivity. right. left.
        repeat split; auto.
  - match goal with |- context [createParticles _ _ ?x ?y ?t ?n ?w0] =>
      destruct (createParticles_shape random toString n x y t w0)
        as (ps & _ & ->) end.
    cbn [modify emit gameState set_score set_heap set_particles lives
         heap oneEuroFilter draws trace].
    eexists. split; [reflexivity|].
    destruct (decide (BubbleEntity.type b = HEART)) as [Hh|Hh];
      [destruct (Z.ltb_spec (lives (gameState w)) 3) as [Hl|Hl]|];
      cbn [modify emit gameState set_lives set_score
           status score lives levelIndex levelScoreStart heap trace];
      rewrite !unlocks_cons, !gameOvers_cons;
      rewrite ?Hsu, ?Hsg;
      (repeat split; try reflexivity; right; right;
       repeat split; auto).
Qed.

(** [handlePop] on the counters, in full. *)
Lemma handlePop_counters (r : ref) (b : BubbleEntity.t) (w w' : World) :
  heap w !! r = Some b ->
  handlePop LEVELS mode random toString r w = Some w' ->
  exists st1 s1 l1 go1,
    status (gameState w') = st1 /\ score (gameState w') = s1 /\
    lives (gameState w') = l1 /\ gameOvers (trace w') = go1 /\
    ((BubbleEntity.type b = BOMB /\ mode = INFINITE /\
      st1 = GAME_OVER /\ s1 = score (gameState w) /\
      l1 = lives (gameState w) /\
      go1 = score (gameState w) :: gameOvers (trace w)) \/
     (BubbleEntity.type b = BOMB /\ mode = LEVELS_MODE /\
      st1 = status (gameState w) /\ go1 = gameOvers (trace w) /\
      (((lives (gameState w) - 1 <= 0)%Z /\ l1 = 3%Z /\
        s1 = levelScoreStart (gameState w)) \/
       ((0 < lives (gameState w) - 1)%Z /\
        l1 = (lives (gameState w) - 1)%Z /\ s1 = score (gameState w)))) \/
     (BubbleEntity.type b <> BOMB /\
      st1 = status (gameState w) /\ go1 = gameOvers (trace w) /\
      s1 = (score (gameState w) + SCORING (BubbleEntity.type b))%Z /\
      ((BubbleEntity.type b = HEART /\ (lives (gameState w) < 3)%Z /\
        l1 = (lives (gameState w) + 1)%Z) \/
       ((BubbleEntity.type b <> HEART \/ (3 <= lives (gameState w))%Z) /\
        l1 = lives (gameState w))))) /\
    ((mode = INFINITE /\
      levelIndex (gameState w') = levelIndex (gameState w) /\
      levelScoreStart (gameState w') = levelScoreStart (gameState w) /\
      unlocks (trace w') = unlocks (trace w)) \/
     (mode = LEVELS_MODE /\
      exists cfg,
        currentLevel LEVELS (gameState w) = Some cfg /\
        (((s1 < target cfg)%Z /\
          levelIndex (gameState w') = levelIndex (gameState w) /\
          levelScoreStart (gameState w') = levelScoreStart (gameState w) /\
          unlocks (trace w') = unlocks (trace w)) \/
         ((target cfg <= s1)%Z /\
          levelIndex (gameState w') = (levelIndex (gameState w) + 1)%Z /\
          levelScoreStart (gameState w') = s1 /\
          unlocks (trace w')
            = (levelIndex (gameState w) + 1)%Z :: unlocks (trace w) /\
          bubbles (gameState w') = [])))).
Proof.
  intros Hb Hpop.
  destruct (handlePop_first_phase r b w Hb)
    as (w1 & E & _ & Hli & Hls & Hun & Hfirst).
  rewrite E in Hpop. clear E.
  destruct (decide (mode = LEVELS_MODE)) as [Hm|Hm].
  - destruct (levelClearCheck_counters w1 w' Hpop)
      as (cfg & Hcfg & Est & Esc & Eli & Ego & _ & Hsecond).
    exists (status (gameState w1)), (score (gameState w1)),
           (lives (gameState w1)), (gameOvers (trace w1)).
    split; [exact Est|]. split; [exact Esc|]. split; [exact Eli|].
    split; [exact Ego|]. split; [exact Hfirst|].
    right. split; [exact Hm|]. exists cfg.
    split; [now rewrite <- (currentLevel_same LEVELS _ _ Hli)|].
    destruct Hsecond as [[Hlt ->]|(Hge & H1 & H2 & H3 & H4)].
    + left. auto.
    + right. rewrite H1, H2, H3, Hli, Hun. auto.
  - injection Hpop as <-.
    exists (status (gameState w1)), (score (gameState w1)),
           (lives (gameState w1)), (gameOvers (trace w1)).
    repeat (split; [reflexivity|]). split; [exact Hfirst|].
    left. split; [destruct mode; congruence|]. auto.
Qed.

(** A spawn on a stage with nonzero sides, written out. *)
Lemma spawnBubble_shape (width height : R) (w : World) (cfg : LevelDefinition) :
  width <> 0%R -> height <> 0%R ->
  currentLevel LEVELS (gameState w) = Some cfg ->
  exists b,
    spawnBubble LEVELS mode random toString (width, height) w
      = Some (mkWorld
                (set_bubbles (bubbles (gameState w) ++ [fresh (dom (heap w))])
                   (gameState w))
                (<[fresh (dom (heap w)) := b]> (heap w))
                (oneEuroFilter w) (6 + draws w) (trace w)) /\
    BubbleEntity.x b
      = (random (draws w) * (width - width * 0.04 * 3) + width * 0.04 * 1.5)%R /\
    BubbleEntity.y b = (height + width * 0.04)%R /\
    BubbleEntity.radius b
      = (width * 0.04 * (if decide (BubbleEntity.type b = RARE) then 0.8 else 1)
         * (0.9 + random (3 + draws w)%nat * 0.2))%R /\
    BubbleEntity.speed b
      = (GAME_CONFIG.BASE_SPEED * speedMod cfg
         * (if decide (mode = INFINITE)
            then 1 + IZR (score (gameState w)) / 2000 else 1)
         * (random (4 + draws w)%nat * 0.4 + 0.8))%R /\
    BubbleEntity.type b
      = (let rand := random (1 + draws w)%nat in
         let chance :=
           if decide (mode = INFINITE)
           then Rmin 0.35 (0.05 + IZR (score (gameState w)) / 8000)
           else bombChance cfg in
         if Rltb rand chance then BOMB
         else if Rltb rand (chance + 0.15) then RARE
         else if bool_decide (mode = LEVELS_MODE)
                 && (lives (gameState w) <? 3)%Z
                 && Rltb 0.97 rand
                 && (1 <? levelIndex (gameState w))%Z
              then HEART else NORMAL) /\
    BubbleEntity.opacity b = 1%R /\
    BubbleEntity.isPopped b = false.
Proof.
  intros Hw Hh Hcfg. unfold spawnBubble.
  destruct (Req_dec_T width 0); [contradiction|].
  destruct (Req_dec_T height 0); [contradiction|].
  rewrite Hcfg. cbn [mbind option_bind nextRandom].
  eexists. split; [reflexivity|]. cbn. repeat split; reflexivity.
Qed.

(** A tick that gets past the guards ends with the two clean-up filters
    applied to the world the walk over the bubbles leaves. *)
Lemma gameLoop_full (stage : R * R) (time : R) (w w' : World) :
  status (gameState w) = PLAYING -> fst stage <> 0%R -> snd stage <> 0%R ->
  gameLoop LEVELS mode random toString false true stage time w = Some w' ->
  exists wd,
    heap w' = heap wd /\
    bubbles (gameState w')
      = List.filter (keepBubble (heap wd)) (bubbles (gameState wd)) /\
    particles (gameState w')
      = List.filter (fun p => Rltb 0 (Particle.life p))
          (stepParticle <$> particles (gameState wd)) /\
    trace w' = RequestAnimationFrame :: trace wd.
Proof.
  intros Hst Hw Hh. unfold gameLoop. rewrite Hst.
  rewrite bool_decide_eq_true_2 by reflexivity. cbn [negb].
  destruct (Req_dec_T (fst stage) 0); [contradiction|].
  destruct (Req_dec_T (snd stage) 0); [contradiction|].
  destruct (currentLevel LEVELS _) as [cfg|]; [|discriminate].
  cbn [mbind option_bind].
  match goal with
  | |- (?spawn ≫= _) = _ -> _ => destruct spawn as [wc|]
  end; [|discriminate].
  cbn [mbind option_bind].
  destruct (forEachBubble LEVELS mode random toString _ wc) as [wd|];
    [|discriminate].
  cbn [mbind option_bind]. intros [= <-]. exists wd.
  repeat split; reflexivity.
Qed.

Lemma iter_succ {A} (f : A -> A) (n : nat) (x : A) :
  Nat.iter (S n) f x = f (Nat.iter n f x).
Proof. reflexivity. Qed.

Lemma iter_zero {A} (f : A -> A) (x : A) : Nat.iter 0 f x = x.
Proof. reflexivity. Qed.

(** The velocity of a new particle has the length drawn for it. *)
Lemma hypot_polar (angle speed : R) :
  (0 <= speed)%R -> hypot (cos angle * speed) (sin angle * speed) = speed.
Proof.
  intros Hs. unfold hypot.
  replace (cos angle * speed * (cos angle * speed)
           + sin angle * speed * (sin angle * speed))%R
    with (speed * speed * (Rsqr (sin angle) + Rsqr (cos angle)))%R
    by (unfold Rsqr; ring).
  rewrite sin2_cos2, Rmult_1_r. now apply sqrt_square.
Qed.

(** One callback of the walk on the object it is called for. *)
Lemma stepBubble_moves (r : ref) (b : BubbleEntity.t) (w : World) :
  heap w !! r = Some b -> levelsReadable LEVELS w ->
  exists w' b',
    stepBubble LEVELS mode random toString r w = Some w' /\
    heap w' !! r = Some b' /\ risen b b' /\
    BubbleEntity.isPopped b' = BubbleEntity.isPopped b || wouldPop w r /\
    (forall r', r' <> r -> heap w' !! r' = heap w !! r') /\
    fingerPos (gameState w') = fingerPos (gameState w) /\
    levelsReadable LEVELS w'.
Proof.
  intros Hb Hr. unfold stepBubble, wouldPop. rewrite Hb.
  cbn [mbind option_bind BubbleEntity.set_y BubbleEntity.isPopped
       BubbleEntity.x BubbleEntity.y BubbleEntity.radius].
  set (b1 := BubbleEntity.set_y _ b).
  set (w1 := set_heap (<[r := b1]> (heap w)) w).
  change (fingerPos (gameState w1)) with (fingerPos (gameState w)).
  assert (Hrisen : risen b b1) by (repeat split; reflexivity).
  assert (Hother : forall r', r' <> r -> heap w1 !! r' = heap w !! r').
  { intros r' Hne. unfold w1. cbn [set_heap heap]. now rewrite lookup_insert_ne. }
  assert (Hself : heap w1 !! r = Some b1).
  { unfold w1. cbn [set_heap heap]. apply lookup_insert_eq. }
  destruct (BubbleEntity.isPopped b) eqn:Hp; cbn [negb andb orb].
  - exists w1, b1. repeat split; auto; apply Hr.
  - unfold Rltb. destruct (Rlt_dec _ _) as [Hhit|Hmiss].
    + destruct (handlePop_effect LEVELS mode random toString r b1 w1 Hself Hr)
        as (w' & Hw' & Hh & _ & Hf & Hr' & _).
      exists w', (BubbleEntity.set_isPopped true b1).
      split; [exact Hw'|]. split; [rewrite Hh; apply lookup_insert_eq|].
      split; [exact Hrisen|]. split; [reflexivity|].
      split; [|split; [exact Hf|exact Hr']].
      intros r' Hne. rewrite Hh, lookup_insert_ne by congruence.
      now apply Hother.
    + exists w1, b1. repeat split; auto; apply Hr.
Qed.

(** The walk moves every object of the array up by its speed, flags the
    ones that pass the test, and touches no other object. *)
Lemma forEachBubble_moves (rs : list ref) (w : World) :
  NoDup rs -> (forall r, r ∈ rs -> is_Some (heap w !! r)) ->
  levelsReadable LEVELS w ->
  exists w',
    forEachBubble LEVELS mode random toString rs w = Some w' /\
    (forall r b, r ∈ rs -> heap w !! r = Some b ->
       exists b', heap w' !! r = Some b' /\ risen b b' /\
         BubbleEntity.isPopped b'
           = BubbleEntity.isPopped b || wouldPop w r) /\
    (forall r, r ∉ rs -> heap w' !! r = heap w !! r).
Proof.
  revert w. induction rs as [|r rs IH]; intros w Hnd Hin Hr.
  - exists w. split; [reflexivity|]. split; [|reflexivity].
    intros r b Hr'. now apply elem_of_nil in Hr'.
  - apply NoDup_cons in Hnd as [Hnotin Hnd].
    destruct (Hin r) as [b Hb]; [left|].
    destruct (stepBubble_moves r b w Hb Hr)
      as (w1 & b1 & Hs & Hself & Hrisen & Hflag & Hother & Hf & Hr1).
    destruct (IH w1 Hnd) as (w' & Hw' & Hmoved & Hrest).
    { intros r' Hr'. rewrite Hother by (intros ->; contradiction).
      apply Hin. now right. }
    { exact Hr1. }
    exists w'. cbn [forEachBubble]. rewrite Hs. cbn [mbind option_bind].
    split; [exact Hw'|]. split.
    + intros r' b' Hr' Hb'. apply elem_of_cons in Hr' as [->|Hr'].
      * rewrite Hb in Hb'. injection Hb' as <-.
        exists b1. rewrite (Hrest r Hnotin). auto.
      * assert (Hne : r' <> r) by (intros ->; contradiction).
        destruct (Hmoved r' b' Hr') as (b2 & H1 & H2 & H3).
        { now rewrite Hother. }
        exists b2. split; [exact H1|]. split; [exact H2|].
        rewrite H3. f_equal. apply wouldPop_agree; [now apply Hother|exact Hf].
    + intros r' Hr'. apply not_elem_of_cons in Hr' as [Hne Hr'].
      rewrite (Hrest r' Hr'). now apply Hother.
Qed.

(** The stages of a tick that gets past the guards: the world [wc] the
    walk starts from, with at most one object more than before, and the
    world [wd] it ends in. *)
Lemma gameLoop_stages (stage : R * R) (time : R) (w : World) :
  wellFormed w -> levelsReadable LEVELS w ->
  status (gameState w) = PLAYING -> fst stage <> 0%R -> snd stage <> 0%R ->
  exists cfg wc wd w',
    gameLoop LEVELS mode random toString false true stage time w = Some w' /\
    currentLevel LEVELS (gameState w) = Some cfg /\
    wellFormed wc /\ levelsReadable LEVELS wc /\
    fingerPos (gameState wc) = fingerPos (gameState w) /\
    (forall r b, heap w !! r = Some b -> heap wc !! r = Some b) /\
    (((GAME_CONFIG.SPAWN_RATE_MS * spawnMod cfg
         < time - lastSpawnTime (gameState w))%R /\
      bubbles (gameState wc)
        = bubbles (gameState w) ++ [fresh (dom (heap w))]) \/
     (~ (GAME_CONFIG.SPAWN_RATE_MS * spawnMod cfg
           < time - lastSpawnTime (gameState w))%R /\
      bubbles (gameState wc) = bubbles (gameState w))) /\
    forEachBubble LEVELS mode random toString (bubbles (gameState wc)) wc
      = Some wd /\
    (bubbles (gameState wd) = bubbles (gameState wc) \/
     bubbles (gameState wd) = []) /\
    heap w' = heap wd /\
    bubbles (gameState w')
      = List.filter (keepBubble (heap wd)) (bubbles (gameState wd)).
Proof.
  intros Hwf Hr Hst Hsw Hsh. unfold gameLoop. rewrite Hst.
  rewrite bool_decide_eq_true_2 by reflexivity. cbn [negb].
  destruct (Req_dec_T (fst stage) 0); [contradiction|].
  destruct (Req_dec_T (snd stage) 0); [contradiction|].
  destruct (decayShake_calm random w) as [Hq1 Hb1].
  pose proof (counters_decayShake w) as Hc1.
  assert (Hl1 : lastSpawnTime (gameState (decayShake random w))
                = lastSpawnTime (gameState w)).
  { unfold decayShake. destruct (Rlt_dec _ _); [|reflexivity].
    cbn [nextRandom]. destruct (Rlt_dec _ _); reflexivity. }
  set (wa := decayShake random w) in *.
  destruct (tickMessage_calm wa) as [Hq2 Hb2].
  pose proof (counters_tickMessage wa) as Hc2.
  assert (Hl2 : lastSpawnTime (gameState (tickMessage wa))
                = lastSpawnTime (gameState wa)).
  { unfold tickMessage. destruct (0 <? _)%Z; [|reflexivity].
    destruct (_ =? _)%Z; reflexivity. }
  set (wb := tickMessage wa) in *.
  pose proof (quiet_trans _ _ _ Hq1 Hq2) as Hq.
  assert (Hidx : levelIndex (gameState wb) = levelIndex (gameState w)).
  { unfold counters in Hc1, Hc2. congruence. }
  assert (Hwfb : wellFormed wb).
  { destruct Hwf as [Hnd Hin]. split.
    - now rewrite Hb2, Hb1.
    - intros r Hr'. rewrite Hb2, Hb1 in Hr'.
      rewrite (quiet_heap _ _ Hq). now apply Hin. }
  assert (Hrb : levelsReadable LEVELS wb).
  { destruct Hr as [Hne Hl]. split; [exact Hne|]. now rewrite Hidx. }
  destruct (currentLevel_readable LEVELS (gameState wb) (proj1 Hrb) (proj2 Hrb))
    as [cfg Hcfg].
  rewrite Hcfg. cbn [mbind option_bind].
  rewrite Hl2, Hl1.
  assert (Hspawn : exists wc,
    (if Rlt_dec (GAME_CONFIG.SPAWN_RATE_MS * spawnMod cfg)
                (time - lastSpawnTime (gameState w))
     then spawnBubble LEVELS mode random toString stage wb
            ≫= (fun w' => Some (modify (set_lastSpawnTime time) w'))
     else Some wb) = Some wc /\
    wellFormed wc /\ levelsReadable LEVELS wc /\
    fingerPos (gameState wc) = fingerPos (gameState w) /\
    (forall r b, heap w !! r = Some b -> heap wc !! r = Some b) /\
    (((GAME_CONFIG.SPAWN_RATE_MS * spawnMod cfg
         < time - lastSpawnTime (gameState w))%R /\
      bubbles (gameState wc)
        = bubbles (gameState w) ++ [fresh (dom (heap w))]) \/
     (~ (GAME_CONFIG.SPAWN_RATE_MS * spawnMod cfg
           < time - lastSpawnTime (gameState w))%R /\
      bubbles (gameState wc) = bubbles (gameState w)))).
  { destruct (Rlt_dec _ _) as [Hdue|Hnot].
    - destruct (spawnBubble_effect LEVELS mode random toString stage wb Hwfb Hrb)
        as (wc & Hwc & Hwfc & _ & Hlc & Hhc).
      destruct stage as [width height]. cbn [fst snd] in *.
      destruct (spawnBubble_shape width height wb cfg Hsw Hsh Hcfg)
        as (b & Hshape & _).
      rewrite Hwc. cbn [mbind option_bind]. eexists. split; [reflexivity|].
      rewrite Hshape in Hwc. injection Hwc as <-.
      split; [exact Hwfc|]. split.
      { split; [apply Hrb|]. cbn. apply Hrb. }
      split; [cbn; apply (quiet_finger _ _ Hq)|].
      split.
      { intros r b0 Hb0. apply Hhc. now rewrite (quiet_heap _ _ Hq). }
      left. split; [exact Hdue|]. cbn.
      now rewrite Hb2, Hb1, (quiet_heap _ _ Hq).
    - exists wb. split; [reflexivity|]. split; [exact Hwfb|].
      split; [exact Hrb|]. split; [apply (quiet_finger _ _ Hq)|].
      split.
      { intros r b0 Hb0. now rewrite (quiet_heap _ _ Hq). }
      right. split; [exact Hnot|]. now rewrite Hb2, Hb1. }
  destruct Hspawn as (wc & -> & Hwfc & Hrc & Hfc & Hhc & Hbc).
  cbn [mbind option_bind].
  destruct (forEachBubble_pops LEVELS mode random toString
              (bubbles (gameState wc)) wc (proj1 Hwfc) (proj2 Hwfc) Hrc)
    as (wd & Hwalk & _ & _ & _ & Hbsd).
  rewrite Hwalk. cbn [mbind option_bind].
  exists cfg, wc, wd. eexists. split; [reflexivity|].
  split; [now rewrite <- (currentLevel_same LEVELS _ _ Hidx)|].
  repeat (split; [assumption|]). split; reflexivity.
Qed.

(** A property that depends on the counters alone and that every
    [handlePop] keeps is kept by the walk over the bubbles and by a whole
    tick. *)
Section Preserved.

Variable I : World -> Prop.
Hypothesis I_counters : forall w w', counters w' = counters w -> I w -> I w'.
Hypothesis I_handlePop : forall r b w w',
  heap w !! r = Some b ->
  handlePop LEVELS mode random toString r w = Some w' -> I w -> I w'.

Lemma stepBubble_preserves (r : ref) (w w' : World) :
  stepBubble LEVELS mode random toString r w = Some w' -> I w -> I w'.
Proof.
  unfold stepBubble. destruct (heap w !! r) as [b0|] eqn:Hb; [|discriminate].
  cbn [mbind option_bind].
  set (b := BubbleEntity.set_y _ b0).
  set (w1 := set_heap (<[r := b]> (heap w)) w).
  intros H Hw.
  assert (H1 : I w1) by (apply (I_counters w); [reflexivity|exact Hw]).
  destruct (negb (BubbleEntity.isPopped b)); [|now injection H as <-].
  destruct (Rlt_dec _ _); [|now injection H as <-].
  apply (I_handlePop r b w1 w'); [|exact H|exact H1].
  unfold w1. cbn [set_heap heap]. apply lookup_insert_eq.
Qed.

Lemma forEachBubble_preserves (rs : list ref) (w w' : World) :
  forEachBubble LEVELS mode random toString rs w = Some w' -> I w -> I w'.
Proof.
  revert w. induction rs as [|r rs IH]; intros w; cbn [forEachBubble].
  - now intros [= <-].
  - destruct (stepBubble LEVELS mode random toString r w) as [w1|] eqn:Hs;
      [|discriminate].
    cbn [mbind option_bind]. intros H Hw. apply (IH w1 H).
    now apply (stepBubble_preserves r w).
Qed.

Lemma gameLoop_preserves (isPaused canvasReady : bool) (stage : R * R)
    (time : R) (w w' : World) :
  gameLoop LEVELS mode random toString isPaused canvasReady stage time w
    = Some w' ->
  I w -> I w'.
Proof.
  unfold gameLoop. intros H Hw.
  assert (Hraf : forall w0, I w0 -> I (emit RequestAnimationFrame w0)).
  { intros w0. now apply I_counters. }
  destruct isPaused; [injection H as <-; now apply Hraf|].
  destruct (negb (bool_decide (status (gameState w) = PLAYING)));
    [now injection H as <-|].
  destruct (negb canvasReady); [now injection H as <-|].
  destruct (Req_dec_T (fst stage) 0); [injection H as <-; now apply Hraf|].
  destruct (Req_dec_T (snd stage) 0); [injection H as <-; now apply Hraf|].
  set (wb := tickMessage (decayShake random w)) in *.
  assert (Hb : I wb).
  { apply (I_counters w); [|exact Hw]. unfold wb.
    now rewrite counters_tickMessage, counters_decayShake. }
  destruct (currentLevel LEVELS (gameState wb)) as [cfg|]; [|discriminate H].
  cbn [mbind option_bind] in H.
  match type of H with
  | (?spawn ≫= _) = _ => destruct spawn as [wc|] eqn:Hspawn
  end; [|discriminate H].
  cbn [mbind option_bind] in H.
  assert (Hc : I wc).
  { destruct (Rlt_dec _ _); [|now injection Hspawn as <-].
    destruct (spawnBubble LEVELS mode random toString stage wb) as [wc0|] eqn:Hsp;
      [|discriminate Hspawn].
    cbn [mbind option_bind] in Hspawn. injection Hspawn as <-.
    apply (I_counters wb); [|exact Hb].
    now rewrite <- (counters_spawnBubble stage wb wc0 Hsp). }
  destruct (forEachBubble LEVELS mode random toString (bubbles (gameState wc)) wc)
    as [wd|] eqn:Hwalk; [|discriminate H].
  cbn [mbind option_bind] in H. injection H as <-.
  apply (I_counters wd); [reflexivity|].
  now apply (forEachBubble_preserves (bubbles (gameState wc)) wc).
Qed.

End Preserved.

End More.
End gameMore.

Module tableFacts.

Import constants GameCanvas views.

#[local] Open Scope Z_scope.

Lemma risesBy_lookup (gap : Z) (ts : list Z) (n : nat) (a b : Z) :
  risesBy gap ts = true -> ts !! n = Some a -> ts !! S n = Some b ->
  a + gap <= b.
Proof.
  revert n. induction ts as [|x ts IH]; intros n Hr Ha Hb; [discriminate Ha|].
  destruct ts as [|y ts]; [discriminate Hb|].
  cbn [risesBy] in Hr. apply andb_true_iff in Hr as [Hxy Hr].
  destruct n as [|n].
  - cbn in Ha, Hb. injection Ha as <-. injection Hb as <-. lia.
  - apply (IH n Hr); assumption.
Qed.

(** A table passes the two checks below exactly as [targetsRise] asks. *)
Lemma targetsRise_decide (LEVELS : list LevelDefinition) (gap : Z) :
  forallb (fun c => 0 <? target c) LEVELS = true ->
  risesBy gap (target <$> LEVELS) = true ->
  targetsRise LEVELS gap.
Proof.
  intros Hpos Hrise. split.
  - intros cfg Hin. rewrite forallb_forall in Hpos.
    apply list_elem_of_In in Hin. specialize (Hpos cfg Hin). lia.
  - intros i cfg cfg' Ha Hb. unfold at_index in Ha, Hb.
    destruct (Z.ltb_spec i 0); [discriminate Ha|].
    destruct (Z.ltb_spec (i + 1) 0); [discriminate Hb|].
    replace (Z.to_nat (i + 1)) with (S (Z.to_nat i)) in Hb by lia.
    apply (risesBy_lookup gap (target <$> LEVELS) (Z.to_nat i)).
    + exact Hrise.
    + now rewrite list_lookup_fmap, Ha.
    + now rewrite list_lookup_fmap, Hb.
Qed.

Lemma targetsRise_weaken (LEVELS : list LevelDefinition) (gap gap' : Z) :
  gap' <= gap -> targetsRise LEVELS gap -> targetsRise LEVELS gap'.
Proof.
  intros Hg [Hpos Hrise]. split; [exact Hpos|].
  intros i cfg cfg' Ha Hb. specialize (Hrise i cfg cfg' Ha Hb). lia.
Qed.

Lemma LEVELS_rise : targetsRise constants.LEVELS 250.
Proof. apply targetsRise_decide; reflexivity. Qed.

End tableFacts.

Module gameExtras.

Import constants GameCanvas views gameFacts gameMore.

#[local] Open Scope Z_scope.

Ltac counters_eq H :=
  unfold counters in H; injection H as ? ? ? ? ? ? ?.

(** X17.  In level mode the lives stay between 1 and 3.  A session starts
    with 3; a pop on a world whose lives are between 1 and 3 leaves them
    there (a hazard on the last life refills them to 3, a heart adds one
    only below 3), and so does every tick. *)
Theorem level_mode_lives_in_range
    (LEVELS : list LevelDefinition) (random : nat -> R)
    (toString : R -> Z -> string) :
  (forall L gs,
     initialGameState LEVELS LEVELS_MODE L = Some gs -> lives gs = 3) /\
  (forall r w,
     is_Some (heap w !! r) -> levelsReadable LEVELS w ->
     1 <= lives (gameState w) <= 3 ->
     exists w',
       handlePop LEVELS LEVELS_MODE random toString r w = Some w' /\
       1 <= lives (gameState w') <= 3) /\
  (forall isPaused canvasReady stage time w,
     wellFormed w -> levelsReadable LEVELS w ->
     1 <= lives (gameState w) <= 3 ->
     exists w',
       gameLoop LEVELS LEVELS_MODE random toString isPaused canvasReady
         stage time w = Some w' /\
       1 <= lives (gameState w') <= 3 /\
       wellFormed w' /\ levelsReadable LEVELS w').
Proof.
  assert (Hpop : forall r b w w',
            heap w !! r = Some b ->
            handlePop LEVELS LEVELS_MODE random toString r w = Some w' ->
            1 <= lives (gameState w) <= 3 -> 1 <= lives (gameState w') <= 3).
  { intros r b w w' Hb Hp Hl.
    destruct (handlePop_counters LEVELS LEVELS_MODE random toString r b w w' Hb Hp)
      as (st1 & s1 & l1 & go1 & _ & _ & -> & _ & Hfirst & _).
    destruct Hfirst as [(_ & Hm & _)|[(_ & _ & _ & _ & Hl1)|(_ & _ & _ & _ & Hl1)]];
      [discriminate Hm| |]; intuition lia. }
  split; [|split].
  - intros L gs H. unfold initialGameState in H.
    destruct (getStartingScore _ _ _); [|discriminate H].
    cbn in H. now injection H as <-.
  - intros r w [b Hb] Hr Hl.
    destruct (handlePop_effect LEVELS LEVELS_MODE random toString r b w Hb Hr)
      as (w' & Hw' & _).
    exists w'. split; [exact Hw'|]. exact (Hpop r b w w' Hb Hw' Hl).
  - intros isPaused canvasReady stage time w Hwf Hr Hl.
    destruct (gameLoop_pops LEVELS LEVELS_MODE random toString isPaused
                canvasReady stage time w Hwf Hr)
      as (w' & new & Hw' & _ & _ & _ & Hwf' & Hr').
    exists w'. split; [exact Hw'|]. split; [|now split].
    eapply (gameLoop_preserves LEVELS LEVELS_MODE random toString
              (fun w0 => 1 <= lives (gameState w0) <= 3));
      [| |exact Hw'|exact Hl].
    + intros w0 w0' Hc Hw0. counters_eq Hc. lia.
    + exact Hpop.
Qed.

Lemma level_mode_lives_in_range_witness :
  exists w',
    handlePop constants.LEVELS LEVELS_MODE samples.halves samples.blank 0%nat
      samples.lastLifeWorld = Some w' /\
    1 <= lives (gameState w') <= 3.
Proof.
  destruct (level_mode_lives_in_range constants.LEVELS samples.halves
              samples.blank) as (_ & H & _).
  apply H.
  - eexists. reflexivity.
  - split; [discriminate|]. cbn. lia.
  - cbn. lia.
Defined.

(** X18.  A level-mode session is never ended by the game: neither a pop
    nor a whole tick changes the status or calls [onGameOver], whatever is
    popped and however many lives are left. *)
Theorem level_mode_never_ends_session
    (LEVELS : list LevelDefinition) (random : nat -> R)
    (toString : R -> Z -> string) :
  (forall r w w',
     is_Some (heap w !! r) ->
     handlePop LEVELS LEVELS_MODE random toString r w = Some w' ->
     status (gameState w') = status (gameState w) /\
     gameOvers (trace w') = gameOvers (trace w)) /\
  (forall isPaused canvasReady stage time w,
     wellFormed w -> levelsReadable LEVELS w ->
     exists w',
       gameLoop LEVELS LEVELS_MODE random toString isPaused canvasReady
         stage time w = Some w' /\
       status (gameState w') = status (gameState w) /\
       gameOvers (trace w') = gameOvers (trace w) /\
       wellFormed w' /\ levelsReadable LEVELS w').
Proof.
  assert (Hpop : forall r b w w',
            heap w !! r = Some b ->
            handlePop LEVELS LEVELS_MODE random toString r w = Some w' ->
            status (gameState w') = status (gameState w) /\
            gameOvers (trace w') = gameOvers (trace w)).
  { intros r b w w' Hb Hp.
    destruct (handlePop_counters LEVELS LEVELS_MODE random toString r b w w' Hb Hp)
      as (st1 & s1 & l1 & go1 & -> & _ & _ & -> & Hfirst & _).
    destruct Hfirst as [(_ & Hm & _)|[(_ & _ & -> & -> & _)|(_ & -> & -> & _)]];
      [discriminate Hm| |]; auto. }
  split.
  - intros r w w' [b Hb]. now apply (Hpop r b).
  - intros isPaused canvasReady stage time w Hwf Hr.
    destruct (gameLoop_pops LEVELS LEVELS_MODE random toString isPaused
                canvasReady stage time w Hwf Hr)
      as (w' & new & Hw' & _ & _ & _ & Hwf' & Hr').
    exists w'. split; [exact Hw'|].
    assert (H : status (gameState w') = status (gameState w) /\
                gameOvers (trace w') = gameOvers (trace w)).
    { eapply (gameLoop_preserves LEVELS LEVELS_MODE random toString
                (fun w0 => status (gameState w0) = status (gameState w) /\
                           gameOvers (trace w0) = gameOvers (trace w)));
        [| |exact Hw'|now split].
      - intros w0 w0' Hc [H1 H2]. counters_eq Hc. split; congruence.
      - intros r b w0 w0' Hb Hp [H1 H2].
        destruct (Hpop r b w0 w0' Hb Hp). split; congruence. }
    destruct H. auto.
Qed.

Lemma level_mode_never_ends_session_witness :
  exists w',
    gameLoop constants.LEVELS LEVELS_MODE samples.halves samples.blank
      false true (1280, 720)%R 16%R samples.lastLifeWorld = Some w' /\
    status (gameState w') = PLAYING.
Proof.
  destruct (level_mode_never_ends_session constants.LEVELS samples.halves
              samples.blank) as (_ & H).
  destruct (H false true (1280, 720)%R 16%R samples.lastLifeWorld)
    as (w' & Hw' & Hst & _).
  - split.
    + cbn. apply NoDup_singleton.
    + intros r Hr. cbn in Hr. apply list_elem_of_singleton in Hr. subst r.
      eexists. reflexivity.
  - split; [discriminate|]. cbn. lia.
  - exists w'. split; [exact Hw'|]. rewrite Hst. reflexivity.
Defined.

(** X19.  An endless session never touches the level or the checkpoint:
    neither a pop nor a whole tick changes the level index or the
    level-start score or calls [saveUnlockedLevelIfHigher]; the score and
    the lives never go down. *)
Theorem endless_mode_keeps_level
    (LEVELS : list LevelDefinition) (random : nat -> R)
    (toString : R -> Z -> string) :
  (forall r w w',
     is_Some (heap w !! r) ->
     handlePop LEVELS INFINITE random toString r w = Some w' ->
     levelIndex (gameState w') = levelIndex (gameState w) /\
     levelScoreStart (gameState w') = levelScoreStart (gameState w) /\
     unlocks (trace w') = unlocks (trace w) /\
     score (gameState w) <= score (gameState w') /\
     lives (gameState w) <= lives (gameState w')) /\
  (forall isPaused canvasReady stage time w,
     wellFormed w -> levelsReadable LEVELS w ->
     exists w',
       gameLoop LEVELS INFINITE random toString isPaused canvasReady
         stage time w = Some w' /\
       levelIndex (gameState w') = levelIndex (gameState w) /\
       levelScoreStart (gameState w') = levelScoreStart (gameState w) /\
       unlocks (trace w') = unlocks (trace w) /\
       score (gameState w) <= score (gameState w') /\
       lives (gameState w) <= lives (gameState w') /\
       wellFormed w' /\ levelsReadable LEVELS w').
Proof.
  assert (Hpop : forall r b w w',
            heap w !! r = Some b ->
            handlePop LEVELS INFINITE random toString r w = Some w' ->
            levelIndex (gameState w') = levelIndex (gameState w) /\
            levelScoreStart (gameState w') = levelScoreStart (gameState w) /\
            unlocks (trace w') = unlocks (trace w) /\
            score (gameState w) <= score (gameState w') /\
            lives (gameState w) <= lives (gameState w')).
  { intros r b w w' Hb Hp.
    destruct (handlePop_counters LEVELS INFINITE random toString r b w w' Hb Hp)
      as (st1 & s1 & l1 & go1 & _ & -> & -> & _ & Hfirst & Hsecond).
    destruct Hsecond as [(_ & -> & -> & ->)|(Hm & _)]; [|discriminate Hm].
    repeat split; try reflexivity.
    - destruct Hfirst as [(_ & _ & _ & -> & _)|[(_ & Hm & _)|(_ & _ & _ & -> & _)]];
        [lia|discriminate Hm|].
      destruct (BubbleEntity.type b); cbn; lia.
    - destruct Hfirst as [(_ & _ & _ & _ & -> & _)|[(_ & Hm & _)|(_ & _ & _ & _ & Hl)]];
        [lia|discriminate Hm|]. intuition lia. }
  split.
  - intros r w w' [b Hb]. now apply (Hpop r b).
  - intros isPaused canvasReady stage time w Hwf Hr.
    destruct (gameLoop_pops LEVELS INFINITE random toString isPaused
                canvasReady stage time w Hwf Hr)
      as (w' & new & Hw' & _ & _ & _ & Hwf' & Hr').
    exists w'. split; [exact Hw'|].
    assert (H : levelIndex (gameState w') = levelIndex (gameState w) /\
                levelScoreStart (gameState w') = levelScoreStart (gameState w) /\
                unlocks (trace w') = unlocks (trace w) /\
                score (gameState w) <= score (gameState w') /\
                lives (gameState w) <= lives (gameState w')).
    { eapply (gameLoop_preserves LEVELS INFINITE random toString
                (fun w0 =>
                   levelIndex (gameState w0) = levelIndex (gameState w) /\
                   levelScoreStart (gameState w0) = levelScoreStart (gameState w) /\
                   unlocks (trace w0) = unlocks (trace w) /\
                   score (gameState w) <= score (gameState w0) /\
                   lives (gameState w) <= lives (gameState w0)));
        [| |exact Hw'|repeat split; lia].
      - intros w0 w0' Hc Hw0. counters_eq Hc.
        destruct Hw0 as (? & ? & ? & ? & ?). repeat split; congruence || lia.
      - intros r b w0 w0' Hb Hp (H1 & H2 & H3 & H4 & H5).
        destruct (Hpop r b w0 w0' Hb Hp) as (E1 & E2 & E3 & E4 & E5).
        repeat split; congruence || lia. }
    intuition.
Qed.

Lemma endless_mode_keeps_level_witness :
  exists w',
    handlePop constants.LEVELS INFINITE samples.halves samples.blank 0%nat
      samples.endlessWorld = Some w' /\
    levelIndex (gameState w') = 0 /\ unlocks (trace w') = [].
Proof.
  destruct (endless_mode_keeps_level constants.LEVELS samples.halves
              samples.blank) as (Hpop & _).
  destruct (handlePop_effect constants.LEVELS INFINITE samples.halves
              samples.blank 0%nat (samples.bubbleAt 300 400 BOMB false)
              samples.endlessWorld) as (w' & Hw' & _).
  { reflexivity. }
  { split; [discriminate|]. cbn. lia. }
  exists w'. split; [exact Hw'|].
  destruct (Hpop 0%nat samples.endlessWorld w') as (H1 & _ & H3 & _).
  { eexists. reflexivity. }
  { exact Hw'. }
  rewrite H1, H3. split; reflexivity.
Defined.

(** X20.  On a level table whose targets are positive and rise by at least
    50 (the most one pop awards) from each level to the next, a level-mode
    session keeps its score in a window: never below the level-start
    score and, while the table has an entry for the level index, below the
    target of that entry.  This holds when the session starts, after every
    pop and after every tick.  In such a state one pop raises the level
    index by at most one, and a hazard pop, restart included, leaves it
    alone as long as the table has an entry for it. *)
Theorem score_stays_below_target
    (LEVELS : list LevelDefinition) (random : nat -> R)
    (toString : R -> Z -> string) :
  targetsRise LEVELS 50 ->
  (forall L gs,
     initialGameState LEVELS LEVELS_MODE L = Some gs ->
     scoreInWindow LEVELS gs) /\
  (forall r b w w',
     heap w !! r = Some b ->
     handlePop LEVELS LEVELS_MODE random toString r w = Some w' ->
     scoreInWindow LEVELS (gameState w) ->
     scoreInWindow LEVELS (gameState w') /\
     levelIndex (gameState w) <= levelIndex (gameState w')
       <= levelIndex (gameState w) + 1 /\
     (BubbleEntity.type b = BOMB ->
      is_Some (at_index LEVELS (levelIndex (gameState w))) ->
      levelIndex (gameState w') = levelIndex (gameState w))) /\
  (forall isPaused canvasReady stage time w,
     wellFormed w -> LEVELS <> [] ->
     scoreInWindow LEVELS (gameState w) ->
     exists w',
       gameLoop LEVELS LEVELS_MODE random toString isPaused canvasReady
         stage time w = Some w' /\
       scoreInWindow LEVELS (gameState w') /\ wellFormed w').
Proof.
  intros [Hpos Hgap].
  assert (Hcur : forall gs cfg cfg',
            (0 <= levelIndex gs) ->
            currentLevel LEVELS gs = Some cfg ->
            at_index LEVELS (levelIndex gs) = Some cfg' -> cfg' = cfg).
  { intros gs cfg cfg' Hl Hc Ha. unfold currentLevel in Hc.
    assert (Hlt : levelIndex gs < Z.of_nat (length LEVELS)).
    { unfold at_index in Ha. destruct (levelIndex gs <? 0); [discriminate|].
      apply lookup_lt_Some in Ha. lia. }
    rewrite Z.min_l in Hc by lia. congruence. }
  assert (Hpop : forall r b w w',
            heap w !! r = Some b ->
            handlePop LEVELS LEVELS_MODE random toString r w = Some w' ->
            scoreInWindow LEVELS (gameState w) ->
            scoreInWindow LEVELS (gameState w') /\
            levelIndex (gameState w) <= levelIndex (gameState w')
              <= levelIndex (gameState w) + 1 /\
            (BubbleEntity.type b = BOMB ->
             is_Some (at_index LEVELS (levelIndex (gameState w))) ->
             levelIndex (gameState w') = levelIndex (gameState w))).
  { intros r b w w' Hb Hp (Hl & Hls & Hbelow).
    destruct (handlePop_counters LEVELS LEVELS_MODE random toString r b w w' Hb Hp)
      as (st1 & s1 & l1 & go1 & _ & Hs1 & _ & _ & Hfirst & Hsecond).
    destruct Hsecond as [(Hm & _)|(_ & cfg & Hcfg & Hsecond)];
      [discriminate Hm|].
    assert (Hs1' : levelScoreStart (gameState w) <= s1 <= score (gameState w) + 50
                   /\ (BubbleEntity.type b = BOMB -> s1 <= score (gameState w))).
    { destruct Hfirst
        as [(_ & Hm & _)|[(Ht & _ & _ & _ & Hl1)|(Ht & _ & _ & -> & _)]];
        [discriminate Hm| |].
      - split; [|intros _]; intuition lia.
      - split; [|contradiction].
        destruct (BubbleEntity.type b); cbn; lia. }
    destruct Hs1' as [Hs1' Hbomb].
    destruct Hsecond as [(Hlt & E1 & E2 & _)|(Hge & E1 & E2 & _)].
    - split; [|split; [lia|auto]].
      unfold scoreInWindow. rewrite E1, E2, Hs1.
      split; [exact Hl|]. split; [lia|].
      intros cfg' Ha. rewrite (Hcur _ _ _ Hl Hcfg Ha). exact Hlt.
    - split; [|split; [lia|]].
      + unfold scoreInWindow. rewrite E1, E2, Hs1.
        split; [lia|]. split; [lia|].
        intros cfg' Ha.
        assert (Hprev : at_index LEVELS (levelIndex (gameState w)) = Some cfg).
        { unfold currentLevel in Hcfg. unfold at_index in Ha.
          destruct (levelIndex (gameState w) + 1 <? 0); [discriminate|].
          apply lookup_lt_Some in Ha. rewrite Z.min_l in Hcfg by lia.
          exact Hcfg. }
        specialize (Hgap _ _ _ Hprev Ha). specialize (Hbelow _ Hprev). lia.
      + intros Ht [cfg' Ha]. exfalso.
        rewrite (Hcur _ _ _ Hl Hcfg Ha) in Ha.
        specialize (Hbelow _ Ha). specialize (Hbomb Ht). lia. }
  split; [|split].
  - intros L gs H. unfold initialGameState, getStartingScore in H.
    rewrite (decide_False (P := LEVELS_MODE = INFINITE)) in H by discriminate.
    unfold startLvlIndex in H.
    destruct (Z.leb_spec (Z.max 0 (L - 1)) 0) as [Hle|Hgt].
    + cbn in H. injection H as <-. unfold scoreInWindow. cbn.
      split; [lia|]. split; [lia|]. intros cfg Ha. apply Hpos.
      unfold at_index in Ha. destruct (_ <? 0); [discriminate|].
      now apply list_elem_of_lookup_2 in Ha.
    + destruct (at_index LEVELS (Z.max 0 (L - 1) - 1)) as [prev|] eqn:Hprev;
        [|discriminate H].
      cbn in H. injection H as <-. unfold scoreInWindow. cbn.
      split; [lia|]. split; [lia|]. intros cfg Ha.
      replace (Z.max 0 (L - 1)) with (Z.max 0 (L - 1) - 1 + 1) in Ha by lia.
      specialize (Hgap _ _ _ Hprev Ha). lia.
  - exact Hpop.
  - intros isPaused canvasReady stage time w Hwf Hne Hwin.
    assert (Hr : levelsReadable LEVELS w) by (split; [exact Hne|apply Hwin]).
    destruct (gameLoop_pops LEVELS LEVELS_MODE random toString isPaused
                canvasReady stage time w Hwf Hr)
      as (w' & new & Hw' & _ & _ & _ & Hwf' & Hr').
    exists w'. split; [exact Hw'|]. split; [|exact Hwf'].
    eapply (gameLoop_preserves LEVELS LEVELS_MODE random toString
              (fun w0 => scoreInWindow LEVELS (gameState w0)));
      [| |exact Hw'|exact Hwin].
    + intros w0 w0' Hc Hw0. counters_eq Hc.
      assert (Ei : levelIndex (gameState w0') = levelIndex (gameState w0))
        by lia.
      assert (Es : score (gameState w0') = score (gameState w0)) by lia.
      assert (El : levelScoreStart (gameState w0')
                   = levelScoreStart (gameState w0)) by lia.
      unfold scoreInWindow. now rewrite Ei, Es, El.
    + intros r b w0 w0' Hb Hp Hw0. now apply (Hpop r b w0 w0' Hb Hp).
Qed.

Lemma score_stays_below_target_witness :
  scoreInWindow constants.LEVELS samples.freshState /\
  forall cfg,
    at_index constants.LEVELS (levelIndex samples.freshState) = Some cfg ->
    score samples.freshState < target cfg.
Proof.
  destruct (score_stays_below_target constants.LEVELS samples.halves
              samples.blank) as (Hinit & _).
  { apply (tableFacts.targetsRise_weaken _ 250); [lia|].
    apply tableFacts.LEVELS_rise. }
  assert (H : scoreInWindow constants.LEVELS samples.freshState)
    by (apply (Hinit 1); reflexivity).
  split; [exact H|apply H].
Defined.

(** X21.  Every level table of [constants.ts] has positive targets that
    rise from each level to the next: by at least 250 in the literal table
    of 6 levels, by at least 200 in the generated table of 100 levels and
    by at least 350 in the generated table of 20 levels, whatever the
    rounded multipliers are.  So each of them rises by the 50 points one
    pop can award at most, and the first target is 150 in all three. *)
Theorem level_tables_rise (speedModOf spawnModOf bombChanceOf : Z -> R) :
  let table100 :=
    generated.generateLevels100 speedModOf spawnModOf bombChanceOf in
  let table20 :=
    generated.generateLevels20 speedModOf spawnModOf bombChanceOf in
  targetsRise constants.LEVELS 250 /\
  length table100 = 100%nat /\ targetsRise table100 200 /\
  length table20 = 20%nat /\ targetsRise table20 350 /\
  (targetsRise constants.LEVELS 50 /\ targetsRise table100 50 /\
   targetsRise table20 50) /\
  (target <$> head constants.LEVELS = Some 150 /\
   target <$> head table100 = Some 150 /\
   target <$> head table20 = Some 150) /\
  (target <$> last table100 = Some 33250 /\
   target <$> last table20 = Some 150000).
Proof.
  intros table100 table20.
  assert (H100 : targetsRise table100 200)
    by (apply tableFacts.targetsRise_decide; vm_compute; reflexivity).
  assert (H20 : targetsRise table20 350)
    by (apply tableFacts.targetsRise_decide; vm_compute; reflexivity).
  split; [apply tableFacts.LEVELS_rise|].
  split; [vm_compute; reflexivity|]. split; [exact H100|].
  split; [vm_compute; reflexivity|]. split; [exact H20|].
  split; [|split].
  - split; [|split].
    + apply (tableFacts.targetsRise_weaken _ 250); [lia|].
      apply tableFacts.LEVELS_rise.
    + now apply (tableFacts.targetsRise_weaken _ 200).
    + now apply (tableFacts.targetsRise_weaken _ 350).
  - repeat split; vm_compute; reflexivity.
  - split; vm_compute; reflexivity.
Qed.

(** X22.  Clearing a level, from the pop to the next session.  When a pop
    of anything but a hazard lifts the score from below the target of the
    current level to the target or above, the level index goes up by one
    and the score with its points becomes the level-start score, the bubble
    array is emptied, and [saveUnlockedLevelIfHigher] is called once, with
    the number of the level just cleared.  Run on any storage, that call
    makes the menu offer Continue, at the next level unless a higher one
    was stored already.  A session started at that level begins at the same
    level index as the one just reached, with the target of the cleared
    level as its score, which is at most the score the player had. *)
Theorem level_clear_unlocks_next_level
    (LEVELS : list LevelDefinition) (random : nat -> R)
    (toString : R -> Z -> string)
    (r : ref) (b : BubbleEntity.t) (w : World) (cfg : LevelDefinition) :
  heap w !! r = Some b -> BubbleEntity.type b <> BOMB ->
  at_index LEVELS (levelIndex (gameState w)) = Some cfg ->
  score (gameState w) < target cfg
    <= score (gameState w) + SCORING (BubbleEntity.type b) ->
  exists w',
    handlePop LEVELS LEVELS_MODE random toString r w = Some w' /\
    levelIndex (gameState w') = levelIndex (gameState w) + 1 /\
    score (gameState w')
      = score (gameState w) + SCORING (BubbleEntity.type b) /\
    levelScoreStart (gameState w') = score (gameState w') /\
    bubbles (gameState w') = [] /\
    status (gameState w') = status (gameState w) /\
    unlocks (trace w')
      = (levelIndex (gameState w) + 1) :: unlocks (trace w) /\
    (forall now ls,
       let ls' :=
         storageService.saveUnlockedLevelIfHigher now
           (inject_Z (levelIndex (gameState w) + 1)) ls in
       snd (snd (MainMenu.mount ls')) = true /\
       (JS.lt (storageService.persistedLevel ls)
              (JS.Fin (inject_Z (levelIndex (gameState w) + 2))) = true ->
        fst (snd (MainMenu.mount ls'))
          = JS.Fin (inject_Z (levelIndex (gameState w) + 2)))) /\
    (exists gs,
       initialGameState LEVELS LEVELS_MODE (levelIndex (gameState w) + 2)
         = Some gs /\
       levelIndex gs = levelIndex (gameState w') /\
       score gs = target cfg /\
       levelScoreStart gs = target cfg /\
       score gs <= score (gameState w') /\
       lives gs = 3).
Proof.
  intros Hb Ht Hcfg Hs.
  assert (Hidx : 0 <= levelIndex (gameState w) < Z.of_nat (length LEVELS)).
  { unfold at_index in Hcfg.
    destruct (Z.ltb_spec (levelIndex (gameState w)) 0); [discriminate Hcfg|].
    apply lookup_lt_Some in Hcfg. lia. }
  assert (Hr : levelsReadable LEVELS w).
  { split; [|lia]. intros E. rewrite E in Hidx. cbn in Hidx. lia. }
  destruct (handlePop_effect LEVELS LEVELS_MODE random toString r b w Hb Hr)
    as (w' & Hw' & _).
  exists w'. split; [exact Hw'|].
  destruct (handlePop_counters LEVELS LEVELS_MODE random toString r b w w' Hb Hw')
    as (st1 & s1 & l1 & go1 & Hst & Hsc & _ & _ & Hfirst & Hsecond).
  destruct Hfirst as [(Hbomb & _)|[(Hbomb & _)|(_ & Est & _ & Es1 & _)]];
    [contradiction..|].
  destruct Hsecond as [(Hm & _)|(_ & cfg0 & Hcfg0 & Hsecond)];
    [discriminate Hm|].
  assert (Ecfg : cfg0 = cfg).
  { unfold currentLevel in Hcfg0. rewrite Z.min_l in Hcfg0 by lia. congruence. }
  subst cfg0.
  destruct Hsecond as [(Hlt & _)|(_ & E1 & E2 & E3 & E4)]; [lia|].
  split; [exact E1|]. split; [lia|]. split; [lia|].
  split; [exact E4|]. split; [congruence|]. split; [exact E3|].
  split.
  - intros now ls ls'. subst ls'.
    destruct (storageMore.mount_after_clear now
                (levelIndex (gameState w) + 1) ls) as (H1 & _ & H3); [lia|].
    replace (levelIndex (gameState w) + 1 + 1)
      with (levelIndex (gameState w) + 2) in H3 by lia.
    split; [exact H1|exact H3].
  - unfold initialGameState, getStartingScore.
    rewrite (decide_False (P := LEVELS_MODE = INFINITE)) by discriminate.
    unfold startLvlIndex.
    rewrite (Z.max_r 0 (levelIndex (gameState w) + 2 - 1)) by lia.
    destruct (Z.leb_spec (levelIndex (gameState w) + 2 - 1) 0); [lia|].
    replace (levelIndex (gameState w) + 2 - 1 - 1)
      with (levelIndex (gameState w)) by lia.
    rewrite Hcfg. cbn. eexists. split; [reflexivity|]. cbn.
    rewrite E1. repeat split; lia.
Qed.

Lemma level_clear_unlocks_next_level_witness :
  exists w',
    handlePop constants.LEVELS LEVELS_MODE samples.halves samples.blank 0%nat
      (samples.worldOf (set_score 140 samples.freshState)
         [samples.bubbleAt 300 400 NORMAL false]) = Some w' /\
    levelIndex (gameState w') = 1 /\
    unlocks (trace w') = [1].
Proof.
  destruct (level_clear_unlocks_next_level constants.LEVELS samples.halves
              samples.blank 0%nat (samples.bubbleAt 300 400 NORMAL false)
              (samples.worldOf (set_score 140 samples.freshState)
                 [samples.bubbleAt 300 400 NORMAL false])
              {| target := 150; speedMod := 1.0; spawnMod := 1.0;
                 bombChance := 0.1 |})
    as (w' & Hw' & H1 & _ & _ & _ & _ & H2 & _).
  - reflexivity.
  - discriminate.
  - reflexivity.
  - cbn. lia.
  - exists w'. split; [exact Hw'|]. rewrite H1, H2. split; reflexivity.
Defined.

(** X14.  Past the end of the level table.  Once the level index has run
    past the table (as it has after the last level was cleared) the level
    read is the last one, so a pop of anything but a hazard that leaves the
    score at or above the last target counts as one more level cleared: the
    level index goes up and [saveUnlockedLevelIfHigher] is called with it.
    Run on a storage that held a lower level, that call makes the menu
    offer Continue at a level for which the component cannot be mounted:
    the read of the previous level's target finds no table entry. *)
Theorem continue_fails_beyond_table
    (LEVELS : list LevelDefinition) (random : nat -> R)
    (toString : R -> Z -> string)
    (r : ref) (b : BubbleEntity.t) (w : World) (cfg : LevelDefinition) :
  heap w !! r = Some b -> BubbleEntity.type b <> BOMB ->
  Z.of_nat (length LEVELS) <= levelIndex (gameState w) ->
  currentLevel LEVELS (gameState w) = Some cfg ->
  target cfg <= score (gameState w) + SCORING (BubbleEntity.type b) ->
  last LEVELS = Some cfg /\
  exists w',
    handlePop LEVELS LEVELS_MODE random toString r w = Some w' /\
    levelIndex (gameState w') = levelIndex (gameState w) + 1 /\
    unlocks (trace w')
      = (levelIndex (gameState w) + 1) :: unlocks (trace w) /\
    (forall now ls,
       JS.lt (storageService.persistedLevel ls)
             (JS.Fin (inject_Z (levelIndex (gameState w) + 2))) = true ->
       MainMenu.handleContinue
         (fst (snd (MainMenu.mount
                      (storageService.saveUnlockedLevelIfHigher now
                         (inject_Z (levelIndex (gameState w) + 1)) ls))))
         = (LEVELS_MODE, JS.Fin (inject_Z (levelIndex (gameState w) + 2)))) /\
    initialGameState LEVELS LEVELS_MODE (levelIndex (gameState w) + 2) = None.
Proof.
  intros Hb Ht Hidx Hcfg Hs.
  assert (Hlen : (0 < length LEVELS)%nat).
  { unfold currentLevel, at_index in Hcfg.
    destruct (_ <? 0); [discriminate Hcfg|].
    apply lookup_lt_Some in Hcfg. lia. }
  assert (Hlast : last LEVELS = Some cfg).
  { unfold currentLevel, at_index in Hcfg.
    rewrite Z.min_r in Hcfg by lia.
    destruct (Z.ltb_spec (Z.of_nat (length LEVELS) - 1) 0); [lia|].
    rewrite last_lookup. rewrite <- Hcfg. f_equal. lia. }
  split; [exact Hlast|].
  assert (Hr : levelsReadable LEVELS w).
  { split; [|lia]. intros E. rewrite E in Hlen. cbn in Hlen. lia. }
  destruct (handlePop_effect LEVELS LEVELS_MODE random toString r b w Hb Hr)
    as (w' & Hw' & _).
  exists w'. split; [exact Hw'|].
  destruct (handlePop_counters LEVELS LEVELS_MODE random toString r b w w' Hb Hw')
    as (st1 & s1 & l1 & go1 & _ & _ & _ & _ & Hfirst & Hsecond).
  destruct Hfirst as [(Hbomb & _)|[(Hbomb & _)|(_ & _ & _ & Es1 & _)]];
    [contradiction..|].
  destruct Hsecond as [(Hm & _)|(_ & cfg0 & Hcfg0 & Hsecond)];
    [discriminate Hm|].
  assert (Ecfg : cfg0 = cfg) by congruence. subst cfg0.
  destruct Hsecond as [(Hlt & _)|(_ & E1 & _ & E3 & _)]; [lia|].
  split; [exact E1|]. split; [exact E3|]. split.
  - intros now ls Hlow. unfold MainMenu.handleContinue. f_equal.
    destruct (storageMore.mount_after_clear now
                (levelIndex (gameState w) + 1) ls) as (_ & _ & H3); [lia|].
    replace (levelIndex (gameState w) + 1 + 1)
      with (levelIndex (gameState w) + 2) in H3 by lia.
    now apply H3.
  - apply initialGameState_beyond_table; [lia|].
    replace (levelIndex (gameState w) + 2 - 2)
      with (levelIndex (gameState w)) by lia.
    unfold at_index. destruct (_ <? 0); [reflexivity|].
    apply lookup_ge_None. lia.
Qed.

Lemma continue_fails_beyond_table_witness :
  exists w',
    handlePop constants.LEVELS LEVELS_MODE samples.halves samples.blank 0%nat
      (samples.worldOf samples.resumedAt7
         [samples.bubbleAt 300 400 NORMAL false]) = Some w' /\
    levelIndex (gameState w') = 7 /\
    initialGameState constants.LEVELS LEVELS_MODE 8 = None.
Proof.
  destruct (continue_fails_beyond_table constants.LEVELS samples.halves
              samples.blank 0%nat (samples.bubbleAt 300 400 NORMAL false)
              (samples.worldOf samples.resumedAt7
                 [samples.bubbleAt 300 400 NORMAL false])
              {| target := 999999; speedMod := 2.5; spawnMod := 0.5;
                 bombChance := 0.35 |})
    as (_ & w' & Hw' & H1 & _ & _ & H2).
  - reflexivity.
  - discriminate.
  - cbn. lia.
  - reflexivity.
  - cbn. lia.
  - exists w'. split; [exact Hw'|]. split; [rewrite H1; reflexivity|exact H2].
Defined.

(** X23.  What a spawn puts on the stage.  With every draw of the oracle
    in [0, 1), a stage of positive width and nonzero height, a positive
    speed multiplier and a non-negative score, [spawnBubble] adds exactly
    one object under a reference not in use, at the end of the bubble
    array, and takes six draws; counters and trace stay as they are.  The
    object is not flagged, its radius is positive (between 0.72 and 1.1
    base radii, the base radius being 4% of the stage width), it lies
    within the stage horizontally with its whole disc, its centre is one
    base radius below the bottom edge, and its speed is positive, in level
    mode between 1.6 and 2.4 times the speed multiplier of the level. *)
Theorem spawnBubble_geometry
    (LEVELS : list LevelDefinition) (mode : GameMode) (random : nat -> R)
    (toString : R -> Z -> string)
    (width height : R) (w : World) (cfg : LevelDefinition) :
  (forall n, (0 <= random n < 1)%R) ->
  (0 < width)%R -> height <> 0%R ->
  currentLevel LEVELS (gameState w) = Some cfg ->
  (0 < speedMod cfg)%R -> 0 <= score (gameState w) ->
  exists r b w',
    spawnBubble LEVELS mode random toString (width, height) w = Some w' /\
    heap w !! r = None /\
    heap w' = <[r := b]> (heap w) /\
    bubbles (gameState w') = bubbles (gameState w) ++ [r] /\
    draws w' = (6 + draws w)%nat /\
    counters w' = counters w /\ trace w' = trace w /\
    BubbleEntity.isPopped b = false /\
    (0.72 * (width * 0.04) <= BubbleEntity.radius b < 1.1 * (width * 0.04))%R /\
    (0 < BubbleEntity.radius b)%R /\
    (BubbleEntity.radius b < BubbleEntity.x b
       < width - BubbleEntity.radius b)%R /\
    BubbleEntity.y b = (height + width * 0.04)%R /\
    (0 < BubbleEntity.speed b)%R /\
    (mode = LEVELS_MODE ->
       (1.6 * speedMod cfg <= BubbleEntity.speed b < 2.4 * speedMod cfg)%R).
Proof.
  intros Hunit Hw Hh Hcfg Hsm Hsc.
  destruct (spawnBubble_shape LEVELS mode random toString width height w cfg)
    as (b & Hspawn & Ex & Ey & Er & Es & _ & _ & Ep); [lra|exact Hh|exact Hcfg|].
  exists (fresh (dom (heap w))), b. eexists. split; [exact Hspawn|].
  cbn [heap gameState bubbles set_bubbles draws trace].
  split; [apply not_elem_of_dom, is_fresh|].
  repeat (split; [reflexivity|]). split; [exact Ep|].
  pose proof (Hunit (draws w)) as H1.
  pose proof (Hunit (3 + draws w)%nat) as H4.
  pose proof (Hunit (4 + draws w)%nat) as H5.
  assert (Hr : (0.72 * (width * 0.04) <= BubbleEntity.radius b
                < 1.1 * (width * 0.04))%R).
  { rewrite Er. destruct (decide (BubbleEntity.type b = RARE)); split; nra. }
  split; [exact Hr|]. split; [nra|]. split; [rewrite Ex; nra|].
  split; [exact Ey|].
  assert (Hd : (1 <= (if decide (mode = INFINITE)
                      then 1 + IZR (score (gameState w)) / 2000 else 1))%R).
  { destruct (decide (mode = INFINITE)); [|lra].
    apply IZR_le in Hsc. lra. }
  unfold GAME_CONFIG.BASE_SPEED in Es.
  split.
  - rewrite Es.
    set (d := if decide (mode = INFINITE) then _ else _) in *.
    set (k := random (4 + draws w)%nat) in *.
    assert (0 < speedMod cfg * d)%R by nra.
    nra.
  - intros Hm. rewrite Es.
    rewrite (decide_False (P := mode = INFINITE)) by (rewrite Hm; discriminate).
    set (k := random (4 + draws w)%nat) in *.
    split; nra.
Qed.

Lemma spawnBubble_geometry_witness :
  exists r b w',
    spawnBubble constants.LEVELS LEVELS_MODE samples.halves samples.blank
      (1280, 720)%R (samples.worldOf samples.freshState []) = Some w' /\
    heap w' = <[r := b]> ∅ /\
    (0 < BubbleEntity.radius b)%R /\
    (BubbleEntity.radius b < BubbleEntity.x b < 1280 - BubbleEntity.radius b)%R.
Proof.
  destruct (spawnBubble_geometry constants.LEVELS LEVELS_MODE samples.halves
              samples.blank 1280%R 720%R
              (samples.worldOf samples.freshState [])
              {| target := 150; speedMod := 1.0; spawnMod := 1.0;
                 bombChance := 0.1 |})
    as (r & b & w' & H1 & _ & H2 & _ & _ & _ & _ & _ & _ & H3 & H4 & _).
  - intros n. unfold samples.halves. lra.
  - lra.
  - lra.
  - reflexivity.
  - cbn. lra.
  - cbn. lia.
  - exists r, b, w'. auto.
Defined.

(** X24.  Which category a spawn picks.  A heart is spawned only in level
    mode, with fewer than 3 lives, beyond the second level, and on a draw
    above 0.97; in particular never in an endless session.  A hazard is
    spawned exactly when the category draw is below the hazard chance,
    which is the level's in level mode and grows with the score in an
    endless session without ever exceeding 0.35, so that there a draw of
    0.35 or more is never a hazard. *)
Theorem spawnBubble_category
    (LEVELS : list LevelDefinition) (mode : GameMode) (random : nat -> R)
    (toString : R -> Z -> string)
    (width height : R) (w : World) (cfg : LevelDefinition) :
  width <> 0%R -> height <> 0%R ->
  currentLevel LEVELS (gameState w) = Some cfg ->
  exists b w',
    spawnBubble LEVELS mode random toString (width, height) w = Some w' /\
    heap w' !! fresh (dom (heap w)) = Some b /\
    (BubbleEntity.type b = HEART ->
       mode = LEVELS_MODE /\ lives (gameState w) < 3 /\
       1 < levelIndex (gameState w) /\
       (0.97 < random (1 + draws w)%nat)%R) /\
    (mode = LEVELS_MODE ->
       (BubbleEntity.type b = BOMB <->
        (random (1 + draws w)%nat < bombChance cfg)%R)) /\
    (mode = INFINITE ->
       (BubbleEntity.type b = BOMB <->
        (random (1 + draws w)%nat
           < Rmin 0.35 (0.05 + IZR (score (gameState w)) / 8000))%R) /\
       ((0.35 <= random (1 + draws w)%nat)%R -> BubbleEntity.type b <> BOMB) /\
       BubbleEntity.type b <> HEART).
Proof.
  intros Hw Hh Hcfg.
  destruct (spawnBubble_shape LEVELS mode random toString width height w cfg
              Hw Hh Hcfg) as (b & Hspawn & _ & _ & _ & _ & Et & _).
  exists b. eexists. split; [exact Hspawn|].
  cbn [heap]. split; [apply lookup_insert_eq|].
  cbv zeta in Et.
  set (rand := random (1 + draws w)%nat) in *.
  set (chance := if decide (mode = INFINITE)
                 then Rmin 0.35 (0.05 + IZR (score (gameState w)) / 8000)%R
                 else bombChance cfg) in *.
  assert (Hbomb : BubbleEntity.type b = BOMB <-> (rand < chance)%R).
  { rewrite Et. unfold Rltb.
    destruct (Rlt_dec rand chance); [tauto|].
    destruct (Rlt_dec rand (chance + 0.15));
      [split; [discriminate|contradiction]|].
    destruct (_ && _); split; discriminate || contradiction. }
  assert (Hheart : BubbleEntity.type b = HEART ->
            mode = LEVELS_MODE /\ lives (gameState w) < 3 /\
            1 < levelIndex (gameState w) /\ (0.97 < rand)%R).
  { rewrite Et. unfold Rltb.
    destruct (Rlt_dec rand chance); [discriminate|].
    destruct (Rlt_dec rand (chance + 0.15)); [discriminate|].
    destruct (bool_decide (mode = LEVELS_MODE)) eqn:Hm; [|discriminate].
    destruct (Z.ltb_spec (lives (gameState w)) 3); [|discriminate].
    destruct (Rlt_dec 0.97 rand); [|discriminate].
    destruct (Z.ltb_spec 1 (levelIndex (gameState w))); [|discriminate].
    intros _. apply bool_decide_eq_true in Hm. auto. }
  split; [exact Hheart|]. split.
  - intros Hm. unfold chance in Hbomb.
    now rewrite (decide_False (P := mode = INFINITE)) in Hbomb
      by (rewrite Hm; discriminate).
  - intros Hm. unfold chance in Hbomb.
    rewrite (decide_True (P := mode = INFINITE)) in Hbomb by exact Hm.
    split; [exact Hbomb|]. split.
    + intros Hge Hb. apply Hbomb in Hb.
      pose proof (Rmin_l 0.35 (0.05 + IZR (score (gameState w)) / 8000)).
      lra.
    + intros Hb. apply Hheart in Hb as (Hm' & _). congruence.
Qed.

Lemma spawnBubble_category_witness :
  exists b w',
    spawnBubble constants.LEVELS INFINITE samples.halves samples.blank
      (1280, 720)%R samples.endlessWorld = Some w' /\
    heap w' !! fresh (dom (heap samples.endlessWorld)) = Some b /\
    BubbleEntity.type b <> BOMB /\ BubbleEntity.type b <> HEART.
Proof.
  destruct (spawnBubble_category constants.LEVELS INFINITE samples.halves
              samples.blank 1280%R 720%R samples.endlessWorld
              {| target := 150; speedMod := 1.0; spawnMod := 1.0;
                 bombChance := 0.1 |})
    as (b & w' & H1 & H2 & _ & _ & H3).
  - lra.
  - lra.
  - reflexivity.
  - exists b, w'. split; [exact H1|]. split; [exact H2|].
    destruct (H3 eq_refl) as (_ & H4 & H5). split; [|exact H5].
    apply H4. unfold samples.halves. lra.
Defined.

(** X25.  A burst of particles.  With every draw of the oracle in [0, 1),
    [createParticles] appends exactly [count] particles to the particle
    array and takes four draws for each; nothing else of the world
    changes.  Every new particle starts at the given point with life 1 and
    the colour of the category, leaves at a speed between 2 and 8, and has
    a size between 1 and 4. *)
Theorem createParticles_burst
    (random : nat -> R) (toString : R -> Z -> string)
    (x y : R) (type : BubbleType) (count : nat) (w : World) :
  (forall n, (0 <= random n < 1)%R) ->
  exists ps,
    length ps = count /\
    createParticles random toString x y type count w
      = mkWorld (set_particles (particles (gameState w) ++ ps) (gameState w))
          (heap w) (oneEuroFilter w) (draws w + 4 * count) (trace w) /\
    Forall (fun p =>
              Particle.x p = x /\ Particle.y p = y /\
              Particle.life p = 1%R /\
              Particle.color p = particleColor type /\
              (2 <= hypot (Particle.vx p) (Particle.vy p) < 8)%R /\
              (1 <= Particle.size p < 4)%R) ps.
Proof.
  intros Hunit. revert w. induction count as [|n IH]; intros w.
  - exists []. split; [reflexivity|]. split; [|constructor].
    cbn [createParticles]. rewrite app_nil_r, Nat.mul_0_r, Nat.add_0_r.
    now destruct w as [[] ? ? ? ?].
  - cbn [createParticles nextRandom].
    match goal with |- context [createParticles _ _ _ _ _ _ ?w'] =>
      destruct (IH w') as (ps & Hlen & -> & Hall) end.
    eexists (_ :: ps). split; [cbn; now rewrite Hlen|]. split.
    + cbn. rewrite <- app_assoc. cbn. f_equal. lia.
    + constructor; [|exact Hall]. cbn.
      pose proof (Hunit (S (draws w))) as H2.
      pose proof (Hunit (S (S (S (draws w))))) as H4.
      rewrite hypot_polar by lra.
      repeat split; try reflexivity; lra.
Qed.

Lemma createParticles_burst_witness :
  exists ps,
    length ps = 15%nat /\
    particles (gameState
      (createParticles samples.halves samples.blank 300 400 NORMAL 15
         (samples.worldOf samples.freshState []))) = ps /\
    Forall (fun p => Particle.life p = 1%R) ps.
Proof.
  destruct (createParticles_burst samples.halves samples.blank 300 400 NORMAL
              15 (samples.worldOf samples.freshState []))
    as (ps & Hlen & -> & Hall).
  - intros n. unfold samples.halves. lra.
  - exists ps. split; [exact Hlen|]. split; [reflexivity|].
    eapply Forall_impl; [exact Hall|]. cbn. intros p Hp. apply Hp.
Defined.

(** X26.  What a tick leaves behind.  On a well-formed world with a
    readable level table every call of [gameLoop] returns; a call that
    gets past its guards (not paused, status playing, canvas present, stage
    sides nonzero) leaves in the bubble array only objects that are not
    flagged and whose lower edge is still below the line 100 above the
    stage, leaves only particles with positive life, and ends with the
    request for the next frame.  Whatever the guards, a bubble array
    without flagged objects is left without flagged objects. *)
Theorem gameLoop_cleans_up
    (LEVELS : list LevelDefinition) (mode : GameMode) (random : nat -> R)
    (toString : R -> Z -> string)
    (isPaused canvasReady : bool) (stage : R * R) (time : R) (w : World) :
  wellFormed w -> levelsReadable LEVELS w ->
  exists w',
    gameLoop LEVELS mode random toString isPaused canvasReady stage time w
      = Some w' /\
    (isPaused = false -> canvasReady = true ->
     status (gameState w) = PLAYING ->
     fst stage <> 0%R -> snd stage <> 0%R ->
       (forall r, r ∈ bubbles (gameState w') ->
          exists b, heap w' !! r = Some b /\
            BubbleEntity.isPopped b = false /\
            (-100 < BubbleEntity.y b + BubbleEntity.radius b)%R) /\
       (forall p, p ∈ particles (gameState w') -> (0 < Particle.life p)%R) /\
       head (trace w') = Some RequestAnimationFrame) /\
    ((forall r, r ∈ bubbles (gameState w) ->
        exists b, heap w !! r = Some b /\ BubbleEntity.isPopped b = false) ->
     forall r, r ∈ bubbles (gameState w') ->
       exists b, heap w' !! r = Some b /\ BubbleEntity.isPopped b = false).
Proof.
  intros Hwf Hr.
  destruct (gameLoop_pops LEVELS mode random toString isPaused canvasReady
              stage time w Hwf Hr) as (w' & new & Hw' & _).
  exists w'. split; [exact Hw'|].
  assert (Hfull : isPaused = false -> canvasReady = true ->
            status (gameState w) = PLAYING ->
            fst stage <> 0%R -> snd stage <> 0%R ->
            (forall r, r ∈ bubbles (gameState w') ->
               exists b, heap w' !! r = Some b /\
                 BubbleEntity.isPopped b = false /\
                 (-100 < BubbleEntity.y b + BubbleEntity.radius b)%R) /\
            (forall p, p ∈ particles (gameState w') -> (0 < Particle.life p)%R) /\
            head (trace w') = Some RequestAnimationFrame).
  { intros -> -> Hst Hsw Hsh.
    destruct (gameLoop_full LEVELS mode random toString stage time w w'
                Hst Hsw Hsh Hw') as (wd & Eh & Eb & Ep & Et).
    rewrite Eh, Eb, Ep, Et. split; [|split; [|reflexivity]].
    - intros r Hin. apply list_elem_of_In, filter_In in Hin as [_ Hk].
      unfold keepBubble in Hk. destruct (heap wd !! r) as [b|]; [|discriminate].
      exists b. split; [reflexivity|].
      apply andb_true_iff in Hk as [Hy Hp]. unfold Rltb in Hy.
      destruct (Rlt_dec _ _); [|discriminate].
      split; [now destruct (BubbleEntity.isPopped b)|assumption].
    - intros p Hin. apply list_elem_of_In, filter_In in Hin as [_ Hl].
      unfold Rltb in Hl. now destruct (Rlt_dec _ _). }
  split; [exact Hfull|].
  intros Hlive r Hin.
  unfold gameLoop in Hw'.
  destruct isPaused; [injection Hw' as <-; now apply Hlive|].
  destruct (negb (bool_decide (status (gameState w) = PLAYING))) eqn:Hst;
    [injection Hw' as <-; now apply Hlive|].
  destruct canvasReady; [|injection Hw' as <-; now apply Hlive].
  destruct (Req_dec_T (fst stage) 0);
    [injection Hw' as <-; now apply Hlive|].
  destruct (Req_dec_T (snd stage) 0);
    [injection Hw' as <-; now apply Hlive|].
  apply negb_false_iff, bool_decide_eq_true in Hst.
  destruct Hfull as (Hb & _); try reflexivity; try assumption.
  destruct (Hb r Hin) as (b & H1 & H2 & _). eauto.
Qed.

Lemma gameLoop_cleans_up_witness :
  exists w',
    gameLoop constants.LEVELS LEVELS_MODE samples.halves samples.blank
      false true (1280, 720)%R 16%R samples.crowdedWorld = Some w' /\
    (forall r, r ∈ bubbles (gameState w') ->
       exists b, heap w' !! r = Some b /\ BubbleEntity.isPopped b = false) /\
    head (trace w') = Some RequestAnimationFrame.
Proof.
  destruct (gameLoop_cleans_up constants.LEVELS LEVELS_MODE samples.halves
              samples.blank false true (1280, 720)%R 16%R samples.crowdedWorld)
    as (w' & Hw' & Hfull & _).
  - split.
    + apply (NoDup_seq 0 4).
    + intros r Hr. cbn in Hr.
      repeat (apply elem_of_cons in Hr as [->|Hr]; [eexists; reflexivity|]).
      now apply elem_of_nil in Hr.
  - split; [discriminate|]. cbn. lia.
  - exists w'. split; [exact Hw'|].
    destruct Hfull as (Hb & _ & Ht); try reflexivity; try (cbn; lra).
    split; [|exact Ht].
    intros r Hin. destruct (Hb r Hin) as (b & H1 & H2 & _). eauto.
Defined.

(** X27.  The screen shake dies out.  One pass of the shake block leaves a
    non-negative shake non-negative, multiplies it by 0.9 and snaps it to 0
    once that is below 0.5, so that the result is 0 or at least 0.5; it
    touches neither the counters nor the bubbles.  Repeated with no pop in
    between, it brings every non-negative shake to exactly 0 after finitely
    many passes, where it stays. *)
Theorem screenShake_dies_out (random : nat -> R) (w : World) :
  (0 <= screenShake (gameState w))%R ->
  ((0 <= screenShake (gameState (decayShake random w))
      <= 0.9 * screenShake (gameState w))%R /\
   (screenShake (gameState (decayShake random w)) = 0%R \/
    (0.5 <= screenShake (gameState (decayShake random w)))%R /\
    screenShake (gameState (decayShake random w))
      = (screenShake (gameState w) * 0.9)%R) /\
   counters (decayShake random w) = counters w /\
   heap (decayShake random w) = heap w /\
   bubbles (gameState (decayShake random w)) = bubbles (gameState w)) /\
  exists N, forall n, (N <= n)%nat ->
    screenShake (gameState (Nat.iter n (decayShake random) w)) = 0%R.
Proof.
  assert (Hstep : forall w0, (0 <= screenShake (gameState w0))%R ->
            (0 <= screenShake (gameState (decayShake random w0))
               <= 0.9 * screenShake (gameState w0))%R /\
            (screenShake (gameState (decayShake random w0)) = 0%R \/
             (0.5 <= screenShake (gameState (decayShake random w0)))%R /\
             screenShake (gameState (decayShake random w0))
               = (screenShake (gameState w0) * 0.9)%R)).
  { intros w0 H0. unfold decayShake.
    destruct (Rlt_dec 0 (screenShake (gameState w0))) as [Hpos|Hz].
    - cbn [nextRandom].
      destruct (Rlt_dec _ 0.5) as [Hlow|Hhigh]; cbn in *.
      + split; [lra|now left].
      + split; [lra|right; lra].
    - split; [lra|left; lra]. }
  intros H0. split.
  - destruct (Hstep w H0) as [H1 H2]. split; [exact H1|]. split; [exact H2|].
    split; [apply counters_decayShake|].
    destruct (decayShake_calm random w) as [Hq Hb].
    split; [apply Hq|exact Hb].
  - assert (Hiter : forall n,
              (0 <= screenShake (gameState (Nat.iter n (decayShake random) w))
                 <= 0.9 ^ n * screenShake (gameState w))%R /\
              (n <> 0%nat ->
               screenShake (gameState (Nat.iter n (decayShake random) w)) = 0%R \/
               (0.5 <= screenShake
                         (gameState (Nat.iter n (decayShake random) w)))%R)).
    { induction n as [|n [IH _]].
      - rewrite ?iter_succ, ?iter_zero; cbn [pow]. split; [lra|congruence].
      - rewrite ?iter_succ, ?iter_zero; cbn [pow].
        destruct (Hstep (Nat.iter n (decayShake random) w)) as [H1 H2];
          [apply IH|].
        split; [|intros _; tauto].
        assert (Hp : (0 <= 0.9 ^ n)%R) by (apply pow_le; lra).
        split; [lra|]. nra. }
    destruct (pow_lt_1_zero 0.9)
      with (y := (0.5 / (screenShake (gameState w) + 1))%R) as [N HN].
    { rewrite Rabs_pos_eq; lra. }
    { apply Rdiv_lt_0_compat; lra. }
    exists (S N). intros n Hn.
    destruct (Hiter n) as [[Hlo Hhi] Hor].
    destruct Hor as [Hz|Hbig]; [lia|exact Hz|].
    exfalso. specialize (HN n ltac:(lia)).
    rewrite Rabs_pos_eq in HN by (apply pow_le; lra).
    assert (Hp : (0 <= 0.9 ^ n)%R) by (apply pow_le; lra).
    apply (Rmult_lt_compat_r (screenShake (gameState w) + 1)) in HN; [|lra].
    unfold Rdiv in HN. rewrite Rmult_assoc, Rinv_l, Rmult_1_r in HN by lra.
    nra.
Qed.

Lemma screenShake_dies_out_witness :
  exists N, forall n, (N <= n)%nat ->
    screenShake
      (gameState
         (Nat.iter n (decayShake samples.halves)
            (modify (set_screenShake 30) samples.lastLifeWorld))) = 0%R.
Proof.
  apply (screenShake_dies_out samples.halves
           (modify (set_screenShake 30) samples.lastLifeWorld)).
  cbn. lra.
Defined.

(** X28.  A feedback message is cleared after its countdown.  With the
    message timer at n > 0, the first n - 1 passes of the message block
    only count the timer down, and the n-th sets it to 0 and clears the
    message shown; after that the block does nothing.  [showMessage] sets
    the timer to 120, so a message is cleared by the 120th tick after it
    was shown, and not before, unless another message replaces it. *)
Theorem message_cleared_after_countdown (n : nat) (w : World) :
  messageTimer (gameState w) = Z.of_nat (S n) ->
  (forall k, (k <= n)%nat ->
     Nat.iter k tickMessage w
       = modify (set_messageTimer (Z.of_nat (S n - k))) w) /\
  Nat.iter (S n) tickMessage w
    = emit (SetFeedbackMessage EmptyString) (modify (set_messageTimer 0) w) /\
  (forall k, (S n <= k)%nat ->
     Nat.iter k tickMessage w = Nat.iter (S n) tickMessage w) /\
  (forall msg w0, messageTimer (gameState (showMessage msg w0)) = 120).
Proof.
  intros Ht.
  assert (Hbelow : forall k, (k <= n)%nat ->
            Nat.iter k tickMessage w
              = modify (set_messageTimer (Z.of_nat (S n - k))) w).
  { induction k as [|k IH]; intros Hk.
    - rewrite ?iter_succ, ?iter_zero. rewrite Nat.sub_0_r, <- Ht.
      now destruct w as [[] ? ? ? ?].
    - rewrite ?iter_succ, ?iter_zero. rewrite IH by lia. unfold tickMessage.
      cbn [modify gameState set_messageTimer messageTimer].
      destruct (Z.ltb_spec 0 (Z.of_nat (S n - k))); [|lia].
      destruct (Z.eqb_spec (Z.of_nat (S n - k) - 1) 0); [lia|].
      unfold modify. cbn [gameState heap oneEuroFilter draws trace].
      unfold set_messageTimer.
      cbn [status score lives levelIndex levelScoreStart lastSpawnTime
           bubbles particles inputType fingerPos lastStablePos lastHandTime
           screenShake message messageTimer].
      do 2 f_equal. lia. }
  assert (Hlast : Nat.iter (S n) tickMessage w
            = emit (SetFeedbackMessage EmptyString)
                (modify (set_messageTimer 0) w)).
  { rewrite ?iter_succ, ?iter_zero. rewrite Hbelow by lia. unfold tickMessage.
    cbn [modify gameState set_messageTimer messageTimer].
    destruct (Z.ltb_spec 0 (Z.of_nat (S n - n))); [|lia].
    destruct (Z.eqb_spec (Z.of_nat (S n - n) - 1) 0); [|lia].
    unfold emit, modify. cbn [gameState heap oneEuroFilter draws trace].
    unfold set_messageTimer.
    cbn [status score lives levelIndex levelScoreStart lastSpawnTime
         bubbles particles inputType fingerPos lastStablePos lastHandTime
         screenShake message messageTimer].
    do 2 f_equal. lia. }
  split; [exact Hbelow|]. split; [exact Hlast|]. split; [|reflexivity].
  intros k Hk. induction k as [|k IH]; [lia|].
  destruct (decide (k = n)) as [->|Hne]; [reflexivity|].
  rewrite ?iter_succ, ?iter_zero. change (tickMessage (Nat.iter k tickMessage w)
                          = Nat.iter (S n) tickMessage w).
  rewrite IH by lia. rewrite Hlast. reflexivity.
Qed.

Lemma message_cleared_after_countdown_witness :
  Nat.iter 120 tickMessage
    (showMessage "Level 2!" (samples.worldOf samples.freshState []))
  = emit (SetFeedbackMessage EmptyString)
      (modify (set_messageTimer 0)
         (showMessage "Level 2!" (samples.worldOf samples.freshState []))).
Proof.
  destruct (message_cleared_after_countdown 119
              (showMessage "Level 2!" (samples.worldOf samples.freshState [])))
    as (_ & H & _).
  - reflexivity.
  - exact H.
Defined.

(** X29.  A tick moves every bubble up by its speed.  On a well-formed
    world, a tick that gets past its guards leaves every object of the
    bubble array with its y lowered by its speed and with its x, radius,
    speed, category and id as they were; the object ends the tick flagged
    exactly if it was flagged before or met the pointer test as the tick
    began. *)
Theorem tick_moves_bubbles
    (LEVELS : list LevelDefinition) (mode : GameMode) (random : nat -> R)
    (toString : R -> Z -> string) (stage : R * R) (time : R) (w : World) :
  wellFormed w -> levelsReadable LEVELS w ->
  status (gameState w) = PLAYING -> fst stage <> 0%R -> snd stage <> 0%R ->
  exists w',
    gameLoop LEVELS mode random toString false true stage time w = Some w' /\
    forall r b,
      r ∈ bubbles (gameState w) -> heap w !! r = Some b ->
      exists b',
        heap w' !! r = Some b' /\ risen b b' /\
        BubbleEntity.isPopped b' = BubbleEntity.isPopped b || wouldPop w r.
Proof.
  intros Hwf Hr Hst Hsw Hsh.
  destruct (gameLoop_stages LEVELS mode random toString stage time w
              Hwf Hr Hst Hsw Hsh)
    as (cfg & wc & wd & w' & Hw' & _ & Hwfc & Hrc & Hfc & Hhc & Hbc
        & Hwalk & _ & Eh & _).
  exists w'. split; [exact Hw'|].
  intros r b Hin Hb.
  destruct (forEachBubble_moves LEVELS mode random toString
              (bubbles (gameState wc)) wc (proj1 Hwfc) (proj2 Hwfc) Hrc)
    as (wd' & Hwalk' & Hmoved & _).
  rewrite Hwalk in Hwalk'. injection Hwalk' as <-.
  destruct (Hmoved r b) as (b' & H1 & H2 & H3).
  - destruct Hbc as [[_ ->]|[_ ->]]; [|exact Hin].
    apply elem_of_app. now left.
  - now apply Hhc.
  - exists b'. rewrite Eh. split; [exact H1|]. split; [exact H2|].
    rewrite H3. f_equal. apply wouldPop_agree; [|exact Hfc].
    rewrite Hb. now apply Hhc.
Qed.

Lemma tick_moves_bubbles_witness :
  exists w',
    gameLoop constants.LEVELS LEVELS_MODE samples.halves samples.blank
      false true (1280, 720)%R 16%R samples.crowdedWorld = Some w' /\
    exists b',
      heap w' !! 3%nat = Some b' /\
      risen (samples.bubbleAt 900 402 NORMAL false) b'.
Proof.
  destruct (tick_moves_bubbles constants.LEVELS LEVELS_MODE samples.halves
              samples.blank (1280, 720)%R 16%R samples.crowdedWorld)
    as (w' & Hw' & Hmoved).
  - split.
    + apply (NoDup_seq 0 4).
    + intros r Hr. cbn in Hr.
      repeat (apply elem_of_cons in Hr as [->|Hr]; [eexists; reflexivity|]).
      now apply elem_of_nil in Hr.
  - split; [discriminate|]. cbn. lia.
  - reflexivity.
  - cbn. lra.
  - cbn. lra.
  - exists w'. split; [exact Hw'|].
    destruct (Hmoved 3%nat (samples.bubbleAt 900 402 NORMAL false))
      as (b' & H1 & H2 & _).
    + cbn. set_solver.
    + reflexivity.
    + eauto.
Defined.

(** X30.  A tick adds at most one bubble.  On a well-formed world, a tick
    that gets past its guards leaves in the bubble array only objects that
    were there, and possibly one new object; it adds none unless more than
    [SPAWN_RATE_MS] times the spawn multiplier of the level has passed
    since the last spawn. *)
Theorem tick_spawns_at_most_one
    (LEVELS : list LevelDefinition) (mode : GameMode) (random : nat -> R)
    (toString : R -> Z -> string) (stage : R * R) (time : R) (w : World) :
  wellFormed w -> levelsReadable LEVELS w ->
  status (gameState w) = PLAYING -> fst stage <> 0%R -> snd stage <> 0%R ->
  exists cfg w',
    gameLoop LEVELS mode random toString false true stage time w = Some w' /\
    currentLevel LEVELS (gameState w) = Some cfg /\
    (length (bubbles (gameState w')) <= S (length (bubbles (gameState w))))%nat /\
    (forall r, r ∈ bubbles (gameState w') ->
       r ∈ bubbles (gameState w) \/ r = fresh (dom (heap w))) /\
    (~ (GAME_CONFIG.SPAWN_RATE_MS * spawnMod cfg
          < time - lastSpawnTime (gameState w))%R ->
     (length (bubbles (gameState w')) <= length (bubbles (gameState w)))%nat /\
     forall r, r ∈ bubbles (gameState w') -> r ∈ bubbles (gameState w)).
Proof.
  intros Hwf Hr Hst Hsw Hsh.
  destruct (gameLoop_stages LEVELS mode random toString stage time w
              Hwf Hr Hst Hsw Hsh)
    as (cfg & wc & wd & w' & Hw' & Hcfg & _ & _ & _ & _ & Hbc
        & _ & Hbd & _ & Eb).
  exists cfg, w'. split; [exact Hw'|]. split; [exact Hcfg|].
  assert (Hlen : (length (bubbles (gameState w'))
                  <= length (bubbles (gameState wc)))%nat).
  { rewrite Eb. etransitivity; [apply List.filter_length_le|].
    destruct Hbd as [->| ->]; cbn; lia. }
  assert (Hsub : forall r, r ∈ bubbles (gameState w') ->
                   r ∈ bubbles (gameState wc)).
  { intros r Hin. rewrite Eb in Hin.
    apply list_elem_of_In, filter_In in Hin as [Hin _].
    apply list_elem_of_In in Hin.
    destruct Hbd as [E|E]; rewrite E in Hin; [exact Hin|].
    now apply elem_of_nil in Hin. }
  split; [|split].
  - destruct Hbc as [[_ E]|[_ E]]; rewrite E in Hlen;
      [rewrite length_app in Hlen; cbn in Hlen|]; lia.
  - intros r Hin. apply Hsub in Hin.
    destruct Hbc as [[_ E]|[_ E]]; rewrite E in Hin; [|now left].
    apply elem_of_app in Hin as [Hin|Hin]; [now left|].
    right. now apply list_elem_of_singleton in Hin.
  - intros Hnot. destruct Hbc as [[Hdue _]|[_ E]]; [contradiction|].
    rewrite E in Hlen, Hsub. auto.
Qed.

Lemma tick_spawns_at_most_one_witness :
  exists cfg w',
    gameLoop constants.LEVELS LEVELS_MODE samples.halves samples.blank
      false true (1280, 720)%R 16%R samples.crowdedWorld = Some w' /\
    currentLevel constants.LEVELS (gameState samples.crowdedWorld) = Some cfg /\
    (length (bubbles (gameState w')) <= 4)%nat.
Proof.
  destruct (tick_spawns_at_most_one constants.LEVELS LEVELS_MODE samples.halves
              samples.blank (1280, 720)%R 16%R samples.crowdedWorld)
    as (cfg & w' & Hw' & Hcfg & _ & _ & Hnot).
  - split.
    + apply (NoDup_seq 0 4).
    + intros r Hr. cbn in Hr.
      repeat (apply elem_of_cons in Hr as [->|Hr]; [eexists; reflexivity|]).
      now apply elem_of_nil in Hr.
  - split; [discriminate|]. cbn. lia.
  - reflexivity.
  - cbn. lra.
  - cbn. lra.
  - exists cfg, w'. split; [exact Hw'|]. split; [exact Hcfg|].
    apply Hnot. cbn in Hcfg. injection Hcfg as <-. cbn.
    unfold GAME_CONFIG.SPAWN_RATE_MS. lra.
Defined.

End gameExtras.
